(** * The content-generation pipeline of [.streamlit/app.py]

    A shallow embedding of the Streamlit handler and of its helper
    functions.  What the script calls outside itself (text extraction,
    the chat completion API, the JSON decoder, the pandas constructor on
    irregular inputs) is collected in an environment record; the events
    of a run are the chat calls and the pauses between them. *)

From Stdlib Require Import List Bool Arith ZArith NArith Lia String Ascii.
Import ListNotations.

Set Implicit Arguments.
Set Warnings "-register-all".

(** ** Python values *)

Module Py.

(** A Python [str] is a sequence of Unicode code points. *)
Definition char := N.
Definition str := list char.

(** The code points of an ASCII literal. *)
Definition lit (s : string) : str :=
  List.map N_of_ascii (list_ascii_of_string s).

Definition char_eqb (a b : char) : bool := N.eqb a b.

Fixpoint str_eqb (a b : str) : bool :=
  match a, b with
  | [], [] => true
  | x :: a', y :: b' => char_eqb x y && str_eqb a' b'
  | _, _ => false
  end.

(** [s.startswith(p)] *)
Fixpoint startswith (p s : str) : bool :=
  match p, s with
  | [], _ => true
  | _ :: _, [] => false
  | x :: p', y :: s' => char_eqb x y && startswith p' s'
  end.

(** [p in s] for two strings: substring test. *)
Fixpoint contains (p s : str) : bool :=
  match s with
  | [] => startswith p []
  | _ :: s' => startswith p s || contains p s'
  end.

(** [c in s] for a single character. *)
Definition has_char (c : char) (s : str) : bool :=
  existsb (char_eqb c) s.

(** [str.isspace] on one code point (the table of [Py_UNICODE_ISSPACE]). *)
Definition isspace (c : char) : bool :=
  ((9 <=? c) && (c <=? 13) || (28 <=? c) && (c <=? 32)
   || (c =? 133) || (c =? 160) || (c =? 5760)
   || (8192 <=? c) && (c <=? 8202)
   || (c =? 8232) || (c =? 8233) || (c =? 8239) || (c =? 8287)
   || (c =? 12288))%N.

Fixpoint lstrip_by (f : char -> bool) (s : str) : str :=
  match s with
  | c :: s' => if f c then lstrip_by f s' else s
  | [] => []
  end.

Definition rstrip_by (f : char -> bool) (s : str) : str :=
  rev (lstrip_by f (rev s)).

(** [s.strip()] *)
Definition strip (s : str) : str := rstrip_by isspace (lstrip_by isspace s).

(** [s.split(sep)] for a one-character separator: the pieces between
    the separators; never empty. *)
Fixpoint split_char (sep : char) (s : str) : list str :=
  match s with
  | [] => [[]]
  | c :: s' =>
      if char_eqb c sep then [] :: split_char sep s'
      else match split_char sep s' with
           | p :: ps => (c :: p) :: ps
           | [] => [[c]]
           end
  end.

(** [s.replace(c, empty)]: every occurrence of [c] removed. *)
Definition remove_char (c : char) (s : str) : str :=
  filter (fun x => negb (char_eqb x c)) s.

(** [sep.join(parts)] *)
Fixpoint join (sep : str) (parts : list str) : str :=
  match parts with
  | [] => []
  | [p] => p
  | p :: ps => p ++ sep ++ join sep ps
  end.

(** A float is kept as the decimal value of its literal, [m * 10^e];
    only its truth value is ever inspected. *)
Inductive pyfloat :=
| FDec (m e : Z)
| FNan
| FInf (negative : bool).

(** [bool(f)]: false exactly when the literal rounds to zero in
    binary64, that is when its magnitude is at most [2^-1075]. *)
Definition float_truthy (f : pyfloat) : bool :=
  match f with
  | FDec m e =>
      if (m =? 0)%Z then false
      else if (0 <=? e)%Z then true
      else (10 ^ (- e) <? Z.abs m * 2 ^ 1075)%Z
  | FNan | FInf _ => true
  end.

(** The values [json.loads] can produce. A [dict] keeps its insertion
    order, so it is an association list. *)
Inductive pyval :=
| PNone
| PBool (b : bool)
| PInt (z : Z)
| PFloat (f : pyfloat)
| PStr (s : str)
| PList (l : list pyval)
| PDict (d : list (str * pyval)).

Definition dict := list (str * pyval).

(** [bool(v)] *)
Definition truthy (v : pyval) : bool :=
  match v with
  | PNone => false
  | PBool b => b
  | PInt z => negb (z =? 0)%Z
  | PFloat f => float_truthy f
  | PStr s => negb (str_eqb s [])
  | PList l => match l with [] => false | _ => true end
  | PDict d => match d with [] => false | _ => true end
  end.

(** [d[k]] / [d.get(k)] on a dict. *)
Fixpoint dict_get (k : str) (d : dict) : option pyval :=
  match d with
  | [] => None
  | (k', v) :: d' => if str_eqb k k' then Some v else dict_get k d'
  end.

(** [d[k] = v]: an existing key keeps its position. *)
Fixpoint dict_set (A : Type) (k : str) (v : A) (d : list (str * A))
  : list (str * A) :=
  match d with
  | [] => [(k, v)]
  | (k', v') :: d' =>
      if str_eqb k k' then (k, v) :: d' else (k', v') :: dict_set k v d'
  end.

(** Outcome of a Python expression that may raise. *)
Inductive res (A : Type) :=
| Returns (a : A)
| Raises.
Arguments Raises {A}.

(** [k in v] for a string [k]: membership in a dict's keys, equality
    with an element of a list, substring of a string, and a
    [TypeError] on anything else. *)
Definition str_in (k : str) (v : pyval) : res bool :=
  match v with
  | PDict d => Returns (existsb (fun kv => str_eqb k (fst kv)) d)
  | PList l =>
      Returns (existsb (fun x => match x with
                                 | PStr s => str_eqb k s
                                 | _ => false
                                 end) l)
  | PStr s => Returns (contains k s)
  | _ => Raises
  end.

(** [v[k]] for a string [k]: defined on a dict that has the key. *)
Definition subscript (v : pyval) (k : str) : res pyval :=
  match v with
  | PDict d => match dict_get k d with
               | Some x => Returns x
               | None => Raises
               end
  | _ => Raises
  end.

(** [len(v)] *)
Definition len (v : pyval) : res nat :=
  match v with
  | PStr s => Returns (List.length s)
  | PList l => Returns (List.length l)
  | PDict d => Returns (List.length d)
  | _ => Raises
  end.

End Py.

(** ** [urllib.parse]

    [urlparse] and [urlunparse] as in CPython 3.12 ([Lib/urllib/parse.py]),
    on [str] arguments.  The validation of a bracketed host (module
    [ipaddress]) and of a non-ASCII netloc under NFKC normalisation
    (module [unicodedata]) is the argument [netloc_valid]. *)

Module UrlParse.
Import Py.

Record ParseResult := {
  scheme : str;
  netloc : str;
  path : str;
  params : str;
  query : str;
  fragment : str
}.

Definition is_ascii_alpha (c : char) : bool :=
  ((65 <=? c) && (c <=? 90) || (97 <=? c) && (c <=? 122))%N.

Definition is_ascii_digit (c : char) : bool :=
  ((48 <=? c) && (c <=? 57))%N.

(** Membership in [scheme_chars]: letters, digits and [+-.] *)
Definition is_scheme_char (c : char) : bool :=
  (is_ascii_alpha c || is_ascii_digit c
   || (c =? 43) || (c =? 45) || (c =? 46))%N.

Definition ascii_lower (c : char) : char :=
  if ((65 <=? c) && (c <=? 90))%N then (c + 32)%N else c.

(** [s.find(c)], as the text before and after the first [c]. *)
Fixpoint partition (c : char) (s : str) : option (str * str) :=
  match s with
  | [] => None
  | x :: s' =>
      if char_eqb x c then Some ([], s')
      else match partition c s' with
           | Some (a, b) => Some (x :: a, b)
           | None => None
           end
  end.

(** [_splitnetloc(url, 2)] on the text after the two slashes: the
    netloc ends at the first of [/?#]. *)
Fixpoint splitnetloc (s : str) : str * str :=
  match s with
  | [] => ([], [])
  | c :: s' =>
      if ((c =? 47) || (c =? 63) || (c =? 35))%N then ([], s)
      else let (n, r) := splitnetloc s' in (c :: n, r)
  end.

Definition is_ascii (s : str) : bool := forallb (fun c => (c <? 128)%N) s.

Definition uses_params : list str :=
  List.map lit [EmptyString; "ftp"; "hdl"; "prospero"; "http"; "imap"; "https";
                "shttp"; "rtsp"; "rtspu"; "sip"; "sips"; "mms"; "sftp";
                "tel"]%string.

Definition uses_netloc : list str :=
  List.map lit [EmptyString; "ftp"; "http"; "gopher"; "nntp"; "telnet"; "imap";
                "wais"; "file"; "mms"; "https"; "shttp"; "snews";
                "prospero"; "rtsp"; "rtspu"; "rsync"; "svn"; "svn+ssh";
                "sftp"; "nfs"; "git"; "git+ssh"; "ws"; "wss"]%string.

Definition str_mem (s : str) (l : list str) : bool := existsb (str_eqb s) l.

Section Parse.
Variable netloc_valid : str -> bool.

(** The scheme test of [urlsplit]: a colon at a positive index, an
    ASCII letter first, and only scheme characters before the colon. *)
Definition split_scheme (url : str) : str * str :=
  match partition 58%N url with
  | Some (c :: pre, post) =>
      if is_ascii_alpha c && forallb is_scheme_char (c :: pre)
      then (List.map ascii_lower (c :: pre), post)
      else ([], url)
  | _ => ([], url)
  end.

(** [urlsplit(url)]; [None] stands for the [ValueError] it raises. *)
Definition urlsplit (url0 : str)
  : option (str * str * str * str * str) :=
  let url := lstrip_by (fun c => (c <=? 32)%N) url0 in
  let url := remove_char 10%N (remove_char 13%N (remove_char 9%N url)) in
  let (sch, url) := split_scheme url in
  let (nl, url) :=
    match url with
    | 47%N :: 47%N :: rest => splitnetloc rest
    | _ => ([], url)
    end in
  let lb := has_char 91%N nl in
  let rb := has_char 93%N nl in
  if xorb lb rb then None
  else if lb && rb && negb (netloc_valid nl) then None
  else
    let (url, frag) :=
      match partition 35%N url with
      | Some (a, b) => (a, b)
      | None => (url, [])
      end in
    let (url, qry) :=
      match partition 63%N url with
      | Some (a, b) => (a, b)
      | None => (url, [])
      end in
    if negb (str_eqb nl []) && negb (is_ascii nl) && negb (netloc_valid nl)
    then None
    else Some (sch, nl, url, qry, frag).

(** [_splitparams(url)], called when [url] has a semicolon: cut at the
    first semicolon after the last slash. *)
Definition splitparams (url : str) : str * str :=
  let segs := split_char 47%N url in
  let last_seg := last segs [] in
  let front := firstn (List.length url - List.length last_seg) url in
  match partition 59%N last_seg with
  | Some (a, b) => (front ++ a, b)
  | None => (url, [])
  end.

Definition urlparse (url : str) : option ParseResult :=
  match urlsplit url with
  | None => None
  | Some (sch, nl, u, qry, frag) =>
      let (u, prm) :=
        if str_mem sch uses_params && has_char 59%N u
        then splitparams u else (u, []) in
      Some {| scheme := sch; netloc := nl; path := u; params := prm;
              query := qry; fragment := frag |}
  end.

End Parse.

Definition nonempty (s : str) : bool := negb (str_eqb s []).

Definition urlunsplit (sch nl url qry frag : str) : str :=
  let url :=
    if nonempty nl
       || (nonempty sch && str_mem sch uses_netloc
           && negb (startswith (lit "//") url))
    then lit "//" ++ nl
         ++ (if nonempty url && negb (startswith (lit "/") url)
             then lit "/" ++ url else url)
    else url in
  let url := if nonempty sch then sch ++ lit ":" ++ url else url in
  let url := if nonempty qry then url ++ lit "?" ++ qry else url in
  if nonempty frag then url ++ lit "#" ++ frag else url.

Definition urlunparse (p : ParseResult) : str :=
  let url := if nonempty (params p)
             then path p ++ lit ";" ++ params p else path p in
  urlunsplit (scheme p) (netloc p) url (query p) (fragment p).

End UrlParse.

(** ** [json.loads]

    The decoder of CPython's [json] module (the C scanner, strict mode,
    no hooks) on a [str].  It is the reference instance of the decoder
    that the environment provides; the interpreter's recursion limit and
    its limit on the digits of an integer literal are not part of it. *)

Module Json.
Import Py.

Inductive json_result :=
| Parsed (v : pyval)
| DecodeError      (* json.JSONDecodeError *)
| OtherError.      (* any other exception *)

Definition is_ws (c : char) : bool :=
  ((c =? 32) || (c =? 9) || (c =? 10) || (c =? 13))%N.

Definition skip_ws (s : str) : str := lstrip_by is_ws s.

Definition is_digit (c : char) : bool := ((48 <=? c) && (c <=? 57))%N.

Definition hex_value (c : char) : option N :=
  if is_digit c then Some (c - 48)%N
  else if ((97 <=? c) && (c <=? 102))%N then Some (c - 87)%N
  else if ((65 <=? c) && (c <=? 70))%N then Some (c - 55)%N
  else None.

(** Four hexadecimal digits of a [\uXXXX] escape. *)
Definition hex4 (s : str) : option (N * str) :=
  match s with
  | a :: b :: c :: d :: r =>
      match hex_value a, hex_value b, hex_value c, hex_value d with
      | Some x, Some y, Some z, Some w =>
          Some ((((x * 16 + y) * 16 + z) * 16 + w)%N, r)
      | _, _, _, _ => None
      end
  | _ => None
  end.

Definition unescape (c : char) : option char :=
  if (c =? 34)%N then Some 34%N
  else if (c =? 92)%N then Some 92%N
  else if (c =? 47)%N then Some 47%N
  else if (c =? 98)%N then Some 8%N
  else if (c =? 102)%N then Some 12%N
  else if (c =? 110)%N then Some 10%N
  else if (c =? 114)%N then Some 13%N
  else if (c =? 116)%N then Some 9%N
  else None.

Definition is_high_surrogate (c : N) : bool :=
  ((55296 <=? c) && (c <=? 56319))%N.
Definition is_low_surrogate (c : N) : bool :=
  ((56320 <=? c) && (c <=? 57343))%N.
Definition join_surrogates (hi lo : N) : N :=
  (65536 + ((hi - 55296) * 1024 + (lo - 56320)))%N.

(** [scanstring]: the text after an opening quote, up to the closing
    quote; [acc] is the decoded text so far, reversed. *)
Fixpoint scanstring (fuel : nat) (s acc : str) : option (str * str) :=
  match fuel with
  | O => None
  | S f =>
      match s with
      | [] => None
      | c :: r =>
          if (c =? 34)%N then Some (rev acc, r)
          else if (c =? 92)%N then
            match r with
            | [] => None
            | e :: r' =>
                if (e =? 117)%N then
                  match hex4 r' with
                  | None => None
                  | Some (u, r2) =>
                      if is_high_surrogate u then
                        match r2 with
                        | 92%N :: 117%N :: r3 =>
                            match hex4 r3 with
                            | None => None
                            | Some (u2, r4) =>
                                if is_low_surrogate u2
                                then scanstring f r4
                                       (join_surrogates u u2 :: acc)
                                else scanstring f r2 (u :: acc)
                            end
                        | _ => scanstring f r2 (u :: acc)
                        end
                      else scanstring f r2 (u :: acc)
                  end
                else match unescape e with
                     | Some x => scanstring f r' (x :: acc)
                     | None => None
                     end
            end
          else if (c <=? 31)%N then None
          else scanstring f r (c :: acc)
      end
  end.

Fixpoint span (f : char -> bool) (s : str) : str * str :=
  match s with
  | c :: s' => if f c then let (a, b) := span f s' in (c :: a, b)
               else ([], s)
  | [] => ([], [])
  end.

Definition digits_value (ds : str) : Z :=
  fold_left (fun acc d => (acc * 10 + Z.of_N (d - 48))%Z) ds 0%Z.

(** [_match_number]: an integer part, then an optional fraction and an
    optional exponent, each taken only when complete. *)
Definition match_number (s : str) : option (pyval * str) :=
  let (neg, s1) :=
    match s with
    | 45%N :: r => (true, r)
    | _ => (false, s)
    end in
  let int_part :=
    match s1 with
    | c :: r =>
        if ((49 <=? c) && (c <=? 57))%N
        then let (ds, r') := span is_digit r in Some (c :: ds, r')
        else if (c =? 48)%N then Some ([c], r)
        else None
    | [] => None
    end in
  match int_part with
  | None => None
  | Some (ints, r1) =>
      let (frac, r2) :=
        match r1 with
        | 46%N :: d :: r =>
            if is_digit d then span is_digit (d :: r) else ([], r1)
        | _ => ([], r1)
        end in
      let (expo, r3) :=
        match r2 with
        | e :: r =>
            if ((e =? 101) || (e =? 69))%N then
              let (sgn, r') :=
                match r with
                | 45%N :: x => (true, x)
                | 43%N :: x => (false, x)
                | _ => (false, r)
                end in
              let (ds, r'') := span is_digit r' in
              match ds with
              | [] => (None, r2)
              | _ => (Some (if sgn then (- digits_value ds)%Z
                            else digits_value ds), r'')
              end
            else (None, r2)
        | [] => (None, r2)
        end in
      let sign (z : Z) := if neg then (- z)%Z else z in
      match frac, expo with
      | [], None => Some (PInt (sign (digits_value ints)), r3)
      | _, _ =>
          let e := match expo with Some x => x | None => 0%Z end in
          Some (PFloat (FDec (sign (digits_value (ints ++ frac)))
                             (e - Z.of_nat (List.length frac))), r3)
      end
  end.

(** The members of an object after its opening brace, [s] starting at
    a key; [scan] decodes one value. *)
Fixpoint object_loop (n : nat) (scan : str -> option (pyval * str))
    (s : str) (acc : dict) : option (pyval * str) :=
  match n with
  | O => None
  | S n' =>
      match s with
      | 34%N :: r =>
          match scanstring (S (List.length r)) r [] with
          | None => None
          | Some (k, r1) =>
              match skip_ws r1 with
              | 58%N :: r2 =>
                  match scan (skip_ws r2) with
                  | None => None
                  | Some (v, r3) =>
                      let acc' := dict_set k v acc in
                      match skip_ws r3 with
                      | 125%N :: r4 => Some (PDict acc', r4)
                      | 44%N :: r4 => object_loop n' scan (skip_ws r4) acc'
                      | _ => None
                      end
                  end
              | _ => None
              end
          end
      | _ => None
      end
  end.

(** The elements of an array after its opening bracket; [acc] is
    reversed. *)
Fixpoint array_loop (n : nat) (scan : str -> option (pyval * str))
    (s : str) (acc : list pyval) : option (pyval * str) :=
  match n with
  | O => None
  | S n' =>
      match scan s with
      | None => None
      | Some (v, r) =>
          match skip_ws r with
          | 93%N :: r' => Some (PList (rev (v :: acc)), r')
          | 44%N :: r' => array_loop n' scan (skip_ws r') (v :: acc)
          | _ => None
          end
      end
  end.

(** [scan_once]: one JSON value at the head of [s]. *)
Fixpoint scan_once (fuel : nat) (s : str) : option (pyval * str) :=
  match fuel with
  | O => None
  | S f =>
      match s with
      | [] => None
      | c :: r =>
          if (c =? 34)%N then
            match scanstring (S (List.length r)) r [] with
            | Some (k, r') => Some (PStr k, r')
            | None => None
            end
          else if (c =? 123)%N then
            match skip_ws r with
            | 125%N :: r' => Some (PDict [], r')
            | r' => object_loop (S (List.length r')) (scan_once f) r' []
            end
          else if (c =? 91)%N then
            match skip_ws r with
            | 93%N :: r' => Some (PList [], r')
            | r' => array_loop (S (List.length r')) (scan_once f) r' []
            end
          else if startswith (lit "null") s then Some (PNone, skipn 4 s)
          else if startswith (lit "true") s
               then Some (PBool true, skipn 4 s)
          else if startswith (lit "false") s
               then Some (PBool false, skipn 5 s)
          else if startswith (lit "NaN") s
               then Some (PFloat FNan, skipn 3 s)
          else if startswith (lit "Infinity") s
               then Some (PFloat (FInf false), skipn 8 s)
          else if startswith (lit "-Infinity") s
               then Some (PFloat (FInf true), skipn 9 s)
          else match_number s
      end
  end.

(** [json.loads(s)] *)
Definition loads (s : str) : json_result :=
  if startswith [65279%N] s then DecodeError
  else
    match scan_once (S (List.length s)) (skip_ws s) with
    | None => DecodeError
    | Some (v, rest) =>
        match skip_ws rest with
        | [] => Parsed v
        | _ => DecodeError
        end
    end.

End Json.

(** ** [pandas]

    A [DataFrame] is kept column by column.  The constructor is given on
    the inputs the handler builds: nothing, a list of records and a
    dictionary of equally long lists; [pd.concat] is the outer join
    with [ignore_index=True]. *)

Module Pandas.
Import Py.

Inductive label :=
| LStr (s : str)
| LInt (i : Z).

Definition label_eqb (a b : label) : bool :=
  match a, b with
  | LStr x, LStr y => str_eqb x y
  | LInt x, LInt y => (x =? y)%Z
  | _, _ => false
  end.

Inductive cell :=
| Val (v : pyval)
| NaN.

Record DataFrame := {
  nrows : nat;
  data : list (label * list cell)
}.

Definition columns (df : DataFrame) : list label := List.map fst (data df).

(** The cells of the column [l], if the frame has it. *)
Fixpoint column_of (l : label) (d : list (label * list cell))
  : option (list cell) :=
  match d with
  | [] => None
  | (l', cs) :: d' => if label_eqb l l' then Some cs else column_of l d'
  end.

(** [pd.DataFrame()] *)
Definition empty_frame : DataFrame := {| nrows := 0; data := [] |}.

(** Distinct elements in order of first appearance. *)
Fixpoint uniq (A : Type) (eqb : A -> A -> bool) (seen l : list A)
  : list A :=
  match l with
  | [] => seen
  | x :: l' =>
      if existsb (eqb x) seen then uniq eqb seen l'
      else uniq eqb (seen ++ [x]) l'
  end.

(** The columns of a list of records: the keys of all of them, each
    once, in order of first appearance. *)
Definition record_columns (recs : list dict) : list str :=
  uniq str_eqb [] (List.concat (List.map (List.map fst) recs)).

Definition record_cell (k : str) (d : dict) : cell :=
  match dict_get k d with
  | Some v => Val v
  | None => NaN
  end.

(** [pd.DataFrame(recs)] for a list of dicts. *)
Definition from_records (recs : list dict) : DataFrame :=
  {| nrows := List.length recs;
     data := List.map (fun k => (LStr k, List.map (record_cell k) recs))
                      (record_columns recs) |}.

(** The Python objects of a list, when all of them are dicts. *)
Fixpoint all_dicts (l : list pyval) : option (list dict) :=
  match l with
  | [] => Some []
  | PDict d :: l' =>
      match all_dicts l' with
      | Some ds => Some (d :: ds)
      | None => None
      end
  | _ :: _ => None
  end.

(** [pd.DataFrame(v)] for a decoded JSON value; [None] when the
    constructor raises.  A scalar is refused; nothing, an empty list
    and an empty dict give the empty frame; a list of dicts gives its
    records; every other shape is left to [irregular]. *)
Definition DataFrame_of (irregular : pyval -> option DataFrame)
    (v : pyval) : option DataFrame :=
  match v with
  | PNone => Some empty_frame
  | PBool _ | PInt _ | PFloat _ | PStr _ => None
  | PList [] => Some empty_frame
  | PDict [] => Some empty_frame
  | PList l =>
      match all_dicts l with
      | Some recs => Some (from_records recs)
      | None => irregular v
      end
  | PDict _ => irregular v
  end.

(** [pd.DataFrame({a: xs, b: ys})] for two lists; it raises when their
    lengths differ. *)
Definition from_two_lists (a : str) (xs : list pyval)
    (b : str) (ys : list pyval) : option DataFrame :=
  if Nat.eqb (List.length xs) (List.length ys)
  then Some {| nrows := List.length xs;
               data := [(LStr a, List.map Val xs);
                        (LStr b, List.map Val ys)] |}
  else None.

(** [pd.concat(dfs, ignore_index=True)] for a non-empty list. *)
Definition concat_frames (dfs : list DataFrame) : DataFrame :=
  let cols := uniq label_eqb [] (List.concat (List.map columns dfs)) in
  {| nrows := list_sum (List.map nrows dfs);
     data :=
       List.map
         (fun l =>
            (l, List.concat (List.map
                          (fun df => match column_of l (data df) with
                                     | Some cs => cs
                                     | None => repeat NaN (nrows df)
                                     end) dfs)))
         cols |}.

End Pandas.

(** ** The environment of a run *)

Module World.
Import Py.

(** An uploaded file, as [st.file_uploader] hands it over. *)
Record UploadedFile := {
  name : str;
  type : str;
  payload : list N
}.

(** A prompt is kept as the values that its builder interpolates into
    the template text. *)
Inductive prompt :=
| EmailPrompt (summary : str) (count : Z) (objective_link : str)
| LinkedInPrompt (summary : str) (count : Z) (objective : str)
    (destination_link : str) (cta_button_text : str)
| FacebookPrompt (summary : str) (count : Z) (objective : str)
    (destination_link : str) (cta_button_text : str)
| GoogleSearchPrompt (summary : str)
| GoogleDisplayPrompt (summary : str).

(** A call of [client.chat.completions.create]. *)
Inductive request :=
| Summarize (source_name : str) (max_chars : Z) (text : str)
| Generate (p : prompt).

Inductive event :=
| Chat (r : request)
| Sleep.

(** What the handler calls outside itself.  The three extractors
    return the text or [None]; a chat call returns the message content,
    or [None] when anything in the call raises, and may depend on the
    events before it. *)
Record Env := {
  netloc_valid : str -> bool;
  extract_text_from_url : pyval -> option str;
  extract_text_from_pdf : UploadedFile -> option str;
  extract_text_from_ppt : UploadedFile -> option str;
  chat_create : list event -> request -> option str;
  json_loads : str -> Json.json_result;
  DataFrame_irregular : pyval -> option Pandas.DataFrame
}.

Definition is_generate (e : event) : bool :=
  match e with
  | Chat (Generate _) => true
  | _ => false
  end.

Definition is_chat (e : event) : bool :=
  match e with
  | Chat _ => true
  | Sleep => false
  end.

(** Number of calls of the generation capability in a log. *)
Definition generation_calls (l : list event) : nat :=
  List.length (filter is_generate l).

End World.

(** ** The application *)

Module App.
Import Py Pandas World.

(** *** Helper functions *)

(** The truth value of a string. *)
Definition nonempty (s : str) : bool := negb (str_eqb s []).

(** The line break of the string literals. *)
Definition newline : str := [10%N].

(** [add_http(url)] *)
Definition add_http (env : Env) (url : pyval) : res pyval :=
  if negb (truthy url) then Returns url
  else
    match url with
    | PStr u =>
        match UrlParse.urlparse (netloc_valid env) u with
        | None => Raises
        | Some parsed =>
            if negb (nonempty (UrlParse.scheme parsed)) then
              if has_char 46%N
                   (hd [] (split_char 47%N (UrlParse.path parsed)))
              then Returns (PStr (lit "https://" ++ u))
              else Returns url
            else Returns (PStr (UrlParse.urlunparse parsed))
        end
    | _ => Raises
    end.

(** The places where the script calls [st.stop()]. *)
Inductive halt :=
| NoContextGiven
| NoLeadMagnet
| NoObjectiveLink
| NoTextExtracted
| SummaryFailed.

(** How a piece of the script ends: with a value, at [st.stop()], or
    with an exception that nothing catches. *)
Inductive outcome (A : Type) :=
| Done (a : A)
| Stopped (h : halt)
| Crashed.
Arguments Stopped {A}.
Arguments Crashed {A}.

(** The script threads the log of its external events. *)
Definition M (A : Type) : Type := list event -> outcome A * list event.

Definition ret (A : Type) (a : A) : M A := fun l => (Done a, l).

Definition bind (A B : Type) (c : M A) (k : A -> M B) : M B :=
  fun l =>
    match c l with
    | (Done a, l') => k a l'
    | (Stopped h, l') => (Stopped h, l')
    | (Crashed, l') => (Crashed, l')
    end.

Notation "x <- c ;; k" := (bind c (fun x => k))
  (at level 61, c at next level, right associativity).

Definition stop (A : Type) (h : halt) : M A := fun l => (Stopped h, l).
Definition crash (A : Type) : M A := fun l => (Crashed, l).
Arguments stop {A} h.
Arguments crash {A}.

(** [client.chat.completions.create(...)] and the reading of
    [response.choices[0].message.content]. *)
Definition chat (env : Env) (r : request) : M (option str) :=
  fun l => (Done (chat_create env l r), l ++ [Chat r]).

(** [time.sleep(1)] *)
Definition sleep : M unit := fun l => (Done tt, l ++ [Sleep]).

(** [s[:n]] *)
Definition slice_to (n : Z) (s : str) : str := firstn (Z.to_nat n) s.

(** The answer of the summarizer to a blank text. *)
Definition no_content (source_name : str) : str :=
  if nonempty source_name
  then lit "No content extracted from " ++ source_name ++ lit "."
  else lit "No content provided.".

(** The answer of the summarizer when its call raises. *)
Definition summarization_error (source_name : str) : str :=
  lit "Error during summarization for " ++ source_name ++ lit ".".

(** [summarize_text(text, max_chars, source_name)] *)
Definition summarize_text (env : Env) (text : str) (max_chars : Z)
    (source_name : str) : M str :=
  if negb (nonempty text) || negb (nonempty (strip text))
  then ret (no_content source_name)
  else
    r <- chat env (Summarize source_name max_chars (slice_to 40000 text)) ;;
    match r with
    | Some content => ret (strip content)
    | None => ret (summarization_error source_name)
    end.

(** *** The search for a fenced block

    [re.search(r'```json\s*([\s\S]*?)\s*```', content, re.IGNORECASE)],
    by backtracking as the regular expression engine does it. *)

Definition fence : str := lit "```".

(** One character of the label, without regard to case; the long s
    (U+017F) is a case variant of [s]. *)
Definition label_char (p c : char) : bool :=
  char_eqb c p || char_eqb c (p - 32)%N
  || (char_eqb p 115%N && char_eqb c 383%N).

Fixpoint label_prefix (p s : str) : option str :=
  match p, s with
  | [], _ => Some s
  | _ :: _, [] => None
  | x :: p', y :: s' => if label_char x y then label_prefix p' s' else None
  end.

(** The text after an opening fence and its label, if [s] starts with
    them. *)
Definition after_open (s : str) : option str :=
  if startswith fence s then label_prefix (lit "json") (skipn 3 s)
  else None.

(** [\s*```] at the head of [s]. *)
Definition closes (s : str) : bool :=
  startswith fence (lstrip_by isspace s).

(** [([\s\S]*?)\s*```]: the shortest group after which the closing
    fence matches. *)
Fixpoint lazy_group (s acc : str) : option str :=
  if closes s then Some (rev acc)
  else match s with
       | [] => None
       | c :: s' => lazy_group s' (c :: acc)
       end.

(** The greedy [\s*] before the group gives back one space at a time. *)
Fixpoint greedy_spaces (k : nat) (s : str) : option str :=
  match lazy_group (skipn k s) [] with
  | Some g => Some g
  | None => match k with
            | O => None
            | S k' => greedy_spaces k' s
            end
  end.

Definition match_here (s : str) : option str :=
  match after_open s with
  | None => None
  | Some r => greedy_spaces (List.length (fst (Json.span isspace r))) r
  end.

(** The group of the leftmost match. *)
Fixpoint search_fence (s : str) : option str :=
  match match_here s with
  | Some g => Some g
  | None => match s with
            | [] => None
            | _ :: s' => search_fence s'
            end
  end.

(** The part of [generate_ad_content] after the response has arrived:
    from the message content to the value returned. *)
Definition decode_content (env : Env) (raw : str) : pyval :=
  let content := strip raw in
  match json_loads env content with
  | Json.Parsed v => v
  | Json.OtherError => PNone
  | Json.DecodeError =>
      match search_fence content with
      | Some body =>
          match json_loads env body with
          | Json.Parsed v => v
          | _ => PNone
          end
      | None => PNone
      end
  end.

(** [generate_ad_content(prompt)] *)
Definition generate_ad_content (env : Env) (p : prompt) : M pyval :=
  r <- chat env (Generate p) ;;
  match r with
  | Some raw => ret (decode_content env raw)
  | None => ret PNone
  end.

(** *** The inputs of the form *)

Record Inputs := {
  company_url : str;
  uploaded_context_files : list UploadedFile;
  uploaded_lead_magnet : option UploadedFile;
  lead_objective : str;
  learn_more_link : str;
  download_link_input : str;
  objective_link_input : str;
  content_count : Z
}.

Definition is_some (A : Type) (o : option A) : bool :=
  match o with
  | Some _ => true
  | None => false
  end.

Definition is_nil (A : Type) (l : list A) : bool :=
  match l with
  | [] => true
  | _ :: _ => false
  end.

Definition pdf_type : str := lit "application/pdf".
Definition ppt_type : str :=
  lit "application/vnd.openxmlformats-officedocument.presentationml.presentation".

(** The three gates at the head of the handler. *)
Definition validate (inp : Inputs) : M unit :=
  if negb (nonempty (company_url inp))
     && is_nil (uploaded_context_files inp)
  then stop NoContextGiven
  else if str_eqb (lead_objective inp) (lit "Lead Magnet Download")
          && negb (is_some (uploaded_lead_magnet inp))
          && negb (nonempty (download_link_input inp))
  then stop NoLeadMagnet
  else if negb (str_eqb (lead_objective inp) (lit "Lead Magnet Download"))
          && negb (nonempty (objective_link_input inp))
  then stop NoObjectiveLink
  else ret tt.

(** *** Step 1: extraction *)

Definition text_truthy (o : option str) : bool :=
  match o with
  | Some t => nonempty t
  | None => false
  end.

(** The text of one uploaded file, by its declared type. *)
Definition file_content (env : Env) (file : UploadedFile) : option str :=
  if str_eqb (type file) pdf_type then extract_text_from_pdf env file
  else if str_eqb (type file) ppt_type then extract_text_from_ppt env file
  else None.

Fixpoint extract_files (env : Env) (files : list UploadedFile)
    (extracted_texts : list (str * str)) : list (str * str) :=
  match files with
  | [] => extracted_texts
  | file :: rest =>
      match file_content env file with
      | Some t =>
          if nonempty t
          then extract_files env rest (dict_set (name file) t extracted_texts)
          else extract_files env rest extracted_texts
      | None => extract_files env rest extracted_texts
      end
  end.

(** The dictionary [extracted_texts] after the website and the files. *)
Definition extract_context (env : Env) (inp : Inputs)
  : M (list (str * str)) :=
  from_url <-
    (if nonempty (company_url inp) then
       match add_http env (PStr (company_url inp)) with
       | Raises => crash
       | Returns u =>
           match extract_text_from_url env u with
           | Some t => if nonempty t then ret [(lit "website", t)]
                       else ret []
           | None => ret []
           end
       end
     else ret []) ;;
  ret (extract_files env (uploaded_context_files inp) from_url).

(** *** Step 2: summaries *)

Definition len_str (s : str) : Z := Z.of_nat (List.length s).

Definition max_chars_for (text : str) : Z :=
  if (5000 <? len_str text)%Z then 3000%Z else 1800%Z.

(** An entry of the list [summaries]. *)
Definition summary_entry (name summary : str) : str :=
  lit "--- Context from " ++ name ++ lit " ---" ++ newline ++ summary.

Fixpoint summarize_all (env : Env) (items : list (str * str))
    (summaries : list str) : M (list str) :=
  match items with
  | [] => ret summaries
  | (name, text) :: rest =>
      summary <- summarize_text env text (max_chars_for text) name ;;
      _ <- sleep ;;
      summarize_all env rest (summaries ++ [summary_entry name summary])
  end.

Definition combine_summaries (summaries : list str) : str :=
  join (newline ++ newline) summaries.

(** The test before [st.stop()] after the summaries. *)
Definition summary_halts (summaries : list str) : bool :=
  negb (nonempty (combine_summaries summaries))
  || forallb (contains (lit "Error")) summaries.

(** *** Steps 3 to 6: the tables *)





(** [j and key in j] *)
Definition accepted (key : str) (j : pyval) : res bool :=
  if truthy j then str_in key j else Returns false.

(** [pd.DataFrame(j[key])] inside its [try]: [None] when anything
    raises. *)
Definition frame_of_key (env : Env) (key : str) (j : pyval)
  : option DataFrame :=
  match subscript j key with
  | Returns v => DataFrame_of (DataFrame_irregular env) v
  | Raises => None
  end.

(** The Email table from the generator's result. *)
Definition email_table (env : Env) (email_json : pyval) : res DataFrame :=
  match accepted (lit "emails") email_json with
  | Raises => Raises
  | Returns true =>
      match frame_of_key env (lit "emails") email_json with
      | Some df => Returns df
      | None => Returns empty_frame
      end
  | Returns false => Returns empty_frame
  end.

(** One round of the LinkedIn or Facebook loop on the list of frames. *)
Definition collect_frame (env : Env) (key : str) (j : pyval)
    (dfs : list DataFrame) : res (list DataFrame) :=
  match accepted key j with
  | Raises => Raises
  | Returns true =>
      match frame_of_key env key j with
      | Some df => Returns (dfs ++ [df])
      | None => Returns dfs
      end
  | Returns false => Returns dfs
  end.

(** The table of a channel from the frames of its objectives. *)
Definition merge_frames (dfs : list DataFrame) : DataFrame :=
  if is_nil dfs then empty_frame else concat_frames dfs.

(** [xs + [None] * k] *)
Definition pad_none (v : pyval) (k : nat) : res (list pyval) :=
  match v with
  | PList xs => Returns (xs ++ repeat PNone k)
  | _ => Raises
  end.

(** The body of the [try] for Google Search and Google Display. *)
Definition google_frame (j : pyval) : option DataFrame :=
  match subscript j (lit "headlines"), subscript j (lit "descriptions") with
  | Returns hs, Returns ds =>
      match len hs, len ds with
      | Returns nh, Returns nd =>
          let max_len := Nat.max nh nd in
          match pad_none hs (max_len - nh), pad_none ds (max_len - nd) with
          | Returns headlines, Returns descriptions =>
              from_two_lists (lit "Headline") headlines
                             (lit "Description") descriptions
          | _, _ => None
          end
      | _, _ => None
      end
  | _, _ => None
  end.

(** The Google Search table, and the Google Display table, from the
    generator's result. *)
Definition google_table (j : pyval) : res DataFrame :=
  match accepted (lit "headlines") j with
  | Raises => Raises
  | Returns false => Returns empty_frame
  | Returns true =>
      match str_in (lit "descriptions") j with
      | Raises => Raises
      | Returns false => Returns empty_frame
      | Returns true =>
          match google_frame j with
          | Some df => Returns df
          | None => Returns empty_frame
          end
      end
  end.

(** *** Links and button labels *)

Definition fallback_link (inp : Inputs) (dest_link : str) : str :=
  if negb (nonempty dest_link)
  then if nonempty (learn_more_link inp) then learn_more_link inp
       else company_url inp
  else dest_link.

(** The destination and the button label of a LinkedIn objective. *)
Definition linkedin_link_cta (inp : Inputs) (obj : str) : str * str :=
  let (dest_link, cta) :=
    if str_eqb obj (lit "Demand Gen")
    then (download_link_input inp, lit "Download")
    else if str_eqb obj (lit "Demand Capture")
    then (objective_link_input inp,
          if str_eqb (lead_objective inp) (lit "Demo Booking")
          then lit "Register" else lit "Request Demo")
    else (learn_more_link inp, lit "Learn More") in
  (fallback_link inp dest_link, cta).

(** The destination and the button label of a Facebook objective. *)
Definition facebook_link_cta (inp : Inputs) (obj : str) : str * str :=
  let (dest_link, cta) :=
    if str_eqb obj (lit "Demand Gen")
    then (download_link_input inp, lit "Download")
    else if str_eqb obj (lit "Demand Capture")
    then (objective_link_input inp, lit "Book Now")
    else (learn_more_link inp, lit "Learn More") in
  (fallback_link inp dest_link, cta).

(** The prompt builders: each one fills its template with these
    values. *)
Definition create_email_prompt (summary : str) (count : Z)
    (objective_link : str) : prompt :=
  EmailPrompt summary count objective_link.

Definition create_linkedin_prompt (summary : str) (count : Z)
    (objective destination_link cta_button_text : str) : prompt :=
  LinkedInPrompt summary count objective destination_link cta_button_text.

Definition create_facebook_prompt (summary : str) (count : Z)
    (objective destination_link cta_button_text : str) : prompt :=
  FacebookPrompt summary count objective destination_link cta_button_text.

Definition create_google_search_prompt (summary : str) : prompt :=
  GoogleSearchPrompt summary.

Definition create_google_display_prompt (summary : str) : prompt :=
  GoogleDisplayPrompt summary.

Definition objectives : list str :=
  [lit "Brand Awareness"; lit "Demand Gen"; lit "Demand Capture"].

Definition lift (A : Type) (r : res A) : M A :=
  match r with
  | Returns a => ret a
  | Raises => crash
  end.

Fixpoint linkedin_loop (env : Env) (inp : Inputs) (combined_summary : str)
    (objs : list str) (dfs : list DataFrame) : M (list DataFrame) :=
  match objs with
  | [] => ret dfs
  | obj :: rest =>
      let (dest_link, cta) := linkedin_link_cta inp obj in
      j <- generate_ad_content env
             (create_linkedin_prompt combined_summary (content_count inp)
                                     obj dest_link cta) ;;
      dfs' <- lift (collect_frame env (lit "linkedin_ads") j dfs) ;;
      _ <- sleep ;;
      linkedin_loop env inp combined_summary rest dfs'
  end.

Fixpoint facebook_loop (env : Env) (inp : Inputs) (combined_summary : str)
    (objs : list str) (dfs : list DataFrame) : M (list DataFrame) :=
  match objs with
  | [] => ret dfs
  | obj :: rest =>
      let (dest_link, cta) := facebook_link_cta inp obj in
      j <- generate_ad_content env
             (create_facebook_prompt combined_summary (content_count inp)
                                     obj dest_link cta) ;;
      dfs' <- lift (collect_frame env (lit "facebook_ads") j dfs) ;;
      _ <- sleep ;;
      facebook_loop env inp combined_summary rest dfs'
  end.

(** *** The handler of the button *)

(** [all_ads_data], by sheet name in order of insertion. *)
Definition ExportBundle := list (str * DataFrame).

Definition generate_tables (env : Env) (inp : Inputs)
    (combined_summary : str) : M ExportBundle :=
  email_json <- generate_ad_content env
                  (create_email_prompt combined_summary (content_count inp)
                                       (objective_link_input inp)) ;;
  email <- lift (email_table env email_json) ;;
  _ <- sleep ;;
  linkedin_dfs <- linkedin_loop env inp combined_summary objectives [] ;;
  facebook_dfs <- facebook_loop env inp combined_summary objectives [] ;;
  search_json <- generate_ad_content env
                   (create_google_search_prompt combined_summary) ;;
  search <- lift (google_table search_json) ;;
  _ <- sleep ;;
  display_json <- generate_ad_content env
                    (create_google_display_prompt combined_summary) ;;
  display <- lift (google_table display_json) ;;
  ret [(lit "Email", email);
       (lit "LinkedIn", merge_frames linkedin_dfs);
       (lit "FaceBook", merge_frames facebook_dfs);
       (lit "Google Search", search);
       (lit "Google Display", display)].

(** The run from the click to the tables handed to the workbook
    writer.  Calls that only write to the page (messages, the progress
    bar, the preview) leave no trace here, and the company name, which
    only names the workbook file, is not computed. *)
Definition run (env : Env) (inp : Inputs) : M ExportBundle :=
  _ <- validate inp ;;
  extracted_texts <- extract_context env inp ;;
  if is_nil extracted_texts then stop NoTextExtracted
  else
    summaries <- summarize_all env extracted_texts [] ;;
    if summary_halts summaries then stop SummaryFailed
    else generate_tables env inp (combine_summaries summaries).

End App.

(** ** A scripted environment for concrete runs *)

Module Script.
Import Py World App.

(** The website gives [url_text], a file gives [file_text], the chat
    calls are answered in order from [replies], and JSON is decoded by
    the reference decoder. *)
Definition env (url_text : option str)
    (file_text : UploadedFile -> option str)
    (replies : list (option str)) : Env :=
  {| netloc_valid := fun _ => true;
     extract_text_from_url := fun _ => url_text;
     extract_text_from_pdf := file_text;
     extract_text_from_ppt := file_text;
     chat_create :=
       fun l _ => nth (List.length (filter is_chat l)) replies None;
     json_loads := Json.loads;
     DataFrame_irregular := fun _ => None |}.

(** An environment in which nothing is extracted and every call
    fails. *)
Definition silent : Env := env None (fun _ => None) [].

(** *** Inputs and answers of concrete runs *)

(** A form with a website, no files and the links filled in. *)
Definition demo_inputs (lead : str) : Inputs :=
  {| company_url := lit "example.com";
     uploaded_context_files := [];
     uploaded_lead_magnet := None;
     lead_objective := lead;
     learn_more_link := lit "https://example.com/product";
     download_link_input := [];
     objective_link_input := lit "https://example.com/book";
     content_count := 10 |}.

(** A slide deck named "Error.pptx" whose only text is a line break. *)
Definition blank_deck : UploadedFile :=
  {| name := lit "Error.pptx"; type := ppt_type; payload := [] |}.

(** The deck's text is extracted; no chat call is answered. *)
Definition blank_deck_env : Env :=
  Script.env None (fun _ => Some [10%N]) [].

(** A form with the deck as its only source. *)
Definition blank_deck_inputs : Inputs :=
  {| company_url := [];
     uploaded_context_files := [blank_deck];
     uploaded_lead_magnet := None;
     lead_objective := lit "Demo Booking";
     learn_more_link := [];
     download_link_input := [];
     objective_link_input := lit "https://example.com/book";
     content_count := 10 |}.

(** A PDF named "ErrorLog.pdf" whose summary succeeds. *)
Definition error_log : UploadedFile :=
  {| name := lit "ErrorLog.pdf"; type := pdf_type; payload := [] |}.

(** The text of the PDF is extracted and the summarizer answers. *)
Definition error_log_env : Env :=
  Script.env None (fun _ => Some (lit "Acme sells widgets."))
             [Some (lit "Acme builds widgets for small teams.")].

(** A form with the PDF as its only source. *)
Definition error_log_inputs : Inputs :=
  {| company_url := [];
     uploaded_context_files := [error_log];
     uploaded_lead_magnet := None;
     lead_objective := lit "Demo Booking";
     learn_more_link := [];
     download_link_input := [];
     objective_link_input := lit "https://example.com/book";
     content_count := 10 |}.

(** A decoded answer with one headline and two descriptions. *)
Definition short_search_response : pyval :=
  PDict [(lit "headlines", PList [PStr (lit "Widgets that work")]);
         (lit "descriptions",
          PList [PStr (lit "Order today."); PStr (lit "Free returns.")])].




(** A response that wraps an empty object in a fence, after a few
    words. *)
Definition fenced_response : str :=
  lit "Here you go: ```json" ++ newline ++ lit "{}" ++ newline ++ lit "```".

(** A response with two fenced blocks, the first of them empty. *)
Definition two_block_response : str :=
  lit "```json``` ```json{}```".

(** A generator that gives that response to its first call. *)
Definition two_block_env : Env :=
  Script.env None (fun _ => None) [Some two_block_response].

End Script.

(** ** The vocabulary of the statements *)

Module Spec.
Import Py Pandas World App.

Unset Implicit Arguments.

(** The word that the test on the summaries looks for. *)
Definition Error : str := lit "Error".

(** No context source yields text: the website, when one is given, and
    every uploaded file give nothing or the empty string. *)
Definition no_source_yields_text (env : Env) (inp : Inputs) : Prop :=
  (company_url inp <> [] ->
   forall u, add_http env (PStr (company_url inp)) = Returns u ->
             text_truthy (extract_text_from_url env u) = false)
  /\ Forall (fun file => text_truthy (file_content env file) = false)
            (uploaded_context_files inp).

(** A piece of the script that never reaches [st.stop()]. *)
Definition never_stops (A : Type) (c : M A) : Prop :=
  forall l h l', c l <> (Stopped h, l').

(** The entry of a source whose text is blank. *)
Definition blank_entry (it : str * str) : str :=
  summary_entry (fst it) (no_content (fst it)).

(** The cells of the column named [l]. *)
Definition slots (l : str) (df : DataFrame) : list cell :=
  match column_of (LStr l) (data df) with
  | Some cs => cs
  | None => []
  end.







(** The character of a fence. *)
Definition backtick : char := 96%N.

End Spec.

(** ** Inside the three extractors

    The bodies of [extract_text_from_url], [extract_text_from_pdf] and
    [extract_text_from_ppt], on what the libraries hand to them: the
    strings of the parsed page, the pages of the reader, the shapes of
    the slides.  A library call that raises is [Raises]; every
    exception is caught and makes the extractor return [None]. *)

Module Sources.
Import Py World App.

(** [soup.stripped_strings] on the strings of the page that are left
    once the [script] and [style] elements are removed: each one
    stripped, the empty ones skipped. *)
Definition stripped_strings (strings : list str) : list str :=
  filter nonempty (List.map strip strings).

(** [' '.join(soup.stripped_strings)] *)
Definition page_text (strings : list str) : str :=
  join (lit " ") (stripped_strings strings).

(** [extract_text_from_url(url)], from the outcome of the request and
    of the parser. *)
Definition extract_text_from_url (page : res (list str)) : option str :=
  match page with
  | Returns strings => Some (page_text strings)
  | Raises => None
  end.

(** The loop over [reader.pages]; a page is the outcome of its
    [extract_text()]. *)
Fixpoint pdf_pages (pages : list (res str)) (text : str) : option str :=
  match pages with
  | [] => Some text
  | Raises :: _ => None
  | Returns page_text :: rest =>
      if nonempty page_text
      then pdf_pages rest (text ++ page_text ++ newline)
      else pdf_pages rest text
  end.

(** [extract_text_from_pdf(file)], from the outcome of
    [pypdf.PdfReader(file)]. *)
Definition extract_text_from_pdf (reader : res (list (res str)))
  : option str :=
  match reader with
  | Returns pages => pdf_pages pages []
  | Raises => None
  end.

(** The loop over [slide.shapes]; a shape is the outcome of reading
    its attribute [text]: the text, or [None] when it has no such
    attribute. *)
Fixpoint ppt_shapes (shapes : list (res (option str))) (text : str)
  : option str :=
  match shapes with
  | [] => Some text
  | Raises :: _ => None
  | Returns (Some shape_text) :: rest =>
      ppt_shapes rest (text ++ shape_text ++ newline)
  | Returns None :: rest => ppt_shapes rest text
  end.

(** The loop over [prs.slides]. *)
Fixpoint ppt_slides (slides : list (list (res (option str)))) (text : str)
  : option str :=
  match slides with
  | [] => Some text
  | shapes :: rest =>
      match ppt_shapes shapes text with
      | Some text' => ppt_slides rest text'
      | None => None
      end
  end.

(** [extract_text_from_ppt(file)], from the outcome of
    [pptx.Presentation(file)]. *)
Definition extract_text_from_ppt
    (prs : res (list (list (res (option str))))) : option str :=
  match prs with
  | Returns slides => ppt_slides slides []
  | Raises => None
  end.

(** What the libraries give for a URL and for an uploaded file. *)
Record Readers := {
  fetch : pyval -> res (list str);
  PdfReader : UploadedFile -> res (list (res str));
  Presentation : UploadedFile -> res (list (list (res (option str))))
}.

(** The environment whose extractors are these bodies. *)
Definition with_readers (rd : Readers) (env : Env) : Env :=
  {| netloc_valid := netloc_valid env;
     World.extract_text_from_url := fun url => extract_text_from_url (fetch rd url);
     World.extract_text_from_pdf := fun file => extract_text_from_pdf (PdfReader rd file);
     World.extract_text_from_ppt := fun file => extract_text_from_ppt (Presentation rd file);
     chat_create := chat_create env;
     json_loads := json_loads env;
     DataFrame_irregular := DataFrame_irregular env |}.

End Sources.

(** ** The name of the company and of the workbook file *)

Module Workbook.
Import Py World App.

Definition ascii_upper (c : char) : char :=
  if ((97 <=? c) && (c <=? 122))%N then (c - 32)%N else c.

Section Name.

(** [str.capitalize] on a string with a character outside ASCII, where
    the case tables of Unicode decide. *)
Variable unicode_capitalize : str -> str.

(** [s.capitalize()]: the first character in upper case, the others in
    lower case. *)
Definition capitalize (s : str) : str :=
  if UrlParse.is_ascii s then
    match s with
    | [] => []
    | c :: t => ascii_upper c :: List.map UrlParse.ascii_lower t
    end
  else unicode_capitalize s.

(** [company_name], as the handler derives it from the website URL.
    The normalizer gives a string for a string, so the parser is never
    called on anything else. *)
Definition company_name (env : Env) (inp : Inputs) : str :=
  if nonempty (company_url inp) then
    match add_http env (PStr (company_url inp)) with
    | Returns (PStr u) =>
        match UrlParse.urlparse (netloc_valid env) u with
        | Some parsed_url =>
            let domain := UrlParse.netloc parsed_url in
            let domain :=
              if startswith (lit "www.") domain then skipn 4 domain
              else domain in
            capitalize (hd [] (split_char 46%N domain))
        | None => lit "CompanyName"
        end
    | _ => lit "CompanyName"
    end
  else lit "CompanyName".

End Name.

(** The characters that the pattern of the sanitizer lists: backslash,
    slash, star, question mark, colon, double quote, the two angle
    brackets and the bar. *)
Definition forbidden : str :=
  [92; 47; 42; 63; 58; 34; 60; 62; 124]%N.

(** [re.sub] with that pattern and the empty replacement: every
    occurrence of one of these characters is removed. *)
Definition filename_safe_company_name (company_name : str) : str :=
  filter (fun c => negb (has_char c forbidden)) company_name.

(** [s.replace(old, new)] for two single characters. *)
Definition replace_char (old new : char) (s : str) : str :=
  List.map (fun c => if char_eqb c old then new else c) s.

(** The lead objective with every space replaced by an underscore. *)
Definition filename_safe_objective (lead_objective_str : str) : str :=
  replace_char 32%N 95%N lead_objective_str.

(** The file name that [create_styled_excel] returns. *)
Definition filename (company_name lead_objective_str : str) : str :=
  filename_safe_company_name company_name ++ lit "_"
  ++ filename_safe_objective lead_objective_str ++ lit ".xlsx".

(** The options of the select box for the lead objective. *)
Definition lead_objectives : list str :=
  [lit "Demo Booking"; lit "Sales Meeting"; lit "Lead Magnet Download"].

(** Whether a string holds one of the characters of the pattern. *)
Definition has_forbidden (s : str) : bool :=
  existsb (fun c => has_char c forbidden) s.

(** The characters of a host name typed in lower case: letters and
    digits, and the dot between its labels. *)
Definition is_plain (c : char) : bool :=
  ((97 <=? c) && (c <=? 122) || (48 <=? c) && (c <=? 57))%N.

Definition is_host_char (c : char) : bool :=
  is_plain c || (c =? 46)%N.

End Workbook.

(** ** The events of a run *)

Module Plan.
Import Py Pandas World App Spec.

Unset Implicit Arguments.

(** The answer that a generation call gets, decoded. *)
Definition answer (env : Env) (l : list event) (p : prompt) : pyval :=
  match chat_create env l (Generate p) with
  | Some raw => decode_content env raw
  | None => PNone
  end.

Definition email_request (inp : Inputs) (summary : str) : request :=
  Generate (create_email_prompt summary (content_count inp)
                                (objective_link_input inp)).

Definition linkedin_request (inp : Inputs) (summary obj : str) : request :=
  Generate (create_linkedin_prompt summary (content_count inp) obj
              (fst (linkedin_link_cta inp obj))
              (snd (linkedin_link_cta inp obj))).

Definition facebook_request (inp : Inputs) (summary obj : str) : request :=
  Generate (create_facebook_prompt summary (content_count inp) obj
              (fst (facebook_link_cta inp obj))
              (snd (facebook_link_cta inp obj))).

Definition search_request (summary : str) : request :=
  Generate (create_google_search_prompt summary).

Definition display_request (summary : str) : request :=
  Generate (create_google_display_prompt summary).

(** The nine generation calls in the order of the handler. *)
Definition planned_requests (inp : Inputs) (summary : str) : list request :=
  email_request inp summary
  :: List.map (linkedin_request inp summary) objectives
  ++ List.map (facebook_request inp summary) objectives
  ++ [search_request summary; display_request summary].

(** Calls with a pause after each of them. *)
Definition calls_then_sleep (reqs : list request) : list event :=
  flat_map (fun r => [Chat r; Sleep]) reqs.

(** Calls with a pause between them. *)
Definition spaced_calls (reqs : list request) : list event :=
  removelast (calls_then_sleep reqs).

(** A piece of the script that makes the calls [reqs] in order with a
    pause after each one and ends with a value satisfying [Q], unless
    a table builder raises right after one of the calls. *)
Definition makes_calls {A : Type} (c : M A) (reqs : list request)
    (Q : A -> Prop) : Prop :=
  forall l,
    match c l with
    | (Done a, l') => l' = l ++ calls_then_sleep reqs /\ Q a
    | (Crashed, l') =>
        exists pre r post,
          reqs = pre ++ r :: post
          /\ l' = l ++ calls_then_sleep pre ++ [Chat r]
    | (Stopped _, _) => False
    end.

(** The same for a piece that does not pause after its last call. *)
Definition ends_calls {A : Type} (c : M A) (reqs : list request)
    (Q : A -> Prop) : Prop :=
  forall l,
    match c l with
    | (Done a, l') => l' = l ++ spaced_calls reqs /\ Q a
    | (Crashed, l') =>
        exists pre r post,
          reqs = pre ++ r :: post
          /\ l' = l ++ calls_then_sleep pre ++ [Chat r]
    | (Stopped _, _) => False
    end.

(** A log in which a pause follows every call but the last event. *)
Definition spaced (l : list event) : Prop :=
  forall pre r post,
    l = pre ++ Chat r :: post ->
    post = [] \/ exists post', post = Sleep :: post'.

(** The call for one source, if its text is not blank. *)
Definition summary_call (it : str * str) : list event :=
  if nonempty (strip (snd it))
  then [Chat (Summarize (fst it) (max_chars_for (snd it))
                (slice_to 40000 (snd it)))]
  else [].

(** The events of the summaries step. *)
Definition summary_events (items : list (str * str)) : list event :=
  flat_map (fun it => summary_call it ++ [Sleep]) items.

Definition is_summarize (e : event) : bool :=
  match e with
  | Chat (Summarize _ _ _) => true
  | _ => false
  end.

Definition sheet_names : list str :=
  List.map lit ["Email"; "LinkedIn"; "FaceBook"; "Google Search";
                "Google Display"]%string.

(** The link that the handler starts from for an objective, before the
    fallback. *)
Definition own_link (inp : Inputs) (obj : str) : str :=
  if str_eqb obj (lit "Demand Gen") then download_link_input inp
  else if str_eqb obj (lit "Demand Capture") then objective_link_input inp
  else learn_more_link inp.

(** The results on which the handler's test [j and key in j] raises:
    a number other than zero, and [True]. *)
Definition truthy_scalar (j : pyval) : Prop :=
  match j with
  | PBool b => b = true
  | PInt z => z <> 0%Z
  | PFloat f => float_truthy f = true
  | _ => False
  end.

(** The names of the files of a list that give a text, in order. *)
Definition named_texts (env : Env) (files : list UploadedFile)
  : list (str * str) :=
  flat_map (fun file => match file_content env file with
                        | Some t => if nonempty t then [(name file, t)]
                                    else []
                        | None => []
                        end) files.

(** The value under a key of [extracted_texts]. *)
Fixpoint text_of (k : str) (d : list (str * str)) : option str :=
  match d with
  | [] => None
  | (k', v) :: d' => if str_eqb k k' then Some v else text_of k d'
  end.

(** A string with no white space at either end. *)
Definition trimmed (s : str) : Prop :=
  isspace (hd 0%N s) = false /\ isspace (last s 0%N) = false.

(** A string of white space only. *)
Definition blank (s : str) : bool := forallb isspace s.

(** [body] stands in [content] between an opening fence with the label
    "json" in any case and a closing fence, white space apart. *)
Definition fenced_block (content body : str) : Prop :=
  exists pre label ws1 ws2 post,
    content = pre ++ fence ++ label ++ ws1 ++ body ++ ws2 ++ fence ++ post
    /\ Forall2 (fun p c => label_char p c = true) (lit "json") label
    /\ blank ws1 = true
    /\ blank ws2 = true.

(** [content] has an opening fence with the label and a fence after
    it. *)
Definition has_fences (content : str) : Prop :=
  exists pre label mid post,
    content = pre ++ fence ++ label ++ mid ++ fence ++ post
    /\ Forall2 (fun p c => label_char p c = true) (lit "json") label.

(** The texts of the shapes that have one, slide after slide. *)
Definition shape_texts (slides : list (list (option str))) : list str :=
  flat_map (fun shape => match shape with
                         | Some t => [t]
                         | None => []
                         end) (List.concat slides).

(** The lines that the PDF and the slide extractors build: every text
    followed by a line break. *)
Definition lines_of (texts : list str) : str :=
  List.concat (List.map (fun t => t ++ newline) texts).

(** *** The budget of a summarization call *)

(** The call that the summaries step owes to a source: the budget is
    3000 for a text of more than 5000 characters and 1800 otherwise,
    and the text sent is cut after 40000 characters. *)
Definition budgeted_call (it : str * str) : event :=
  Chat (Summarize (fst it)
          (if (5000 <? len_str (snd it))%Z then 3000%Z else 1800%Z)
          (slice_to 40000 (snd it))).

(** The events that the summaries step owes to the sources: the call
    of every source whose text is not blank, and a pause after every
    source. *)
Definition budgeted_events (items : list (str * str)) : list event :=
  flat_map (fun it => (if blank (snd it) then [] else [budgeted_call it])
                      ++ [Sleep]) items.

(** *** The scheme of a URL *)





(** *** The first fenced block *)

(** [s] starts with an opening fence and the label "json", in any
    case; [r] is the text after them. *)
Definition opens (s label r : str) : Prop :=
  s = fence ++ label ++ r
  /\ Forall2 (fun p c => label_char p c = true) (lit "json") label.

(** The first place of [content] with an opening fence and the label;
    [r] is the text after them. *)
Definition first_opening (content label r : str) : Prop :=
  exists pre,
    content = pre ++ fence ++ label ++ r
    /\ Forall2 (fun p c => label_char p c = true) (lit "json") label
    /\ forall p1 p2 label' r',
         pre = p1 ++ p2 -> p2 <> [] ->
         ~ opens (p2 ++ fence ++ label ++ r) label' r'.

(** The next fence of [r]: [a] is the text before it, and no fence
    starts earlier. *)
Definition next_fence (r a post : str) : Prop :=
  r = a ++ fence ++ post
  /\ forall a1 a2,
       r = a1 ++ fence ++ a2 -> List.length a <= List.length a1.

(** [body] is the first fenced block of [content]: the text from the
    first opening fence with the label to the next fence, with the
    white space around it removed. *)
Definition first_block (content body : str) : Prop :=
  exists label r a post,
    first_opening content label r
    /\ next_fence r a post
    /\ body = strip a.

(** *** The variants of the answers *)







End Plan.

(** ** A slide deck of empty text boxes *)

Module Cases.
Import Py World App.

(** A deck named "deck.pptx". *)
Definition deck : UploadedFile :=
  {| name := lit "deck.pptx"; type := ppt_type; payload := [] |}.

(** The deck has one slide with one text box, which is empty; nothing
    else can be read. *)
Definition deck_readers : Sources.Readers :=
  {| Sources.fetch := fun _ => Raises;
     Sources.PdfReader := fun _ => Raises;
     Sources.Presentation := fun _ => Returns [[Returns (Some [])]] |}.

(** A form with the deck as its only source. *)
Definition deck_inputs : Inputs :=
  {| company_url := [];
     uploaded_context_files := [deck];
     uploaded_lead_magnet := None;
     lead_objective := lit "Demo Booking";
     learn_more_link := [];
     download_link_input := [];
     objective_link_input := lit "https://example.com/book";
     content_count := 10 |}.

End Cases.

(** ** Properties *)

Module Props.
Import Py Pandas World App Script Spec.

Unset Implicit Arguments.

(** *** Strings *)

Lemma char_eqb_eq (a b : char) : char_eqb a b = true <-> a = b.
Proof. apply N.eqb_eq. Qed.

Lemma str_eqb_eq (a b : str) : str_eqb a b = true <-> a = b.
Proof.
  revert b; induction a as [|x a IH]; intros [|y b]; simpl;
    try (split; [discriminate | discriminate]); try tauto.
  rewrite andb_true_iff, char_eqb_eq, IH.
  split; [intros [-> ->]; reflexivity | intros H; inversion H; auto].
Qed.

Lemma str_eqb_refl (a : str) : str_eqb a a = true.
Proof. apply str_eqb_eq; reflexivity. Qed.

Lemma nonempty_false (s : str) : nonempty s = false <-> s = [].
Proof. unfold nonempty; destruct s; simpl; split; congruence. Qed.

Lemma nonempty_true (s : str) : nonempty s = true <-> s <> [].
Proof. unfold nonempty; destruct s; simpl; split; congruence. Qed.

(** A character that does not occur in [p] stops every match of [p]
    that would run across it. *)
Lemma startswith_sep (p a b : str) (c : char) :
  has_char c p = false ->
  startswith p (a ++ c :: b) = startswith p a.
Proof.
  revert a; induction p as [|x p IH]; intros a Hc.
  - destruct a; reflexivity.
  - simpl in Hc. apply orb_false_iff in Hc as [Hx Hp].
    destruct a as [|y a]; simpl.
    + unfold char_eqb in *. rewrite N.eqb_sym in Hx. rewrite Hx. reflexivity.
    + rewrite IH by assumption. reflexivity.
Qed.

Lemma contains_sep (p a b : str) (c : char) :
  has_char c p = false ->
  contains p (a ++ c :: b) = contains p a || contains p b.
Proof.
  intros Hc. induction a as [|y a IH]; simpl.
  - destruct p as [|x p]; simpl.
    + destruct b; reflexivity.
    + simpl in Hc. apply orb_false_iff in Hc as [Hx _].
      unfold char_eqb in *. rewrite N.eqb_sym in Hx. rewrite Hx. reflexivity.
  - pose proof (startswith_sep p (y :: a) b c Hc) as E.
    simpl app in E. rewrite E, IH, orb_assoc. reflexivity.
Qed.

Lemma contains_nil_r (p : str) : contains p [] = startswith p [].
Proof. reflexivity. Qed.

(** *** The URL normalizer *)

(** C10.  A falsy argument of [add_http] (the empty string, [None], zero,
    an empty list or dict) is returned as it is: the function neither
    raises nor adds a scheme. *)
Theorem add_http_falsy_unchanged (env : Env) (url : pyval) :
  truthy url = false -> add_http env url = Returns url.
Proof.
  intros H. unfold add_http. rewrite H. reflexivity.
Qed.

Lemma add_http_falsy_unchanged_witness :
  truthy (PStr []) = false
  /\ add_http Script.silent (PStr []) = Returns (PStr []).
Proof.
  split; [reflexivity|].
  apply (add_http_falsy_unchanged Script.silent (PStr [])). reflexivity.
Defined.



(** *** Links and button labels *)

(** C6.  For the objective "Demand Capture" the LinkedIn button label
    is "Register" when the primary lead objective is "Demo Booking" and
    "Request Demo" when it is "Sales Meeting"; the Facebook label is
    "Book Now" whatever the primary lead objective. *)
Theorem demand_capture_cta (inp : Inputs) :
  (lead_objective inp = lit "Demo Booking" ->
   snd (linkedin_link_cta inp (lit "Demand Capture")) = lit "Register")
  /\ (lead_objective inp = lit "Sales Meeting" ->
      snd (linkedin_link_cta inp (lit "Demand Capture"))
      = lit "Request Demo")
  /\ snd (facebook_link_cta inp (lit "Demand Capture")) = lit "Book Now".
Proof.
  unfold linkedin_link_cta, facebook_link_cta.
  repeat split; try (intros ->); reflexivity.
Qed.

Lemma demand_capture_cta_witness :
  snd (linkedin_link_cta (demo_inputs (lit "Demo Booking"))
         (lit "Demand Capture")) = lit "Register"
  /\ snd (linkedin_link_cta (demo_inputs (lit "Sales Meeting"))
            (lit "Demand Capture")) = lit "Request Demo".
Proof.
  split.
  - exact (proj1 (demand_capture_cta (demo_inputs (lit "Demo Booking")))
             eq_refl).
  - exact (proj1 (proj2 (demand_capture_cta
                           (demo_inputs (lit "Sales Meeting")))) eq_refl).
Defined.

(** *** The script's monad *)

Lemma bind_done (A B : Type) (c : M A) (k : A -> M B) l a l' :
  c l = (Done a, l') -> bind c k l = k a l'.
Proof. intros H. unfold bind. rewrite H. reflexivity. Qed.

Lemma bind_stopped (A B : Type) (c : M A) (k : A -> M B) l h l' :
  c l = (Stopped h, l') -> bind c k l = (Stopped h, l').
Proof. intros H. unfold bind. rewrite H. reflexivity. Qed.

Lemma bind_crashed (A B : Type) (c : M A) (k : A -> M B) l l' :
  c l = (Crashed, l') -> bind c k l = (Crashed, l').
Proof. intros H. unfold bind. rewrite H. reflexivity. Qed.

(** *** Summaries *)

Lemma blank_test (text : str) :
  strip text = [] ->
  negb (nonempty text) || negb (nonempty (strip text)) = true.
Proof.
  intros H. rewrite H. simpl. apply orb_true_r.
Qed.

Lemma strip_nil : strip [] = [].
Proof. reflexivity. Qed.

Lemma nonblank_test (text : str) :
  strip text <> [] ->
  negb (nonempty text) || negb (nonempty (strip text)) = false.
Proof.
  intros H. apply orb_false_iff. split; apply negb_false_iff;
    apply nonempty_true; [|assumption].
  intros ->. apply H. reflexivity.
Qed.

(** A blank text is answered without a call. *)
Lemma summarize_text_blank (env : Env) text max_chars source_name l :
  strip text = [] ->
  summarize_text env text max_chars source_name l
  = (Done (no_content source_name), l).
Proof.
  intros H. unfold summarize_text. rewrite (blank_test _ H). reflexivity.
Qed.

(** Any other text costs exactly one call, on its first 40000
    characters. *)
Lemma summarize_text_call (env : Env) text max_chars source_name l :
  strip text <> [] ->
  exists summary,
    summarize_text env text max_chars source_name l
    = (Done summary,
       l ++ [Chat (Summarize source_name max_chars (slice_to 40000 text))]).
Proof.
  intros H. unfold summarize_text. rewrite (nonblank_test _ H).
  unfold bind, chat.
  destruct (chat_create env l _); eexists; reflexivity.
Qed.

Lemma len_slice_to (n : Z) (text : str) :
  (0 <= n)%Z -> len_str (slice_to n text) = Z.min n (len_str text).
Proof.
  intros Hn. unfold len_str, slice_to.
  rewrite length_firstn, Nat2Z.inj_min, Z2Nat.id by assumption.
  reflexivity.
Qed.

(** *** Where the word "Error" can occur in a summary entry *)

Lemma contains_error_entry (name summary : str) :
  contains Error (summary_entry name summary)
  = contains Error name || contains Error summary.
Proof.
  change (summary_entry name summary)
    with (lit "--- Context from"
          ++ 32%N :: (name ++ 32%N :: (lit "---" ++ 10%N :: summary))).
  rewrite !contains_sep by reflexivity.
  change (contains Error (lit "--- Context from")) with false.
  change (contains Error (lit "---")) with false.
  reflexivity.
Qed.

Lemma contains_error_no_content (source_name : str) :
  contains Error (no_content source_name) = contains Error source_name.
Proof.
  unfold no_content. destruct source_name as [|c name]; [reflexivity|].
  change (nonempty (c :: name)) with true. cbv iota.
  change (lit "No content extracted from " ++ (c :: name) ++ lit ".")
    with (lit "No content extracted from"
          ++ 32%N :: ((c :: name) ++ 46%N :: [])).
  rewrite !contains_sep by reflexivity.
  change (contains Error (lit "No content extracted from")) with false.
  change (contains Error []) with false.
  rewrite orb_false_r. reflexivity.
Qed.

Lemma summary_entry_cons (name summary : str) :
  exists t, summary_entry name summary = 45%N :: t.
Proof. eexists. reflexivity. Qed.

(** One entry without "Error" at the head of the list is enough for
    the test to let the run go on. *)
Lemma summary_halts_head (e : str) (rest : list str) :
  e <> [] -> contains Error e = false -> summary_halts (e :: rest) = false.
Proof.
  intros Hne Herr. unfold summary_halts. apply orb_false_iff. split.
  - apply negb_false_iff, nonempty_true. unfold combine_summaries.
    destruct e as [|c e]; [congruence|].
    destruct rest; simpl; discriminate.
  - cbn [forallb]. fold Error. rewrite Herr. reflexivity.
Qed.

(** *** Runs without text *)

Lemma extract_files_none (env : Env) files extracted_texts :
  Forall (fun file => text_truthy (file_content env file) = false) files ->
  extract_files env files extracted_texts = extracted_texts.
Proof.
  induction 1 as [|file files Hf _ IH]; [reflexivity|].
  cbn [extract_files]. unfold text_truthy in Hf.
  destruct (file_content env file) as [t|]; [rewrite Hf|]; exact IH.
Qed.

Lemma extract_context_none (env : Env) (inp : Inputs) l :
  no_source_yields_text env inp ->
  extract_context env inp l = (Done [], l)
  \/ extract_context env inp l = (Crashed, l).
Proof.
  intros [Hurl Hfiles]. unfold extract_context.
  destruct (nonempty (company_url inp)) eqn:Hne.
  - apply nonempty_true in Hne.
    destruct (add_http env (PStr (company_url inp))) as [u|] eqn:Hadd;
      [|right; reflexivity].
    specialize (Hurl Hne u eq_refl). unfold text_truthy in Hurl.
    destruct (extract_text_from_url env u) as [t|]; [rewrite Hurl|];
      left; unfold bind, ret;
      rewrite (extract_files_none env _ [] Hfiles); reflexivity.
  - left. unfold bind, ret.
    rewrite (extract_files_none env _ [] Hfiles). reflexivity.
Qed.

Lemma validate_cases (inp : Inputs) l :
  validate inp l = (Done tt, l) \/ exists h, validate inp l = (Stopped h, l).
Proof.
  unfold validate.
  repeat match goal with
         | |- context [if ?b then _ else _] => destruct b
         end; try (left; reflexivity); right; eexists; reflexivity.
Qed.

(** C7.  When no context source yields text, the run ends before the
    summaries: it issues no call at all, in particular no generation
    call, and it does not complete. *)
Theorem no_text_no_generation (env : Env) (inp : Inputs) :
  no_source_yields_text env inp ->
  generation_calls (snd (run env inp [])) = 0
  /\ snd (run env inp []) = []
  /\ (fst (run env inp []) = Crashed
      \/ exists h, fst (run env inp []) = Stopped h).
Proof.
  intros Hno.
  assert (H : run env inp [] = (Crashed, [])
              \/ exists h, run env inp [] = (Stopped h, [])).
  { unfold run.
    destruct (validate_cases inp []) as [Hv|[h Hv]].
    - rewrite (bind_done _ _ _ _ _ _ _ Hv).
      destruct (extract_context_none env inp [] Hno) as [He|He].
      + rewrite (bind_done _ _ _ _ _ _ _ He). right. eexists. reflexivity.
      + rewrite (bind_crashed _ _ _ _ _ _ He). left. reflexivity.
    - rewrite (bind_stopped _ _ _ _ _ _ _ Hv). right. eexists. reflexivity. }
  destruct H as [H|[h H]]; rewrite H; simpl; eauto.
Qed.

Lemma no_text_no_generation_witness :
  generation_calls
    (snd (run Script.silent (demo_inputs (lit "Demo Booking")) [])) = 0.
Proof.
  refine (proj1 (no_text_no_generation Script.silent
                   (demo_inputs (lit "Demo Booking")) _)).
  split; [intros; reflexivity | constructor].
Defined.

(** *** Pieces of the script that never reach [st.stop()] *)

Lemma never_stops_ret (A : Type) (a : A) : never_stops A (ret a).
Proof. intros l h l'. discriminate. Qed.

Lemma never_stops_crash (A : Type) : never_stops A crash.
Proof. intros l h l'. discriminate. Qed.

Lemma never_stops_lift (A : Type) (r : res A) : never_stops A (lift r).
Proof. destruct r; [apply never_stops_ret | apply never_stops_crash]. Qed.

Lemma never_stops_chat (env : Env) (r : request) :
  never_stops _ (chat env r).
Proof. intros l h l'. discriminate. Qed.

Lemma never_stops_sleep : never_stops _ sleep.
Proof. intros l h l'. discriminate. Qed.

Lemma never_stops_bind (A B : Type) (c : M A) (k : A -> M B) :
  never_stops A c -> (forall a, never_stops B (k a)) ->
  never_stops B (bind c k).
Proof.
  intros Hc Hk l h l'. unfold bind.
  destruct (c l) as [[a|h0|] l1] eqn:E.
  - apply Hk.
  - exfalso. exact (Hc _ _ _ E).
  - discriminate.
Qed.

Create HintDb stops.

#[local] Hint Resolve never_stops_ret never_stops_crash never_stops_lift
  never_stops_chat never_stops_sleep : stops.

Lemma never_stops_generate (env : Env) (p : prompt) :
  never_stops _ (generate_ad_content env p).
Proof.
  unfold generate_ad_content. apply never_stops_bind; auto with stops.
  intros [raw|]; auto with stops.
Qed.

Lemma never_stops_linkedin_loop (env : Env) (inp : Inputs) summary objs :
  forall dfs, never_stops _ (linkedin_loop env inp summary objs dfs).
Proof.
  induction objs as [|obj rest IH]; intros dfs; cbn [linkedin_loop];
    [auto with stops|].
  destruct (linkedin_link_cta inp obj) as [dest_link cta].
  apply never_stops_bind; [apply never_stops_generate|]. intros j.
  apply never_stops_bind; [auto with stops|]. intros dfs'.
  apply never_stops_bind; [auto with stops|]. intros _. apply IH.
Qed.

Lemma never_stops_facebook_loop (env : Env) (inp : Inputs) summary objs :
  forall dfs, never_stops _ (facebook_loop env inp summary objs dfs).
Proof.
  induction objs as [|obj rest IH]; intros dfs; cbn [facebook_loop];
    [auto with stops|].
  destruct (facebook_link_cta inp obj) as [dest_link cta].
  apply never_stops_bind; [apply never_stops_generate|]. intros j.
  apply never_stops_bind; [auto with stops|]. intros dfs'.
  apply never_stops_bind; [auto with stops|]. intros _. apply IH.
Qed.

Lemma never_stops_generate_tables (env : Env) (inp : Inputs) summary :
  never_stops _ (generate_tables env inp summary).
Proof.
  unfold generate_tables.
  repeat (first
    [ apply never_stops_generate
    | apply never_stops_linkedin_loop
    | apply never_stops_facebook_loop
    | solve [auto with stops]
    | apply never_stops_bind; [|intro] ]).
Qed.

Lemma never_stops_extract_context (env : Env) (inp : Inputs) :
  never_stops _ (extract_context env inp).
Proof.
  unfold extract_context. apply never_stops_bind; [|auto with stops].
  destruct (nonempty (company_url inp)); [|auto with stops].
  destruct (add_http env (PStr (company_url inp))); [|auto with stops].
  destruct (extract_text_from_url env a) as [t|]; [|auto with stops].
  destruct (nonempty t); auto with stops.
Qed.

(** *** Blank texts *)

Lemma summarize_all_blank (env : Env) items :
  Forall (fun it => strip (snd it) = []) items ->
  forall summaries l,
    summarize_all env items summaries l
    = (Done (summaries ++ List.map blank_entry items),
       l ++ repeat Sleep (List.length items)).
Proof.
  induction 1 as [|[name text] rest Hb _ IH]; intros summaries l.
  - simpl. unfold ret. rewrite !app_nil_r. reflexivity.
  - cbn [summarize_all]. simpl in Hb.
    rewrite (bind_done _ _ _ _ _ _ _
               (summarize_text_blank env text _ name l Hb)).
    unfold sleep at 1. unfold bind at 1. rewrite IH.
    cbn [List.map List.length repeat]. rewrite <- !app_assoc. reflexivity.
Qed.

(** C9, as the code has it.  A blank text is answered by the fixed
    string, without a call; the string holds "Error" only if the source
    name does; and a run whose extracted texts are all blank, under
    names without "Error", is not stopped by the test on the
    summaries. *)
Theorem blank_text_summary (env : Env) :
  (forall text max_chars source_name l,
      strip text = [] ->
      summarize_text env text max_chars source_name l
      = (Done (no_content source_name), l)
      /\ (source_name <> [] ->
          no_content source_name
          = lit "No content extracted from " ++ source_name ++ lit ".")
      /\ (source_name = [] ->
          no_content source_name = lit "No content provided.")
      /\ (contains Error source_name = false ->
          contains Error (no_content source_name) = false))
  /\ (forall inp l,
        (forall l0 items l1,
            extract_context env inp l0 = (Done items, l1) ->
            Forall (fun it => strip (snd it) = []
                              /\ contains Error (fst it) = false) items) ->
        fst (run env inp l) <> Stopped SummaryFailed).
Proof.
  split.
  - intros text max_chars source_name l Hb.
    split; [apply summarize_text_blank; assumption|].
    split; [|split].
    + intros Hn. unfold no_content.
      apply nonempty_true in Hn. rewrite Hn. reflexivity.
    + intros ->. reflexivity.
    + intros He. rewrite contains_error_no_content. assumption.
  - intros inp l Hitems. unfold run.
    destruct (validate_cases inp l) as [Hv|[h Hv]].
    2:{ rewrite (bind_stopped _ _ _ _ _ _ _ Hv). simpl.
        unfold validate in Hv.
        repeat match type of Hv with
               | context [if ?b then _ else _] => destruct b
               end; inversion Hv; subst; discriminate. }
    rewrite (bind_done _ _ _ _ _ _ _ Hv).
    destruct (extract_context env inp l) as [[items|h|] l1] eqn:He.
    + rewrite (bind_done _ _ _ _ _ _ _ He).
      specialize (Hitems _ _ _ He).
      destruct items as [|it items]; [simpl; discriminate|].
      cbn [is_nil].
      assert (Hblank : Forall (fun it => strip (snd it) = []) (it :: items)).
      { eapply Forall_impl; [|exact Hitems]. intros ? [? _]. assumption. }
      rewrite (bind_done _ _ _ _ _ _ _
                 (summarize_all_blank env _ Hblank [] l1)).
      cbn [List.map app].
      inversion Hitems as [|? ? [_ Hname] _]; subst.
      rewrite summary_halts_head.
      * destruct (generate_tables env inp _ _) as [[b|h|] l2] eqn:Hg;
          simpl; try discriminate.
        exfalso. exact (never_stops_generate_tables _ _ _ _ _ _ Hg).
      * unfold blank_entry.
        destruct (summary_entry_cons (fst it) (no_content (fst it)))
          as [t ->]. discriminate.
      * unfold blank_entry. rewrite contains_error_entry.
        rewrite contains_error_no_content, Hname. reflexivity.
    + exfalso. exact (never_stops_extract_context _ _ _ _ _ He).
    + rewrite (bind_crashed _ _ _ _ _ _ He). simpl. discriminate.
Qed.

Lemma blank_text_summary_witness :
  strip [32%N] = []
  /\ summarize_text Script.silent [32%N] 1800 (lit "notes.pdf") []
     = (Done (lit "No content extracted from notes.pdf."), []).
Proof.
  split; [reflexivity|].
  exact (proj1 (proj1 (blank_text_summary Script.silent)
                  [32%N] 1800%Z (lit "notes.pdf") [] eq_refl)).
Defined.

(** C9 fails as stated: for the source name "Error.pptx" the fixed
    string of a blank text holds "Error", and the run whose one source
    is that deck is stopped by the test on the summaries. *)
Lemma blank_text_under_error_name_halts :
  strip [10%N] = []
  /\ fst (summarize_text blank_deck_env [10%N] 1800 (lit "Error.pptx") [])
     = Done (lit "No content extracted from Error.pptx.")
  /\ contains Error (lit "No content extracted from Error.pptx.") = true
  /\ run blank_deck_env blank_deck_inputs []
     = (Stopped SummaryFailed, [Sleep]).
Proof.
  repeat split; vm_compute; reflexivity.
Qed.

(** *** The test on the summaries and the source names *)

(** The test reads the labelled entry, so it sees the source name as
    well as the summary. *)
Lemma summary_halts_reads_names (entries : list (str * str)) :
  entries <> [] ->
  summary_halts (List.map (fun e => summary_entry (fst e) (snd e)) entries)
  = forallb (fun e => contains Error (fst e) || contains Error (snd e))
            entries.
Proof.
  intros Hne. unfold summary_halts.
  replace (nonempty (combine_summaries _)) with true.
  - cbn [negb orb]. fold Error.
    induction entries as [|e rest IH]; [congruence|].
    cbn [List.map forallb]. rewrite contains_error_entry.
    destruct rest as [|e' rest']; [reflexivity|].
    rewrite IH by discriminate. reflexivity.
  - symmetry. apply nonempty_true. destruct entries as [|e rest]; [congruence|].
    cbn [List.map]. unfold combine_summaries.
    destruct (summary_entry_cons (fst e) (snd e)) as [t ->].
    destruct (List.map _ rest); simpl; discriminate.
Qed.

(** C4 at the failing input.  The one source is "ErrorLog.pdf"; its
    summary arrives and holds no "Error", and the combined text is not
    empty; the run stops at the test on the summaries all the same,
    before any generation call. *)
Theorem summary_check_halts_on_source_name :
  run error_log_env error_log_inputs []
  = (Stopped SummaryFailed,
     [Chat (Summarize (lit "ErrorLog.pdf") 1800
              (lit "Acme sells widgets."));
      Sleep])
  /\ chat_create error_log_env []
       (Summarize (lit "ErrorLog.pdf") 1800 (lit "Acme sells widgets."))
     = Some (lit "Acme builds widgets for small teams.")
  /\ contains Error (lit "Acme builds widgets for small teams.") = false
  /\ nonempty (combine_summaries
                 [summary_entry (lit "ErrorLog.pdf")
                    (lit "Acme builds widgets for small teams.")]) = true
  /\ generation_calls (snd (run error_log_env error_log_inputs [])) = 0.
Proof.
  repeat split; vm_compute; reflexivity.
Qed.

(** *** The Google tables *)

Lemma dict_get_in (k : str) (d : dict) (v : pyval) :
  dict_get k d = Some v ->
  existsb (fun kv => str_eqb k (fst kv)) d = true.
Proof.
  induction d as [|[k' v'] d IH]; simpl; [discriminate|].
  destruct (str_eqb k k'); [reflexivity|]. exact IH.
Qed.

Lemma accepted_dict (k : str) (d : dict) (v : pyval) :
  dict_get k d = Some v -> accepted k (PDict d) = Returns true.
Proof.
  intros H. unfold accepted. destruct d as [|kv d]; [discriminate|].
  cbn [truthy str_in]. rewrite (dict_get_in _ _ _ H). reflexivity.
Qed.

Lemma length_pad (xs : list pyval) (n : nat) :
  List.length xs <= n ->
  List.length (xs ++ repeat PNone (n - List.length xs)) = n.
Proof.
  intros H. rewrite length_app, repeat_length. lia.
Qed.

(** C1, as the code has it.  For an accepted response whose
    "headlines" and "descriptions" are arrays, the table (Google Search
    and Google Display are built alike) has the two columns Headline and
    Description, each with as many slots as the longer array has
    elements, the shorter array being padded with [None]. *)
Theorem google_table_slots (d : dict) (hs ds : list pyval) :
  dict_get (lit "headlines") d = Some (PList hs) ->
  dict_get (lit "descriptions") d = Some (PList ds) ->
  exists df,
    google_table (PDict d) = Returns df
    /\ columns df = [LStr (lit "Headline"); LStr (lit "Description")]
    /\ slots (lit "Headline") df
       = List.map Val hs
         ++ repeat (Val PNone)
              (Nat.max (List.length hs) (List.length ds) - List.length hs)
    /\ slots (lit "Description") df
       = List.map Val ds
         ++ repeat (Val PNone)
              (Nat.max (List.length hs) (List.length ds) - List.length ds)
    /\ List.length (slots (lit "Headline") df)
       = Nat.max (List.length hs) (List.length ds)
    /\ List.length (slots (lit "Description") df)
       = Nat.max (List.length hs) (List.length ds)
    /\ nrows df = Nat.max (List.length hs) (List.length ds).
Proof.
  intros Hh Hd.
  set (n := Nat.max (List.length hs) (List.length ds)).
  assert (Lh : List.length (hs ++ repeat PNone (n - List.length hs)) = n)
    by (apply length_pad; subst n; lia).
  assert (Ld : List.length (ds ++ repeat PNone (n - List.length ds)) = n)
    by (apply length_pad; subst n; lia).
  eexists. split.
  - unfold google_table. rewrite (accepted_dict _ _ _ Hh).
    cbn [str_in]. rewrite (dict_get_in _ _ _ Hd).
    unfold google_frame. cbn [subscript]. rewrite Hh, Hd.
    cbn [len pad_none]. fold n. unfold from_two_lists.
    rewrite Lh, Ld, Nat.eqb_refl. reflexivity.
  - cbn [columns data List.map fst nrows].
    unfold slots. cbn [data column_of].
    change (label_eqb (LStr (lit "Headline")) (LStr (lit "Headline")))
      with true.
    change (label_eqb (LStr (lit "Description")) (LStr (lit "Headline")))
      with false.
    change (label_eqb (LStr (lit "Description")) (LStr (lit "Description")))
      with true.
    cbv iota.
    rewrite !map_app, !map_repeat, !length_app, !length_map, !repeat_length.
    repeat split; try reflexivity; subst n; lia.
Qed.

Lemma google_table_slots_witness :
  exists df,
    google_table short_search_response = Returns df
    /\ columns df = [LStr (lit "Headline"); LStr (lit "Description")].
Proof.
  destruct (google_table_slots
              [(lit "headlines", PList [PStr (lit "Widgets that work")]);
               (lit "descriptions",
                PList [PStr (lit "Order today.");
                       PStr (lit "Free returns.")])]
              [PStr (lit "Widgets that work")]
              [PStr (lit "Order today."); PStr (lit "Free returns.")]
              eq_refl eq_refl) as (df & H1 & H2 & _).
  exists df. split; assumption.
Defined.

(** C1 fails as stated: an accepted response with one headline and two
    descriptions gives a table of two headline slots and two
    description slots, not fifteen and four (nor five and five). *)
Lemma short_response_is_not_padded_to_fifteen :
  accepted (lit "headlines") short_search_response = Returns true
  /\ str_in (lit "descriptions") short_search_response = Returns true
  /\ exists df,
       google_table short_search_response = Returns df
       /\ slots (lit "Headline") df
          = [Val (PStr (lit "Widgets that work")); Val PNone]
       /\ List.length (slots (lit "Headline") df) = 2
       /\ List.length (slots (lit "Description") df) = 2.
Proof.
  split; [reflexivity|]. split; [reflexivity|].
  eexists. split; [vm_compute; reflexivity|].
  repeat split.
Qed.

(** *** Columns of the tables *)

Lemma uniq_in (A : Type) (eqb : A -> A -> bool) :
  (forall a b, eqb a b = true <-> a = b) ->
  forall l seen x, In x (uniq eqb seen l) <-> In x seen \/ In x l.
Proof.
  intros Heq. induction l as [|y l IH]; intros seen x; cbn [uniq].
  - simpl. tauto.
  - destruct (existsb (eqb y) seen) eqn:E.
    + rewrite IH. simpl. split; [tauto|].
      intros [H|[->|H]]; auto. left.
      apply existsb_exists in E as (z & Hz & Hyz).
      apply Heq in Hyz. subst. assumption.
    + rewrite IH, in_app_iff. simpl. tauto.
Qed.

Lemma record_columns_in (recs : list dict) (k : str) :
  In k (record_columns recs)
  <-> exists r, In r recs /\ In k (List.map fst r).
Proof.
  unfold record_columns. rewrite (uniq_in _ _ str_eqb_eq).
  rewrite in_concat. simpl. split.
  - intros [[]|(ks & Hks & Hk)].
    apply in_map_iff in Hks as (r & <- & Hr). eauto.
  - intros (r & Hr & Hk). right. exists (List.map fst r).
    split; [apply in_map; assumption | assumption].
Qed.

Lemma columns_from_records (recs : list dict) :
  columns (from_records recs) = List.map LStr (record_columns recs).
Proof.
  unfold columns, from_records. cbn [data].
  rewrite map_map. reflexivity.
Qed.


(** *** Generator results that carry the keys of the channel *)


Lemma all_dicts_cons (x : pyval) (l : list pyval) (recs : list dict) :
  all_dicts (x :: l) = Some recs -> recs <> [].
Proof.
  simpl. destruct x; try discriminate.
  destruct (all_dicts l); [|discriminate]. intros [= <-]. discriminate.
Qed.



(** *** The fenced block *)

Lemma search_fence_unfold (s : str) :
  search_fence s
  = match match_here s with
    | Some g => Some g
    | None => match s with
              | [] => None
              | _ :: s' => search_fence s'
              end
    end.
Proof. destruct s; reflexivity. Qed.

Lemma lazy_group_unfold (s acc : str) :
  lazy_group s acc
  = if closes s then Some (rev acc)
    else match s with
         | [] => None
         | c :: s' => lazy_group s' (c :: acc)
         end.
Proof. destruct s; reflexivity. Qed.

Lemma greedy_spaces_found (k : nat) (s g : str) :
  lazy_group (skipn k s) [] = Some g -> greedy_spaces k s = Some g.
Proof. intros H. destruct k; cbn [greedy_spaces]; rewrite H; reflexivity. Qed.

Lemma lstrip_spaces (ws rest : str) :
  forallb isspace ws = true ->
  lstrip_by isspace (ws ++ rest) = lstrip_by isspace rest.
Proof.
  induction ws as [|c ws IH]; intros H; [reflexivity|].
  simpl in H. apply andb_true_iff in H as [Hc Hws].
  cbn [app lstrip_by]. rewrite Hc. exact (IH Hws).
Qed.

Lemma label_prefix_app (p label rest : str) :
  Forall2 (fun p c => label_char p c = true) p label ->
  label_prefix p (label ++ rest) = Some rest.
Proof.
  induction 1 as [|x y p label Hxy _ IH].
  - destruct rest; reflexivity.
  - cbn [app label_prefix]. rewrite Hxy. exact IH.
Qed.

(** *** The generator call *)

(** C3 fails as stated: the response holds a fenced block labelled
    json whose content, an empty object, decodes; the response itself
    does not decode; and the call returns [None], because only the
    first block, which is empty, is tried. *)
Lemma second_fenced_block_is_not_tried :
  two_block_response
  = lit "```json``` " ++ (lit "```json" ++ lit "{}" ++ lit "```")
  /\ Json.loads (lit "{}") = Json.Parsed (PDict [])
  /\ Json.loads (strip two_block_response) = Json.DecodeError
  /\ search_fence (strip two_block_response) = Some []
  /\ Json.loads [] = Json.DecodeError
  /\ generate_ad_content two_block_env (GoogleSearchPrompt []) []
     = (Done PNone, [Chat (Generate (GoogleSearchPrompt []))])
  /\ decode_content Script.silent fenced_response = PDict [].
Proof.
  repeat split; vm_compute; reflexivity.
Qed.

End Props.

(** ** Further properties *)

Module Further.
Import Py Pandas World App Script Spec Plan Props.

Unset Implicit Arguments.

(** *** White space at the ends of a string *)

Lemma lstrip_nil_iff (t : str) :
  lstrip_by isspace t = [] <-> blank t = true.
Proof.
  induction t as [|c t IH]; simpl.
  - split; reflexivity.
  - destruct (isspace c); simpl; [exact IH | split; discriminate].
Qed.

Lemma lstrip_head (t u : str) (c : char) :
  lstrip_by isspace t = c :: u -> isspace c = false.
Proof.
  induction t as [|x t IH]; simpl; [discriminate |].
  destruct (isspace x) eqn:E; [exact IH |].
  intros H. inversion H; subst. exact E.
Qed.

Lemma lstrip_suffix (t : str) :
  exists sp, t = sp ++ lstrip_by isspace t /\ blank sp = true.
Proof.
  induction t as [|x t [sp [H1 H2]]]; simpl.
  - exists []. split; reflexivity.
  - destruct (isspace x) eqn:E.
    + exists (x :: sp). simpl. rewrite E, H2. split; [f_equal; exact H1 | reflexivity].
    + exists []. split; reflexivity.
Qed.

Lemma lstrip_fixed (s : str) :
  isspace (hd 0%N s) = false -> lstrip_by isspace s = s.
Proof. destruct s as [|c s]; simpl; [reflexivity |]. intros ->. reflexivity. Qed.

Lemma blank_rev (s : str) : blank (rev s) = blank s.
Proof.
  unfold blank. apply eq_true_iff_eq. rewrite !forallb_forall.
  split; intros H x Hx; apply H.
  - apply (proj1 (in_rev s x)). exact Hx.
  - apply (proj2 (in_rev s x)). exact Hx.
Qed.

Lemma blank_app (a b : str) : blank (a ++ b) = blank a && blank b.
Proof. apply forallb_app. Qed.

Lemma hd_rev {A : Type} (s : list A) (d : A) : hd d (rev s) = last s d.
Proof.
  induction s as [|c s IH] using rev_ind; [reflexivity |].
  rewrite rev_app_distr, last_last. reflexivity.
Qed.

Lemma hd_app {A : Type} (a b : list A) (d : A) :
  a <> [] -> hd d (a ++ b) = hd d a.
Proof. destruct a; [congruence | reflexivity]. Qed.

Lemma last_app_r {A : Type} (a b : list A) (d : A) :
  b <> [] -> last (a ++ b) d = last b d.
Proof.
  intros Hb. induction a as [|x a IH]; [reflexivity |].
  simpl app. destruct (a ++ b) eqn:E.
  - destruct a; destruct b; simpl in E; congruence.
  - simpl. simpl in IH. exact IH.
Qed.

Lemma strip_blank (s : str) : strip s = [] <-> blank s = true.
Proof.
  unfold strip, rstrip_by. split.
  - intros H.
    assert (H1 : lstrip_by isspace (rev (lstrip_by isspace s)) = []).
    { apply (f_equal (@rev char)) in H. rewrite rev_involutive in H. exact H. }
    apply lstrip_nil_iff in H1. rewrite blank_rev in H1.
    destruct (lstrip_by isspace s) as [|c u] eqn:E.
    + apply lstrip_nil_iff. exact E.
    + apply lstrip_head in E. simpl in H1. rewrite E in H1. discriminate.
  - intros H. apply lstrip_nil_iff in H. rewrite H. reflexivity.
Qed.

Lemma strip_fixed (s : str) : trimmed s -> strip s = s.
Proof.
  intros [H1 H2]. unfold strip, rstrip_by.
  rewrite (lstrip_fixed s H1).
  rewrite lstrip_fixed; [apply rev_involutive |].
  rewrite hd_rev. exact H2.
Qed.

Lemma strip_trimmed (s : str) : strip s <> [] -> trimmed (strip s).
Proof.
  unfold strip, rstrip_by. intros Hne.
  remember (lstrip_by isspace s) as u eqn:Eu.
  destruct (lstrip_suffix (rev u)) as [sp [Hsp Hb]].
  remember (lstrip_by isspace (rev u)) as w eqn:Ew.
  assert (Hw : w <> []). { intros E. apply Hne. rewrite E. reflexivity. }
  assert (Hu : u = rev w ++ rev sp).
  { rewrite <- rev_app_distr, <- Hsp, rev_involutive. reflexivity. }
  assert (Hrw : rev w <> []).
  { intros E. apply Hw. apply (f_equal (@rev char)) in E.
    rewrite rev_involutive in E. exact E. }
  split.
  - match goal with
    | |- isspace ?x = false =>
        replace x with (hd 0%N u)
          by (rewrite Hu; apply hd_app; exact Hrw)
    end.
    destruct u as [|c u'].
    + destruct (rev w); [congruence | discriminate].
    + simpl. apply (lstrip_head s u' c). symmetry. exact Eu.
  - rewrite <- hd_rev, rev_involutive.
    destruct w as [|c w']; [congruence |].
    simpl. apply (lstrip_head (rev u) w' c). symmetry. exact Ew.
Qed.

Lemma join_trimmed (sep : str) (parts : list str) :
  parts <> [] ->
  Forall (fun p => p <> [] /\ trimmed p) parts ->
  join sep parts <> [] /\ trimmed (join sep parts).
Proof.
  induction parts as [|p ps IH]; [congruence |].
  intros _ HF. inversion HF as [|? ? [Hp [Hh Hl]] HF']; subst.
  destruct ps as [|q qs].
  - simpl. split; [exact Hp | split; assumption].
  - destruct (IH ltac:(discriminate) HF') as [Hj [Hjh Hjl]].
    change (join sep (p :: q :: qs)) with (p ++ sep ++ join sep (q :: qs)).
    split; [destruct p; [congruence | discriminate] |].
    split.
    + rewrite hd_app by exact Hp. exact Hh.
    + rewrite app_assoc, last_app_r by exact Hj. exact Hjl.
Qed.

Lemma join_nil_inv (sep : str) (parts : list str) :
  Forall (fun p => p <> []) parts -> join sep parts = [] -> parts = [].
Proof.
  destruct parts as [|p ps]; [reflexivity |].
  intros HF H. inversion HF as [|? ? Hp _]; subst.
  destruct ps; simpl in H; [congruence |].
  destruct p; [congruence | discriminate].
Qed.

(** *** The extractors *)

Lemma stripped_strings_spec (strings : list str) :
  Forall (fun p => p <> [] /\ trimmed p) (Sources.stripped_strings strings).
Proof.
  unfold Sources.stripped_strings. apply Forall_forall. intros p Hp.
  apply filter_In in Hp. destruct Hp as [Hin Hne].
  apply nonempty_true in Hne. apply in_map_iff in Hin.
  destruct Hin as [s [<- _]]. split; [exact Hne | apply strip_trimmed; exact Hne].
Qed.

Lemma stripped_strings_nil (strings : list str) :
  Sources.stripped_strings strings = []
  <-> Forall (fun s => strip s = []) strings.
Proof.
  unfold Sources.stripped_strings. induction strings as [|s ss IH]; simpl.
  - split; [constructor | reflexivity].
  - destruct (nonempty (strip s)) eqn:E.
    + split; [discriminate |]. intros H. inversion H; subst.
      apply nonempty_true in E. congruence.
    + apply nonempty_false in E. rewrite IH. split.
      * intros H. constructor; assumption.
      * intros H. inversion H; assumption.
Qed.

(** X1.  The text of a web page is the stripped, non-empty strings of
    the page joined by single spaces.  It is empty exactly when every
    string of the page is blank; otherwise it has no white space at
    either end, so a website that yields text is never answered by the
    summarizer without a call: the call is made, on the first 40000
    characters. *)
Theorem page_text_is_trimmed (strings : list str) :
  Sources.extract_text_from_url (Returns strings)
  = Some (Sources.page_text strings)
  /\ (Sources.page_text strings = []
      <-> Forall (fun s => strip s = []) strings)
  /\ strip (Sources.page_text strings) = Sources.page_text strings
  /\ (Sources.page_text strings <> [] ->
      forall env max_chars source_name l,
        snd (summarize_text env (Sources.page_text strings) max_chars
               source_name l)
        = l ++ [Chat (Summarize source_name max_chars
                        (slice_to 40000 (Sources.page_text strings)))]).
Proof.
  pose proof (stripped_strings_spec strings) as HF.
  assert (Hnil : Sources.page_text strings = []
                 <-> Forall (fun s => strip s = []) strings).
  { rewrite <- stripped_strings_nil. unfold Sources.page_text. split.
    - apply join_nil_inv. eapply Forall_impl; [| exact HF].
      intros p [Hp _]. exact Hp.
    - intros ->. reflexivity. }
  assert (Hfix : strip (Sources.page_text strings) = Sources.page_text strings).
  { unfold Sources.page_text in *.
    destruct (Sources.stripped_strings strings) as [|p ps] eqn:E.
    - reflexivity.
    - apply strip_fixed. apply (join_trimmed _ (p :: ps)); [discriminate | exact HF]. }
  split; [reflexivity |]. split; [exact Hnil |]. split; [exact Hfix |].
  intros Hne env max_chars source_name l.
  destruct (summarize_text_call env (Sources.page_text strings) max_chars
              source_name l) as [summary Hs].
  - rewrite Hfix. exact Hne.
  - rewrite Hs. reflexivity.
Qed.

Lemma pdf_pages_texts (texts : list str) :
  forall text,
    Sources.pdf_pages (List.map (@Returns str) texts) text
    = Some (text ++ lines_of (filter nonempty texts)).
Proof.
  induction texts as [|t ts IH]; intros text; simpl.
  - rewrite app_nil_r. reflexivity.
  - destruct (nonempty t); rewrite IH; [| reflexivity].
    unfold lines_of. simpl. rewrite <- !app_assoc. reflexivity.
Qed.

Lemma pdf_pages_raises (before : list (res str)) (after : list (res str)) :
  forall text, Sources.pdf_pages (before ++ Raises :: after) text = None.
Proof.
  induction before as [|[t|] bs IH]; intros text; simpl; try reflexivity.
  destruct (nonempty t); apply IH.
Qed.

Lemma lines_of_nil (texts : list str) : lines_of texts = [] <-> texts = [].
Proof.
  destruct texts as [|t ts]; [split; reflexivity |].
  split; [| discriminate]. unfold lines_of. simpl. fold newline.
  intros H. destruct t; discriminate.
Qed.

(** X2.  The text of a PDF is the non-empty page texts in page order,
    each followed by a line break.  It is empty, so that the handler
    drops the file, exactly when no page has any text; and one page
    whose extraction raises loses the whole file, whatever the other
    pages hold. *)
Theorem pdf_text_of_pages (texts : list str) :
  Sources.extract_text_from_pdf (Returns (List.map (@Returns str) texts))
  = Some (lines_of (filter nonempty texts))
  /\ (text_truthy
        (Sources.extract_text_from_pdf
           (Returns (List.map (@Returns str) texts))) = false
      <-> Forall (fun t => t = []) texts)
  /\ (forall before after,
        Sources.extract_text_from_pdf (Returns (before ++ Raises :: after))
        = None)
  /\ Sources.extract_text_from_pdf Raises = None.
Proof.
  assert (H : Sources.extract_text_from_pdf
                (Returns (List.map (@Returns str) texts))
              = Some (lines_of (filter nonempty texts))).
  { unfold Sources.extract_text_from_pdf. rewrite pdf_pages_texts. reflexivity. }
  split; [exact H |]. split; [| split; [| reflexivity]].
  - rewrite H. simpl. rewrite nonempty_false, lines_of_nil. clear H.
    induction texts as [|t ts IH]; simpl.
    + split; [constructor | reflexivity].
    + destruct (nonempty t) eqn:E.
      * split; [discriminate |]. intros HF. inversion HF; subst.
        discriminate.
      * apply nonempty_false in E. rewrite IH. split.
        -- intros HF. constructor; assumption.
        -- intros HF. inversion HF; assumption.
  - intros before after. apply pdf_pages_raises.
Qed.

Lemma ppt_shapes_texts (shapes : list (option str)) :
  forall text,
    Sources.ppt_shapes (List.map (@Returns (option str)) shapes) text
    = Some (text ++ lines_of (shape_texts [shapes])).
Proof.
  unfold shape_texts. simpl. rewrite app_nil_r.
  induction shapes as [|[t|] ss IH]; intros text; simpl.
  - rewrite app_nil_r. reflexivity.
  - rewrite IH. unfold lines_of. simpl. rewrite <- !app_assoc. reflexivity.
  - apply IH.
Qed.

Lemma shape_texts_cons (shapes : list (option str)) slides :
  shape_texts (shapes :: slides) = shape_texts [shapes] ++ shape_texts slides.
Proof.
  unfold shape_texts. simpl. rewrite app_nil_r. apply flat_map_app.
Qed.

Lemma lines_of_app (a b : list str) :
  lines_of (a ++ b) = lines_of a ++ lines_of b.
Proof. unfold lines_of. rewrite map_app, concat_app. reflexivity. Qed.

Lemma ppt_slides_texts (slides : list (list (option str))) :
  forall text,
    Sources.ppt_slides
      (List.map (List.map (@Returns (option str))) slides) text
    = Some (text ++ lines_of (shape_texts slides)).
Proof.
  induction slides as [|shapes rest IH]; intros text; simpl.
  - rewrite app_nil_r. reflexivity.
  - rewrite ppt_shapes_texts, IH, (shape_texts_cons shapes rest), lines_of_app.
    rewrite <- app_assoc. reflexivity.
Qed.

Lemma blank_lines_of (texts : list str) :
  Forall (fun t => strip t = []) texts -> blank (lines_of texts) = true.
Proof.
  induction 1 as [|t ts Ht _ IH]; [reflexivity |].
  unfold lines_of in *. simpl. rewrite !blank_app, IH.
  apply strip_blank in Ht. rewrite Ht. reflexivity.
Qed.

(** X3.  The text of a slide deck is the text of every shape that has
    one, in order, each followed by a line break.  It is non-empty as
    soon as one shape has a text attribute, even an empty one; so a
    deck whose text boxes are all blank is kept as a source, and the
    summarizer answers for it without a call. *)
Theorem ppt_text_of_shapes (slides : list (list (option str))) :
  Sources.extract_text_from_ppt
    (Returns (List.map (List.map (@Returns (option str))) slides))
  = Some (lines_of (shape_texts slides))
  /\ (nonempty (lines_of (shape_texts slides)) = true
      <-> exists t, In (Some t) (List.concat slides))
  /\ (Forall (fun t => strip t = []) (shape_texts slides) ->
      forall env max_chars source_name l,
        summarize_text env (lines_of (shape_texts slides)) max_chars
          source_name l
        = (Done (no_content source_name), l)).
Proof.
  split; [| split].
  - unfold Sources.extract_text_from_ppt. rewrite ppt_slides_texts. reflexivity.
  - rewrite nonempty_true, lines_of_nil. unfold shape_texts.
    induction (List.concat slides) as [|[t|] ss IH]; simpl.
    + split; [congruence | intros [t []]].
    + split; [intros _; exists t; left; reflexivity | discriminate].
    + rewrite IH. split; intros [t H]; exists t; [right; exact H |].
      destruct H as [H | H]; [discriminate | exact H].
  - intros HF env max_chars source_name l.
    apply summarize_text_blank. apply strip_blank. apply blank_lines_of.
    exact HF.
Qed.

(** *** The dictionary of the extracted texts *)

Lemma extract_files_fold (env : Env) (files : list UploadedFile) :
  forall extracted_texts,
    extract_files env files extracted_texts
    = fold_left (fun d kv => dict_set (fst kv) (snd kv) d)
                (named_texts env files) extracted_texts.
Proof.
  unfold named_texts.
  induction files as [|file rest IH]; intros d; simpl; [reflexivity |].
  destruct (file_content env file) as [t|]; [| apply IH].
  destruct (nonempty t); simpl; apply IH.
Qed.

Lemma keys_dict_set (k v : str) (d : list (str * str)) :
  List.map fst (dict_set k v d)
  = if existsb (str_eqb k) (List.map fst d) then List.map fst d
    else List.map fst d ++ [k].
Proof.
  induction d as [|[k' v'] d IH]; simpl; [reflexivity |].
  destruct (str_eqb k k') eqn:E; simpl.
  - apply str_eqb_eq in E. subst. reflexivity.
  - rewrite IH. destruct (existsb (str_eqb k) (List.map fst d)); reflexivity.
Qed.

Lemma keys_fold (kvs : list (str * str)) :
  forall d,
    List.map fst (fold_left (fun d kv => dict_set (fst kv) (snd kv) d) kvs d)
    = uniq str_eqb (List.map fst d) (List.map fst kvs).
Proof.
  induction kvs as [|[k v] kvs IH]; intros d; simpl; [reflexivity |].
  rewrite IH, keys_dict_set.
  destruct (existsb (str_eqb k) (List.map fst d)); reflexivity.
Qed.

Lemma existsb_str_eqb (k : str) (l : list str) :
  existsb (str_eqb k) l = true <-> In k l.
Proof.
  rewrite existsb_exists. split.
  - intros [x [Hin E]]. apply str_eqb_eq in E. subst. exact Hin.
  - intros H. exists k. split; [exact H | apply str_eqb_refl].
Qed.

Lemma uniq_NoDup (l : list str) :
  forall seen, NoDup seen -> NoDup (uniq str_eqb seen l).
Proof.
  induction l as [|x l IH]; intros seen H; simpl; [exact H |].
  destruct (existsb (str_eqb x) seen) eqn:E; [apply IH; exact H |].
  apply IH. apply NoDup_rev in H. rewrite <- (rev_involutive (seen ++ [x])).
  apply NoDup_rev. rewrite rev_app_distr. simpl. constructor; [| exact H].
  intros Hin. apply in_rev in Hin. apply existsb_str_eqb in Hin. congruence.
Qed.

Lemma text_of_dict_set (k k' v : str) (d : list (str * str)) :
  text_of k (dict_set k' v d)
  = if str_eqb k k' then Some v else text_of k d.
Proof.
  induction d as [|[k0 v0] d IH]; simpl; [reflexivity |].
  destruct (str_eqb k' k0) eqn:E; simpl.
  - apply str_eqb_eq in E. subst. destruct (str_eqb k k0); reflexivity.
  - rewrite IH. destruct (str_eqb k k') eqn:E'; [| reflexivity].
    apply str_eqb_eq in E'. subst. rewrite E. reflexivity.
Qed.

Lemma text_of_app (k : str) (a b : list (str * str)) :
  text_of k (a ++ b)
  = match text_of k a with
    | Some t => Some t
    | None => text_of k b
    end.
Proof.
  induction a as [|[k0 v0] a IH]; simpl; [reflexivity |].
  destruct (str_eqb k k0); [reflexivity | exact IH].
Qed.

Lemma text_of_fold (k : str) (kvs : list (str * str)) :
  forall d,
    text_of k (fold_left (fun d kv => dict_set (fst kv) (snd kv) d) kvs d)
    = match text_of k (rev kvs) with
      | Some t => Some t
      | None => text_of k d
      end.
Proof.
  induction kvs as [|[k' v] kvs IH]; intros d; simpl; [reflexivity |].
  rewrite IH, text_of_app, text_of_dict_set. simpl.
  destruct (text_of k (rev kvs)); [reflexivity |].
  destruct (str_eqb k k'); reflexivity.
Qed.

Lemma values_fold (P : str -> Prop) (kvs : list (str * str)) :
  Forall (fun kv => P (snd kv)) kvs ->
  forall d,
    Forall (fun kv => P (snd kv)) d ->
    Forall (fun kv => P (snd kv))
           (fold_left (fun d kv => dict_set (fst kv) (snd kv) d) kvs d).
Proof.
  induction 1 as [|[k v] kvs Hk _ IH]; intros d Hd; simpl; [exact Hd |].
  apply IH. clear IH. induction Hd as [|[k0 v0] d H0 Hd IHd]; simpl.
  - constructor; [exact Hk | constructor].
  - destruct (str_eqb k k0); constructor; assumption.
Qed.

Lemma named_texts_nonempty (env : Env) (files : list UploadedFile) :
  Forall (fun kv => snd kv <> []) (named_texts env files).
Proof.
  unfold named_texts. apply Forall_forall. intros kv Hin.
  apply in_flat_map in Hin. destruct Hin as [file [_ Hin]].
  destruct (file_content env file) as [t|]; [| contradiction].
  destruct (nonempty t) eqn:E; [| contradiction].
  destruct Hin as [<- | []]. apply nonempty_true. exact E.
Qed.

(** X4.  The dictionary [extracted_texts] after the loop over the
    uploaded files: its keys are the keys it had, followed by the names
    of the files that gave a text, each name once in order of first
    appearance; under a name stands the text of the last file of that
    name (a file named like an earlier source, the website included,
    replaces its text in place); distinct keys stay distinct and no
    text is empty. *)
Theorem extracted_texts_by_name (env : Env) (files : list UploadedFile)
    (extracted_texts : list (str * str)) :
  List.map fst (extract_files env files extracted_texts)
  = uniq str_eqb (List.map fst extracted_texts)
         (List.map fst (named_texts env files))
  /\ (forall k,
        text_of k (extract_files env files extracted_texts)
        = match text_of k (rev (named_texts env files)) with
          | Some t => Some t
          | None => text_of k extracted_texts
          end)
  /\ (NoDup (List.map fst extracted_texts) ->
      NoDup (List.map fst (extract_files env files extracted_texts)))
  /\ (Forall (fun kv => snd kv <> []) extracted_texts ->
      Forall (fun kv => snd kv <> [])
             (extract_files env files extracted_texts)).
Proof.
  rewrite extract_files_fold. split; [apply keys_fold |].
  split; [intros k; apply text_of_fold |]. split.
  - intros H. rewrite keys_fold. apply uniq_NoDup. exact H.
  - apply (values_fold (fun t => t <> [])). apply named_texts_nonempty.
Qed.

(** *** The tests on the generator's result *)

Lemma accepted_raises (key : str) (j : pyval) :
  accepted key j = Raises <-> truthy_scalar j.
Proof.
  unfold accepted.
  destruct j as [|b|z|f|s|l|d]; simpl;
    try (destruct (truthy _); split; [discriminate | contradiction]).
  - split; [discriminate | contradiction].
  - destruct b; split; congruence.
  - destruct (Z.eqb_spec z 0); simpl; split; congruence.
  - destruct (float_truthy f); split; congruence.
  - destruct (negb (str_eqb s [])); split; (discriminate || contradiction).
  - destruct l; split; (discriminate || contradiction).
  - destruct d; split; (discriminate || contradiction).
Qed.

Lemma email_table_raises (env : Env) (j : pyval) :
  email_table env j = Raises <-> accepted (lit "emails") j = Raises.
Proof.
  unfold email_table.
  destruct (accepted (lit "emails") j) as [[|]|];
    [destruct (frame_of_key env (lit "emails") j) | |];
    split; congruence.
Qed.

Lemma collect_frame_raises (env : Env) (key : str) (j : pyval) dfs :
  collect_frame env key j dfs = Raises <-> accepted key j = Raises.
Proof.
  unfold collect_frame.
  destruct (accepted key j) as [[|]|];
    [destruct (frame_of_key env key j) | |];
    split; congruence.
Qed.

Lemma google_table_raises (j : pyval) :
  google_table j = Raises <-> accepted (lit "headlines") j = Raises.
Proof.
  unfold google_table.
  destruct (accepted (lit "headlines") j) as [[|]|] eqn:E;
    [| split; congruence | split; congruence].
  destruct j as [|b|z|f|s|l|d]; simpl;
    try (unfold accepted in E; simpl in E;
         repeat match type of E with
                | (if ?c then _ else _) = _ => destruct c
                end; discriminate).
  - destruct (contains (lit "descriptions") s);
      [destruct (google_frame (PStr s)) |]; split; congruence.
  - destruct (existsb _ l); [destruct (google_frame (PList l)) |];
      split; congruence.
  - destruct (existsb _ d); [destruct (google_frame (PDict d)) |];
      split; congruence.
Qed.

Lemma frame_of_key_not_dict (env : Env) (key : str) (j : pyval) :
  (forall d, j <> PDict d) -> frame_of_key env key j = None.
Proof.
  intros H. unfold frame_of_key. destruct j; try reflexivity.
  exfalso. eapply H. reflexivity.
Qed.

Lemma google_frame_not_dict (j : pyval) :
  (forall d, j <> PDict d) -> google_frame j = None.
Proof.
  intros H. unfold google_frame. destruct j; try reflexivity.
  exfalso. eapply H. reflexivity.
Qed.

(** X5.  The tests [j and key in j] of the handler stand outside every
    [try]: building a table raises exactly when the generator's result
    is a number other than zero or [True].  On every other result that
    is not an object ([None], a string, a list) the Email and the
    Google tables are empty and the list of frames of a LinkedIn or
    Facebook round is left as it was. *)
Theorem tables_raise_on_truthy_scalars (env : Env) (j : pyval) :
  (email_table env j = Raises <-> truthy_scalar j)
  /\ (forall key dfs,
        collect_frame env key j dfs = Raises <-> truthy_scalar j)
  /\ (google_table j = Raises <-> truthy_scalar j)
  /\ (~ truthy_scalar j ->
      (forall d, j <> PDict d) ->
      email_table env j = Returns empty_frame
      /\ (forall key dfs, collect_frame env key j dfs = Returns dfs)
      /\ google_table j = Returns empty_frame).
Proof.
  split; [rewrite email_table_raises; apply accepted_raises |].
  split; [intros key dfs; rewrite collect_frame_raises; apply accepted_raises |].
  split; [rewrite google_table_raises; apply accepted_raises |].
  intros Hs Hd.
  assert (Hk : forall key, accepted key j <> Raises).
  { intros key E. apply Hs. apply (accepted_raises key). exact E. }
  split; [| split].
  - unfold email_table. rewrite (frame_of_key_not_dict env _ j Hd).
    destruct (accepted (lit "emails") j) as [[|]|] eqn:E; try reflexivity.
    exfalso. exact (Hk _ E).
  - intros key dfs. unfold collect_frame.
    rewrite (frame_of_key_not_dict env _ j Hd).
    destruct (accepted key j) as [[|]|] eqn:E; try reflexivity.
    exfalso. exact (Hk _ E).
  - pose proof (proj1 (google_table_raises j)) as Hg.
    unfold google_table in *. rewrite (google_frame_not_dict j Hd) in *.
    destruct (accepted (lit "headlines") j) as [[|]|] eqn:E; try reflexivity.
    + destruct (str_in (lit "descriptions") j) as [[|]|]; try reflexivity.
      specialize (Hg eq_refl). discriminate.
    + exfalso. exact (Hk _ E).
Qed.

Lemma tables_raise_on_truthy_scalars_witness :
  ~ truthy_scalar (PStr (lit "emails"))
  /\ email_table Script.silent (PStr (lit "emails")) = Returns empty_frame.
Proof.
  split; [intros H; exact H |].
  apply (tables_raise_on_truthy_scalars Script.silent (PStr (lit "emails"))).
  - intros H. exact H.
  - intros d. discriminate.
Defined.

(** X6.  A Google table has rows only when the result holds an array
    under "headlines" and an array under "descriptions"; for every
    other object (a key missing, a string, a number or an object in
    the place of an array) the table is empty and nothing is raised. *)
Theorem google_table_needs_two_arrays (d : dict) :
  (exists hs ds,
      dict_get (lit "headlines") d = Some (PList hs)
      /\ dict_get (lit "descriptions") d = Some (PList ds))
  \/ google_table (PDict d) = Returns empty_frame.
Proof.
  unfold google_table, accepted.
  destruct (truthy (PDict d)); [| right; reflexivity].
  unfold str_in.
  destruct (existsb (fun kv => str_eqb (lit "headlines") (fst kv)) d);
    [| right; reflexivity].
  destruct (existsb (fun kv => str_eqb (lit "descriptions") (fst kv)) d);
    [| right; reflexivity].
  unfold google_frame, subscript.
  destruct (dict_get (lit "headlines") d) as [hs|]; [| right; reflexivity].
  destruct (dict_get (lit "descriptions") d) as [ds|];
    [| right; reflexivity].
  destruct hs as [| | | | |hs|]; destruct ds as [| | | | |ds|];
    try (right; reflexivity);
    try (right; simpl; destruct (len _); reflexivity).
  left. exists hs, ds. split; reflexivity.
Qed.

(** *** Links *)

Lemma fallback_link_nil (inp : Inputs) (dest_link : str) :
  fallback_link inp dest_link = []
  <-> dest_link = [] /\ learn_more_link inp = [] /\ company_url inp = [].
Proof.
  unfold fallback_link.
  destruct (nonempty dest_link) eqn:E1; simpl.
  - apply nonempty_true in E1. split; [congruence | intros [H _]; congruence].
  - apply nonempty_false in E1.
    destruct (nonempty (learn_more_link inp)) eqn:E2.
    + apply nonempty_true in E2. split; [congruence | intros [_ [H _]]; congruence].
    + apply nonempty_false in E2. split; [auto | intros [_ [_ H]]; exact H].
Qed.

Lemma linkedin_dest (inp : Inputs) (obj : str) :
  fst (linkedin_link_cta inp obj) = fallback_link inp (own_link inp obj).
Proof.
  unfold linkedin_link_cta, own_link.
  destruct (str_eqb obj (lit "Demand Gen")); [reflexivity |].
  destruct (str_eqb obj (lit "Demand Capture")); reflexivity.
Qed.

Lemma facebook_dest (inp : Inputs) (obj : str) :
  fst (facebook_link_cta inp obj) = fallback_link inp (own_link inp obj).
Proof.
  unfold facebook_link_cta, own_link.
  destruct (str_eqb obj (lit "Demand Gen")); [reflexivity |].
  destruct (str_eqb obj (lit "Demand Capture")); reflexivity.
Qed.

(** X7.  For every objective the LinkedIn and the Facebook rounds send
    the same destination: the objective's own link when it is given,
    else the learn-more link when that is given, else the website URL.
    The destination is empty only when all three are empty; the button
    labels of the two channels differ for Demand Capture only. *)
Theorem destination_falls_back (inp : Inputs) (obj : str) :
  fst (linkedin_link_cta inp obj) = fst (facebook_link_cta inp obj)
  /\ (own_link inp obj <> [] ->
      fst (linkedin_link_cta inp obj) = own_link inp obj)
  /\ (own_link inp obj = [] -> learn_more_link inp <> [] ->
      fst (linkedin_link_cta inp obj) = learn_more_link inp)
  /\ (own_link inp obj = [] -> learn_more_link inp = [] ->
      fst (linkedin_link_cta inp obj) = company_url inp)
  /\ (fst (linkedin_link_cta inp obj) = []
      <-> own_link inp obj = [] /\ learn_more_link inp = []
          /\ company_url inp = [])
  /\ (obj <> lit "Demand Capture" ->
      snd (linkedin_link_cta inp obj) = snd (facebook_link_cta inp obj)).
Proof.
  rewrite !linkedin_dest, facebook_dest.
  split; [reflexivity |]. split; [| split; [| split; [| split]]].
  - intros H. unfold fallback_link.
    apply nonempty_true in H. rewrite H. reflexivity.
  - intros H1 H2. unfold fallback_link. rewrite H1. simpl.
    apply nonempty_true in H2. rewrite H2. reflexivity.
  - intros H1 H2. unfold fallback_link. rewrite H1, H2. reflexivity.
  - apply fallback_link_nil.
  - intros H. unfold linkedin_link_cta, facebook_link_cta.
    destruct (str_eqb obj (lit "Demand Gen")); [reflexivity |].
    destruct (str_eqb obj (lit "Demand Capture")) eqn:E; [| reflexivity].
    apply str_eqb_eq in E. congruence.
Qed.

(** X8.  What the gates at the head of the handler give the link
    resolution.  Once they are passed with an objective other than
    Lead Magnet Download, the objective link is given and is the
    Demand Capture destination of both channels.  With Lead Magnet
    Download they are passed by an uploaded lead magnet alone; the
    Demand Gen destination is then the learn-more link or the website
    URL, never a link to the uploaded file. *)
Theorem gates_and_links (inp : Inputs) (l : list event) :
  validate inp l = (Done tt, l) ->
  (lead_objective inp <> lit "Lead Magnet Download" ->
   objective_link_input inp <> []
   /\ fst (linkedin_link_cta inp (lit "Demand Capture"))
      = objective_link_input inp
   /\ fst (facebook_link_cta inp (lit "Demand Capture"))
      = objective_link_input inp)
  /\ (lead_objective inp = lit "Lead Magnet Download" ->
      download_link_input inp = [] ->
      uploaded_lead_magnet inp <> None
      /\ fst (linkedin_link_cta inp (lit "Demand Gen"))
         = (if nonempty (learn_more_link inp) then learn_more_link inp
            else company_url inp)
      /\ fst (facebook_link_cta inp (lit "Demand Gen"))
         = (if nonempty (learn_more_link inp) then learn_more_link inp
            else company_url inp)).
Proof.
  unfold validate. intros H.
  destruct (negb (nonempty (company_url inp))
            && is_nil (uploaded_context_files inp)); [discriminate |].
  split.
  - intros Hl.
    assert (E : str_eqb (lead_objective inp) (lit "Lead Magnet Download")
                = false).
    { destruct (str_eqb _ _) eqn:E; [| reflexivity].
      apply str_eqb_eq in E. congruence. }
    rewrite E in H. simpl in H.
    destruct (nonempty (objective_link_input inp)) eqn:E2;
      [| discriminate].
    assert (Hne : objective_link_input inp <> [])
      by (apply nonempty_true; exact E2).
    split; [exact Hne |].
    rewrite linkedin_dest, facebook_dest.
    unfold own_link, fallback_link. simpl. rewrite E2. simpl.
    split; reflexivity.
  - intros Hl Hd. rewrite Hl, str_eqb_refl in H. simpl in H.
    rewrite Hd in H. simpl in H.
    rewrite linkedin_dest, facebook_dest.
    unfold own_link, fallback_link. simpl. rewrite Hd. simpl.
    destruct (uploaded_lead_magnet inp); [| discriminate].
    split; [discriminate | split; reflexivity].
Qed.

Lemma gates_and_links_witness :
  validate (demo_inputs (lit "Demo Booking")) [] = (Done tt, [])
  /\ fst (linkedin_link_cta (demo_inputs (lit "Demo Booking"))
            (lit "Demand Capture"))
     = lit "https://example.com/book".
Proof.
  split; [reflexivity |].
  apply (proj1 (gates_and_links (demo_inputs (lit "Demo Booking")) []
                  eq_refl)).
  discriminate.
Defined.

(** *** The search for a fenced block *)

Lemma startswith_split (p s : str) :
  startswith p s = true -> exists r, s = p ++ r.
Proof.
  revert s. induction p as [|x p IH]; intros s H.
  - exists s. reflexivity.
  - destruct s as [|y s]; [discriminate |]. simpl in H.
    apply andb_true_iff in H. destruct H as [E H].
    apply char_eqb_eq in E. subst. destruct (IH s H) as [r ->].
    exists r. reflexivity.
Qed.

Lemma startswith_app (p a b : str) :
  startswith p a = true -> startswith p (a ++ b) = true.
Proof.
  revert a. induction p as [|x p IH]; intros a H; [reflexivity |].
  destruct a as [|y a]; [discriminate |]. simpl in *.
  apply andb_true_iff in H. destruct H as [E H].
  rewrite E, (IH a H). reflexivity.
Qed.

Lemma startswith_fence_head (c : char) (s : str) :
  startswith fence (c :: s) = true -> c = backtick.
Proof.
  change (startswith fence (c :: s))
    with (char_eqb backtick c && startswith (lit "``") s).
  intros H. apply andb_true_iff in H. destruct H as [E _].
  apply char_eqb_eq in E. symmetry. exact E.
Qed.

Lemma closes_nil : closes [] = false.
Proof. reflexivity. Qed.

Lemma closes_split (s : str) :
  closes s = true ->
  exists ws rest, s = ws ++ fence ++ rest /\ blank ws = true.
Proof.
  unfold closes. intros H.
  destruct (lstrip_suffix s) as [sp [Hs Hb]].
  destruct (startswith_split _ _ H) as [rest Hr].
  exists sp, rest. rewrite <- Hr. split; assumption.
Qed.

Lemma lazy_group_acc (s : str) :
  forall acc,
    lazy_group s acc
    = match lazy_group s [] with
      | Some b => Some (rev acc ++ b)
      | None => None
      end.
Proof.
  induction s as [|c s IH]; intros acc.
  - reflexivity.
  - rewrite (lazy_group_unfold (c :: s) acc), (lazy_group_unfold (c :: s) []).
    destruct (closes (c :: s)).
    + simpl. rewrite app_nil_r. reflexivity.
    + rewrite (IH (c :: acc)), (IH [c]).
      destruct (lazy_group s []); [| reflexivity].
      simpl. rewrite <- app_assoc. reflexivity.
Qed.

Lemma lazy_group_sound (s : str) :
  forall g,
    lazy_group s [] = Some g ->
    exists ws2 rest,
      s = g ++ ws2 ++ fence ++ rest
      /\ blank ws2 = true
      /\ contains fence g = false
      /\ (g = [] \/ isspace (last g 0%N) = false).
Proof.
  induction s as [|c s IH]; intros g; rewrite lazy_group_unfold.
  - rewrite closes_nil. discriminate.
  - destruct (closes (c :: s)) eqn:Ec.
    + intros [= <-]. destruct (closes_split _ Ec) as [ws [rest [Hs Hb]]].
      exists ws, rest. repeat split; auto.
    + rewrite lazy_group_acc.
      destruct (lazy_group s []) as [b|] eqn:Eb; [| discriminate].
      intros [= <-]. change (rev [c] ++ b) with (c :: b).
      destruct (IH b eq_refl) as [ws2 [rest [Hs [Hb [Hc Hl]]]]].
      exists ws2, rest. split; [simpl; f_equal; exact Hs |].
      split; [exact Hb |]. split.
      * change (contains fence (c :: b))
          with (startswith fence (c :: b) || contains fence b).
        rewrite Hc, orb_false_r.
        destruct (startswith fence (c :: b)) eqn:Es; [| reflexivity].
        pose proof (startswith_fence_head _ _ Es) as ->.
        assert (Hcs : backtick :: s
                      = (backtick :: b) ++ (ws2 ++ fence ++ rest))
          by (rewrite Hs; reflexivity).
        apply (startswith_app _ _ (ws2 ++ fence ++ rest)) in Es.
        rewrite <- Hcs in Es.
        unfold closes in Ec. simpl lstrip_by in Ec.
        change (isspace backtick) with false in Ec. cbv iota in Ec.
        congruence.
      * right. destruct b as [|b0 b'].
        -- simpl. destruct (isspace c) eqn:Esp; [| reflexivity].
           exfalso. unfold closes in Ec. simpl lstrip_by in Ec.
           rewrite Esp in Ec. simpl in Hs. rewrite Hs in Ec.
           rewrite lstrip_spaces in Ec by exact Hb.
           change (lstrip_by isspace (fence ++ rest)) with (fence ++ rest) in Ec.
           change (startswith fence (fence ++ rest)) with true in Ec.
           discriminate.
        -- destruct Hl as [Hl | Hl]; [discriminate |]. exact Hl.
Qed.

Lemma skipn_step (k : nat) :
  forall r : str,
    S k <= List.length r ->
    exists x, skipn k r = x :: skipn (S k) r
              /\ firstn (S k) r = firstn k r ++ [x].
Proof.
  induction k as [|k IH]; intros r H.
  - destruct r as [|x r]; [simpl in H; lia |]. exists x. split; reflexivity.
  - destruct r as [|y r]; [simpl in H; lia |].
    destruct (IH r) as [x [H1 H2]]; [simpl in H; lia |].
    exists x. split; [exact H1 |].
    change (firstn (S (S k)) (y :: r)) with (y :: firstn (S k) r).
    rewrite H2. reflexivity.
Qed.

Lemma greedy_sound (k : nat) (r g : str) :
  k <= List.length r ->
  blank (firstn k r) = true ->
  greedy_spaces k r = Some g ->
  exists k',
    k' <= k
    /\ blank (firstn k' r) = true
    /\ lazy_group (skipn k' r) [] = Some g
    /\ (g = [] \/ k' = k).
Proof.
  induction k as [|k IH]; intros Hk Hb; cbn [greedy_spaces].
  - destruct (lazy_group (skipn 0 r) []) eqn:E; [| discriminate].
    intros [= <-]. exists 0. repeat split; auto.
  - destruct (lazy_group (skipn (S k) r) []) eqn:E.
    + intros [= <-]. exists (S k). repeat split; auto.
    + intros H. destruct (skipn_step k r Hk) as [x [Hx Hf]].
      rewrite Hf, blank_app in Hb. apply andb_true_iff in Hb.
      destruct Hb as [Hb Hsp]. simpl in Hsp. rewrite andb_true_r in Hsp.
      destruct (IH ltac:(lia) Hb H) as [k' [Hle [Hb' [Hl Hg]]]].
      exists k'. split; [lia |]. split; [exact Hb' |]. split; [exact Hl |].
      left. destruct Hg as [Hg | ->]; [exact Hg |].
      rewrite Hx, lazy_group_unfold in Hl.
      destruct (closes (x :: skipn (S k) r)).
      * inversion Hl. reflexivity.
      * rewrite lazy_group_acc, E in Hl. discriminate.
Qed.

Lemma span_facts (r : str) :
  List.length (fst (Json.span isspace r)) <= List.length r
  /\ blank (firstn (List.length (fst (Json.span isspace r))) r) = true
  /\ skipn (List.length (fst (Json.span isspace r))) r
     = lstrip_by isspace r.
Proof.
  induction r as [|c r [H1 [H2 H3]]]; simpl.
  - repeat split; auto.
  - destruct (isspace c) eqn:E.
    + destruct (Json.span isspace r) as [a b]. simpl in *.
      rewrite E, H2. repeat split; auto. lia.
    + simpl. repeat split; auto. lia.
Qed.

Lemma label_prefix_inv (p : str) :
  forall s r,
    label_prefix p s = Some r ->
    exists label,
      s = label ++ r
      /\ Forall2 (fun p c => label_char p c = true) p label.
Proof.
  induction p as [|x p IH]; intros s r H.
  - simpl in H. inversion H; subst. exists []. split; [reflexivity | constructor].
  - destruct s as [|y s]; [discriminate |]. simpl in H.
    destruct (label_char x y) eqn:E; [| discriminate].
    destruct (IH s r H) as [label [-> HF]].
    exists (y :: label). split; [reflexivity | constructor; assumption].
Qed.

Lemma match_here_sound (s g : str) :
  match_here s = Some g ->
  exists label ws1 ws2 post,
    s = fence ++ label ++ ws1 ++ g ++ ws2 ++ fence ++ post
    /\ Forall2 (fun p c => label_char p c = true) (lit "json") label
    /\ blank ws1 = true
    /\ blank ws2 = true
    /\ contains fence g = false
    /\ strip g = g.
Proof.
  unfold match_here, after_open.
  destruct (startswith fence s) eqn:Es; [| discriminate].
  destruct (startswith_split _ _ Es) as [s1 ->].
  change (skipn 3 (fence ++ s1)) with s1.
  destruct (label_prefix (lit "json") s1) as [r|] eqn:El; [| discriminate].
  destruct (label_prefix_inv _ _ _ El) as [label [-> HF]].
  intros H. destruct (span_facts r) as [H1 [H2 H3]].
  destruct (greedy_sound _ _ _ H1 H2 H) as [k' [Hle [Hb [Hl Hg]]]].
  destruct (lazy_group_sound _ _ Hl) as [ws2 [post [Hs [Hb2 [Hc Hlast]]]]].
  exists label, (firstn k' r), ws2, post.
  split; [| split; [exact HF | split; [exact Hb | split; [exact Hb2 |
            split; [exact Hc |]]]]].
  - rewrite <- Hs, firstn_skipn. reflexivity.
  - destruct g as [|c g']; [reflexivity |].
    destruct Hg as [Hg | ->]; [discriminate |].
    destruct Hlast as [Hlast | Hlast]; [discriminate |].
    apply strip_fixed. split; [| exact Hlast].
    rewrite H3 in Hs. simpl. simpl in Hs.
    apply (lstrip_head r _ c Hs).
Qed.

Lemma search_fence_some_fences (content body : str) :
  search_fence content = Some body -> has_fences content.
Proof.
  induction content as [|c s IH]; rewrite search_fence_unfold.
  - destruct (match_here []) eqn:E; [| discriminate].
    intros [= ->].
    destruct (match_here_sound _ _ E)
      as (label & ws1 & ws2 & post & Hs & HF & _).
    exists [], label, (ws1 ++ body ++ ws2), post.
    split; [| exact HF]. cbn [app]. rewrite <- !app_assoc. exact Hs.
  - destruct (match_here (c :: s)) eqn:E.
    + intros [= ->].
      destruct (match_here_sound _ _ E)
        as (label & ws1 & ws2 & post & Hs & HF & _).
      exists [], label, (ws1 ++ body ++ ws2), post.
      split; [| exact HF]. cbn [app]. rewrite <- !app_assoc. exact Hs.
    + intros H. destruct (IH H) as (pre & label & mid & post & Hs & HF).
      exists (c :: pre), label, mid, post.
      split; [simpl; f_equal; exact Hs | exact HF].
Qed.

Lemma lazy_group_complete (a b : str) :
  forall acc, exists g, lazy_group (a ++ fence ++ b) acc = Some g.
Proof.
  induction a as [|c a IH]; intros acc; rewrite lazy_group_unfold.
  - change (closes ([] ++ fence ++ b)) with true. eexists. reflexivity.
  - destruct (closes ((c :: a) ++ fence ++ b)); [eexists; reflexivity |].
    apply IH.
Qed.

Lemma greedy_complete (k : nat) (r : str) :
  (exists g, lazy_group r [] = Some g) ->
  exists g, greedy_spaces k r = Some g.
Proof.
  intros H. induction k as [|k IH]; cbn [greedy_spaces].
  - destruct H as [g H]. simpl skipn. rewrite H. eexists. reflexivity.
  - destruct (lazy_group (skipn (S k) r) []); [eexists; reflexivity |].
    exact IH.
Qed.

Lemma search_fence_complete (content : str) :
  has_fences content -> exists body, search_fence content = Some body.
Proof.
  intros (pre & label & mid & post & -> & HF).
  induction pre as [|c pre IH]; rewrite search_fence_unfold.
  - change ([] ++ fence ++ label ++ mid ++ fence ++ post)
      with (fence ++ label ++ mid ++ fence ++ post).
    assert (Hm : exists g,
               match_here (fence ++ label ++ mid ++ fence ++ post) = Some g).
    { unfold match_here, after_open.
      change (startswith fence (fence ++ label ++ mid ++ fence ++ post))
        with true.
      change (skipn 3 (fence ++ label ++ mid ++ fence ++ post))
        with (label ++ mid ++ fence ++ post).
      cbv iota. rewrite (label_prefix_app _ _ _ HF).
      apply greedy_complete. apply lazy_group_complete. }
    destruct Hm as [g Hm]. rewrite Hm. eexists. reflexivity.
  - destruct (match_here ((c :: pre) ++ fence ++ label ++ mid ++ fence ++ post));
      [eexists; reflexivity |].
    exact IH.
Qed.

(** X9.  Whatever the search for a fenced block returns stands in the
    content between an opening fence labelled "json" (in any case) and
    a closing fence; it holds no fence itself and has no white space at
    either end, so it is the shortest such block, already stripped. *)
Theorem search_fence_returns_a_block (content body : str) :
  search_fence content = Some body ->
  fenced_block content body
  /\ contains fence body = false
  /\ strip body = body.
Proof.
  induction content as [|c s IH]; rewrite search_fence_unfold.
  - destruct (match_here []) eqn:E; [| discriminate].
    intros [= ->].
    destruct (match_here_sound _ _ E)
      as (label & ws1 & ws2 & post & Hs & HF & H1 & H2 & Hc & Hst).
    split; [| split; assumption].
    exists [], label, ws1, ws2, post. repeat split; assumption.
  - destruct (match_here (c :: s)) eqn:E.
    + intros [= ->].
      destruct (match_here_sound _ _ E)
        as (label & ws1 & ws2 & post & Hs & HF & H1 & H2 & Hc & Hst).
      split; [| split; assumption].
      exists [], label, ws1, ws2, post. repeat split; assumption.
    + intros H. destruct (IH H) as [(pre & label & ws1 & ws2 & post
                                       & Hs & HF & H1 & H2) [Hc Hst]].
      split; [| split; assumption].
      exists (c :: pre), label, ws1, ws2, post.
      split; [simpl; f_equal; exact Hs |]. repeat split; assumption.
Qed.

Lemma search_fence_returns_a_block_witness :
  search_fence (strip fenced_response) = Some (lit "{}")
  /\ fenced_block (strip fenced_response) (lit "{}").
Proof.
  split; [reflexivity |].
  apply (search_fence_returns_a_block (strip fenced_response) (lit "{}")).
  reflexivity.
Defined.

(** X10.  The search finds a block exactly when the content has an
    opening fence labelled "json" with a fence somewhere after it;
    what stands between them does not matter. *)
Theorem search_fence_finds_fences (content : str) :
  (exists body, search_fence content = Some body) <-> has_fences content.
Proof.
  split.
  - intros [body H]. exact (search_fence_some_fences _ _ H).
  - apply search_fence_complete.
Qed.

(** *** The events of the generation steps *)

Lemma generate_step (env : Env) (p : prompt) (l : list event) :
  generate_ad_content env p l
  = (Done (answer env l p), l ++ [Chat (Generate p)]).
Proof.
  unfold generate_ad_content, bind, chat, answer.
  destruct (chat_create env l (Generate p)); reflexivity.
Qed.

Lemma spaced_calls_cons (r : request) (reqs : list request) :
  reqs <> [] ->
  spaced_calls (r :: reqs) = Chat r :: Sleep :: spaced_calls reqs.
Proof. destruct reqs; [congruence | reflexivity]. Qed.

Lemma spaced_calls_app (r1 r2 : list request) :
  r2 <> [] ->
  spaced_calls (r1 ++ r2) = calls_then_sleep r1 ++ spaced_calls r2.
Proof.
  intros H. induction r1 as [|r r1 IH]; [reflexivity |].
  simpl app. rewrite spaced_calls_cons, IH; [reflexivity |].
  destruct r1; [exact H | discriminate].
Qed.

Lemma spaced_calls_snoc (pre : list request) (r : request) :
  spaced_calls (pre ++ [r]) = calls_then_sleep pre ++ [Chat r].
Proof. rewrite spaced_calls_app by discriminate. reflexivity. Qed.

Lemma calls_then_sleep_app (r1 r2 : list request) :
  calls_then_sleep (r1 ++ r2) = calls_then_sleep r1 ++ calls_then_sleep r2.
Proof. apply flat_map_app. Qed.

Lemma makes_calls_ret (A : Type) (a : A) (Q : A -> Prop) :
  Q a -> makes_calls (ret a) [] Q.
Proof.
  intros H l. unfold ret. simpl. rewrite app_nil_r. split; [reflexivity | exact H].
Qed.

Lemma round_makes (A B : Type) (env : Env) (p : prompt)
    (f : pyval -> res A) (k : A -> M B) (reqs : list request)
    (Q : B -> Prop) :
  (forall x, makes_calls (k x) reqs Q) ->
  makes_calls
    (bind (generate_ad_content env p)
          (fun j => bind (lift (f j)) (fun x => bind sleep (fun _ => k x))))
    (Generate p :: reqs) Q.
Proof.
  intros Hk l. unfold bind. rewrite generate_step.
  destruct (f (answer env l p)) as [x|]; unfold lift, ret, crash, sleep.
  - specialize (Hk x ((l ++ [Chat (Generate p)]) ++ [Sleep])).
    destruct (k x _) as [[a|h|] l'].
    + destruct Hk as [-> HQ]. split; [| exact HQ].
      simpl. rewrite <- !app_assoc. reflexivity.
    + exact Hk.
    + destruct Hk as (pre & r & post & -> & ->).
      exists (Generate p :: pre), r, post. split; [reflexivity |].
      simpl. rewrite <- !app_assoc. reflexivity.
  - exists [], (Generate p), reqs. split; reflexivity.
Qed.

Lemma round_ends (A B : Type) (env : Env) (p : prompt)
    (f : pyval -> res A) (k : A -> M B) (reqs : list request)
    (Q : B -> Prop) :
  reqs <> [] ->
  (forall x, ends_calls (k x) reqs Q) ->
  ends_calls
    (bind (generate_ad_content env p)
          (fun j => bind (lift (f j)) (fun x => bind sleep (fun _ => k x))))
    (Generate p :: reqs) Q.
Proof.
  intros Hne Hk l. unfold bind. rewrite generate_step.
  destruct (f (answer env l p)) as [x|]; unfold lift, ret, crash, sleep.
  - specialize (Hk x ((l ++ [Chat (Generate p)]) ++ [Sleep])).
    destruct (k x _) as [[a|h|] l'].
    + destruct Hk as [-> HQ]. split; [| exact HQ].
      rewrite spaced_calls_cons by exact Hne.
      rewrite <- !app_assoc. reflexivity.
    + exact Hk.
    + destruct Hk as (pre & r & post & -> & ->).
      exists (Generate p :: pre), r, post. split; [reflexivity |].
      simpl. rewrite <- !app_assoc. reflexivity.
  - exists [], (Generate p), reqs. split; reflexivity.
Qed.

Lemma last_call_ends (A B : Type) (env : Env) (p : prompt)
    (f : pyval -> res A) (g : A -> B) (Q : B -> Prop) :
  (forall x, Q (g x)) ->
  ends_calls
    (bind (generate_ad_content env p)
          (fun j => bind (lift (f j)) (fun x => ret (g x))))
    [Generate p] Q.
Proof.
  intros HQ l. unfold bind. rewrite generate_step.
  destruct (f (answer env l p)) as [x|]; unfold lift, ret, crash.
  - split; [reflexivity | apply HQ].
  - exists [], (Generate p), []. split; reflexivity.
Qed.

Lemma bind_ends (A B : Type) (c : M A) (k : A -> M B)
    (r1 r2 : list request) (P : A -> Prop) (Q : B -> Prop) :
  r2 <> [] ->
  makes_calls c r1 P ->
  (forall a, ends_calls (k a) r2 Q) ->
  ends_calls (bind c k) (r1 ++ r2) Q.
Proof.
  intros Hne Hc Hk l. unfold bind. specialize (Hc l).
  destruct (c l) as [[a|h|] l1].
  - destruct Hc as [-> _]. specialize (Hk a (l ++ calls_then_sleep r1)).
    destruct (k a _) as [[b|h|] l2].
    + destruct Hk as [-> HQ]. split; [| exact HQ].
      rewrite spaced_calls_app by exact Hne.
      rewrite <- !app_assoc. reflexivity.
    + exact Hk.
    + destruct Hk as (pre & r & post & -> & ->).
      exists (r1 ++ pre), r, post. split; [rewrite <- app_assoc; reflexivity |].
      rewrite calls_then_sleep_app, <- !app_assoc. reflexivity.
  - exact Hc.
  - destruct Hc as (pre & r & post & -> & ->).
    exists pre, r, (post ++ r2). split; [| reflexivity].
    rewrite <- app_assoc. reflexivity.
Qed.

Lemma linkedin_loop_calls (env : Env) (inp : Inputs) (summary : str)
    (objs : list str) :
  forall dfs,
    makes_calls (linkedin_loop env inp summary objs dfs)
                (List.map (linkedin_request inp summary) objs)
                (fun _ => True).
Proof.
  induction objs as [|obj rest IH]; intros dfs.
  - apply makes_calls_ret. exact I.
  - cbn [linkedin_loop List.map]. unfold linkedin_request at 1.
    destruct (linkedin_link_cta inp obj) as [dest_link cta].
    apply round_makes. intros dfs'. apply IH.
Qed.

Lemma facebook_loop_calls (env : Env) (inp : Inputs) (summary : str)
    (objs : list str) :
  forall dfs,
    makes_calls (facebook_loop env inp summary objs dfs)
                (List.map (facebook_request inp summary) objs)
                (fun _ => True).
Proof.
  induction objs as [|obj rest IH]; intros dfs.
  - apply makes_calls_ret. exact I.
  - cbn [facebook_loop List.map]. unfold facebook_request at 1.
    destruct (facebook_link_cta inp obj) as [dest_link cta].
    apply round_makes. intros dfs'. apply IH.
Qed.

Lemma generate_tables_calls (env : Env) (inp : Inputs) (summary : str) :
  ends_calls (generate_tables env inp summary)
             (planned_requests inp summary)
             (fun bundle => List.map fst bundle = sheet_names).
Proof.
  unfold generate_tables, planned_requests, email_request.
  apply round_ends.
  { destruct (List.map (linkedin_request inp summary) objectives);
      discriminate. }
  intros email.
  apply (bind_ends _ _ _ _ _ _ (fun _ => True)).
  { destruct (List.map (facebook_request inp summary) objectives);
      discriminate. }
  { apply linkedin_loop_calls. }
  intros linkedin_dfs.
  apply (bind_ends _ _ _ _ _ _ (fun _ => True)).
  { discriminate. }
  { apply facebook_loop_calls. }
  intros facebook_dfs.
  unfold search_request, display_request.
  apply round_ends; [discriminate |].
  intros search.
  apply (last_call_ends _ _ env _ google_table
           (fun display =>
              [(lit "Email", email);
               (lit "LinkedIn", merge_frames linkedin_dfs);
               (lit "FaceBook", merge_frames facebook_dfs);
               (lit "Google Search", search);
               (lit "Google Display", display)])).
  intros display. reflexivity.
Qed.

Lemma firstn_snoc (A : Type) (pre : list A) (r : A) (post : list A) :
  firstn (S (List.length pre)) (pre ++ r :: post) = pre ++ [r].
Proof.
  induction pre as [|x pre IH]; [reflexivity |].
  simpl List.length. simpl app.
  change (firstn (S (S (List.length pre))) (x :: pre ++ r :: post))
    with (x :: firstn (S (List.length pre)) (pre ++ r :: post)).
  rewrite IH. reflexivity.
Qed.

Lemma planned_length (inp : Inputs) (summary : str) :
  List.length (planned_requests inp summary) = 9.
Proof. reflexivity. Qed.

(** X11.  The generation step makes its calls in one fixed order:
    Email, the three LinkedIn objectives, the three Facebook
    objectives, Google Search, Google Display, with a pause between
    two calls.  The prompts depend on the form and on the summary
    only, never on an earlier answer.  The step never reaches
    [st.stop()]: it ends with the five sheets in their order after all
    nine calls, or it is cut short right after a call by a table
    builder that raises. *)
Theorem generation_follows_the_plan (env : Env) (inp : Inputs)
    (summary : str) (l : list event) :
  exists n,
    1 <= n <= 9
    /\ snd (generate_tables env inp summary l)
       = l ++ spaced_calls (firstn n (planned_requests inp summary))
    /\ (fst (generate_tables env inp summary l) = Crashed
        \/ exists bundle,
             fst (generate_tables env inp summary l) = Done bundle
             /\ n = 9
             /\ List.map fst bundle = sheet_names).
Proof.
  pose proof (generate_tables_calls env inp summary l) as H.
  destruct (generate_tables env inp summary l) as [[bundle|h|] l'].
  - destruct H as [-> HQ]. exists 9. split; [lia |]. split.
    + rewrite <- (planned_length inp summary), firstn_all. reflexivity.
    + right. exists bundle. repeat split. exact HQ.
  - contradiction.
  - destruct H as (pre & r & post & Hp & ->).
    exists (S (List.length pre)).
    pose proof (planned_length inp summary) as Hlen.
    rewrite Hp, length_app in Hlen. simpl in Hlen.
    split; [lia |]. split; [| left; reflexivity].
    rewrite Hp, firstn_snoc, spaced_calls_snoc. reflexivity.
Qed.

(** *** The events of the summaries step *)

Lemma blank_test_false (text : str) :
  nonempty (strip text) = true ->
  negb (nonempty text) || negb (nonempty (strip text)) = false.
Proof.
  intros H. apply nonblank_test. apply nonempty_true. exact H.
Qed.

Lemma summarize_text_events (env : Env) (name text : str) (l : list event) :
  exists summary,
    summarize_text env text (max_chars_for text) name l
    = (Done summary, l ++ summary_call (name, text))
    /\ (strip text = [] -> summary = no_content name)
    /\ (strip text <> [] ->
        chat_create env l
          (Summarize name (max_chars_for text) (slice_to 40000 text)) = None ->
        summary = summarization_error name).
Proof.
  unfold summary_call. simpl fst. simpl snd.
  destruct (nonempty (strip text)) eqn:E.
  - unfold summarize_text. rewrite (blank_test_false _ E).
    unfold bind, chat.
    destruct (chat_create env l _) as [content|] eqn:Ec.
    + exists (strip content). split; [reflexivity |].
      split; [| discriminate].
      intros H. apply nonempty_true in E. contradiction.
    + exists (summarization_error name). split; [reflexivity |].
      split; [| reflexivity].
      intros H. apply nonempty_true in E. contradiction.
  - apply nonempty_false in E. exists (no_content name).
    rewrite (summarize_text_blank env text _ name l E), app_nil_r.
    split; [reflexivity |]. split; [reflexivity | congruence].
Qed.

Lemma summarize_all_events (env : Env) (items : list (str * str)) :
  forall summaries l,
  exists entries,
    summarize_all env items summaries l
    = (Done (summaries ++ entries), l ++ summary_events items)
    /\ Forall2 (fun it e => exists summary,
                    e = summary_entry (fst it) summary
                    /\ (strip (snd it) = [] -> summary = no_content (fst it)))
               items entries
    /\ ((forall l r, chat_create env l r = None) ->
        Forall2 (fun it e =>
                   strip (snd it) <> [] ->
                   e = summary_entry (fst it) (summarization_error (fst it)))
                items entries).
Proof.
  induction items as [|[name text] rest IH]; intros summaries l.
  - exists []. simpl. unfold ret. rewrite !app_nil_r.
    split; [reflexivity |]. split; [constructor | intros _; constructor].
  - cbn [summarize_all].
    destruct (summarize_text_events env name text l)
      as [summary [Hs [Hblank Hdown]]].
    unfold bind at 1. rewrite Hs.
    unfold bind at 1. unfold sleep at 1.
    destruct (IH (summaries ++ [summary_entry name summary])
                 ((l ++ summary_call (name, text)) ++ [Sleep]))
      as [entries [He [HF HD]]].
    exists (summary_entry name summary :: entries).
    split; [| split].
    + rewrite He. cbn [summary_events flat_map].
      rewrite <- !app_assoc. reflexivity.
    + constructor; [| exact HF]. exists summary. split; [reflexivity | exact Hblank].
    + intros Hnone. constructor; [| apply HD; exact Hnone].
      simpl. intros Hne. rewrite (Hdown Hne (Hnone _ _)). reflexivity.
Qed.

(** X12.  The summaries step never fails and never stops: it adds one
    entry per source, in the order of the sources, each one the label
    of its source followed by a summary, and the entry of a blank text
    is the fixed sentence.  Its events are exactly one call for every
    source whose text is not blank, on at most 40000 characters, and
    one pause after every source. *)
Theorem one_summary_per_source (env : Env) (items : list (str * str))
    (summaries : list str) (l : list event) :
  exists entries,
    summarize_all env items summaries l
    = (Done (summaries ++ entries), l ++ summary_events items)
    /\ Forall2 (fun it e => exists summary,
                    e = summary_entry (fst it) summary
                    /\ (strip (snd it) = [] -> summary = no_content (fst it)))
               items entries
    /\ List.length entries = List.length items.
Proof.
  destruct (summarize_all_events env items summaries l)
    as [entries [He [HF _]]].
  exists entries. split; [exact He |]. split; [exact HF |].
  symmetry. eapply Forall2_length. exact HF.
Qed.

(** *** The events of a run *)

Lemma extract_context_log (env : Env) (inp : Inputs) (l : list event) :
  (exists items, extract_context env inp l = (Done items, l))
  \/ extract_context env inp l = (Crashed, l).
Proof.
  unfold extract_context, bind.
  destruct (nonempty (company_url inp)); [| left; eexists; reflexivity].
  destruct (add_http env (PStr (company_url inp))) as [u|];
    [| right; reflexivity].
  destruct (extract_text_from_url env u) as [t|];
    [destruct (nonempty t) |]; left; eexists; reflexivity.
Qed.

(** The ways a run can go: it ends before the first event; or the
    summaries are made and the test on them stops it; or the
    generation step follows. *)
Lemma run_cases (env : Env) (inp : Inputs) :
  (snd (run env inp []) = []
   /\ (fst (run env inp []) = Crashed
       \/ exists h, fst (run env inp []) = Stopped h))
  \/ exists items entries,
       validate inp [] = (Done tt, [])
       /\ extract_context env inp [] = (Done items, [])
       /\ items <> []
       /\ summarize_all env items [] [] = (Done entries, summary_events items)
       /\ ((summary_halts entries = true
            /\ run env inp [] = (Stopped SummaryFailed, summary_events items))
           \/ (summary_halts entries = false
               /\ run env inp []
                  = generate_tables env inp (combine_summaries entries)
                      (summary_events items))).
Proof.
  unfold run.
  destruct (validate_cases inp []) as [Hv | [h Hv]].
  2:{ left. rewrite (bind_stopped _ _ _ _ _ _ _ Hv). simpl.
      split; [reflexivity | right; eexists; reflexivity]. }
  rewrite (bind_done _ _ _ _ _ _ _ Hv).
  destruct (extract_context_log env inp []) as [[items He] | He].
  2:{ left. rewrite (bind_crashed _ _ _ _ _ _ He). simpl.
      split; [reflexivity | left; reflexivity]. }
  rewrite (bind_done _ _ _ _ _ _ _ He).
  destruct items as [|it items].
  { left. simpl. split; [reflexivity | right; eexists; reflexivity]. }
  cbn [is_nil].
  destruct (summarize_all_events env (it :: items) [] [])
    as [entries [Hs _]].
  cbn [app] in Hs.
  right. exists (it :: items), entries.
  split; [exact Hv |]. split; [exact He |]. split; [discriminate |].
  split; [exact Hs |].
  rewrite (bind_done _ _ _ _ _ _ _ Hs).
  destruct (summary_halts entries); [left | right]; split; reflexivity.
Qed.

Lemma spaced_nil : spaced [].
Proof. intros pre r post H. destruct pre; discriminate. Qed.

Lemma spaced_single (r : request) : spaced [Chat r].
Proof.
  intros pre r' post H. destruct pre as [|e pre].
  - inversion H. left. reflexivity.
  - destruct pre; discriminate.
Qed.

Lemma spaced_sleep (l : list event) : spaced l -> spaced (Sleep :: l).
Proof.
  intros Hl pre r post H. destruct pre as [|e pre]; [discriminate |].
  inversion H. eapply Hl. eassumption.
Qed.

Lemma spaced_chat_sleep (r : request) (l : list event) :
  spaced l -> spaced (Chat r :: Sleep :: l).
Proof.
  intros Hl pre r' post H. destruct pre as [|e pre].
  - inversion H. right. eexists. reflexivity.
  - inversion H as [[He H']]. revert H'. apply (spaced_sleep l Hl).
Qed.

Lemma spaced_calls_chat (pre : list request) (r : request) :
  spaced (calls_then_sleep pre ++ [Chat r]).
Proof.
  induction pre as [|r0 pre IH]; simpl.
  - apply spaced_single.
  - apply spaced_chat_sleep. exact IH.
Qed.

Lemma spaced_summary_events (items : list (str * str)) (rest : list event) :
  spaced rest -> spaced (summary_events items ++ rest).
Proof.
  intros Hr. induction items as [|it items IH]; [exact Hr |].
  cbn [summary_events flat_map]. fold (summary_events items).
  rewrite <- !app_assoc. unfold summary_call.
  destruct (nonempty (strip (snd it))); simpl.
  - apply spaced_chat_sleep. exact IH.
  - apply spaced_sleep. exact IH.
Qed.

Lemma run_log (env : Env) (inp : Inputs) :
  exists items gen,
    snd (run env inp []) = summary_events items ++ gen
    /\ (items = [] \/ extract_context env inp [] = (Done items, []))
    /\ (gen = []
        \/ exists summary pre r post,
             planned_requests inp summary = pre ++ r :: post
             /\ gen = calls_then_sleep pre ++ [Chat r])
    /\ ((exists h, fst (run env inp []) = Stopped h) -> gen = []).
Proof.
  destruct (run_cases env inp)
    as [[Hl _] | (items & entries & _ & He & _ & _ & [[_ Hr] | [_ Hr]])].
  - exists [], []. rewrite Hl. split; [reflexivity |].
    split; [left; reflexivity |]. split; [left |]; reflexivity.
  - exists items, []. rewrite Hr, app_nil_r.
    split; [reflexivity |]. split; [right; exact He |].
    split; [left |]; reflexivity.
  - exists items. rewrite Hr.
    pose proof (generate_tables_calls env inp (combine_summaries entries)
                  (summary_events items)) as H.
    destruct (generate_tables env inp (combine_summaries entries)
                (summary_events items)) as [[bundle|h|] l'].
    + destruct H as [-> _].
      destruct (@exists_last _ (planned_requests inp (combine_summaries entries)))
        as [pre [r Hp]]; [discriminate |].
      exists (calls_then_sleep pre ++ [Chat r]). simpl snd.
      split; [rewrite Hp, spaced_calls_snoc; reflexivity |].
      split; [right; exact He |].
      split; [| intros [h Hh]; discriminate].
      right. exists (combine_summaries entries), pre, r, []. split; [exact Hp | reflexivity].
    + contradiction.
    + destruct H as (pre & r & post & Hp & ->).
      exists (calls_then_sleep pre ++ [Chat r]). simpl snd.
      split; [reflexivity |]. split; [right; exact He |].
      split; [| intros [h Hh]; discriminate].
      right. exists (combine_summaries entries), pre, r, post.
      split; [exact Hp | reflexivity].
Qed.

(** X13.  In the log of a run a pause follows every call of the chat
    API, whether it summarizes or generates, unless the call is the
    last event of the run: two calls are never made back to back. *)
Theorem calls_are_spaced (env : Env) (inp : Inputs) (pre : list event)
    (r : request) (post : list event) :
  snd (run env inp []) = pre ++ Chat r :: post ->
  post = [] \/ exists post', post = Sleep :: post'.
Proof.
  destruct (run_log env inp) as (items & gen & -> & _ & Hg & _).
  assert (H : spaced (summary_events items ++ gen)).
  { apply spaced_summary_events.
    destruct Hg as [-> | (summary & pre' & r' & post' & _ & ->)];
      [apply spaced_nil | apply spaced_calls_chat]. }
  apply H.
Qed.

Lemma calls_are_spaced_witness :
  snd (run error_log_env error_log_inputs [])
  = [] ++ Chat (Summarize (lit "ErrorLog.pdf") 1800
                  (lit "Acme sells widgets.")) :: [Sleep]
  /\ ([Sleep] = [] \/ exists post', [Sleep] = Sleep :: post').
Proof.
  split; [reflexivity |].
  apply (calls_are_spaced error_log_env error_log_inputs []
           (Summarize (lit "ErrorLog.pdf") 1800 (lit "Acme sells widgets."))
           [Sleep]).
  reflexivity.
Defined.

Lemma summary_events_no_generate (items : list (str * str)) :
  Forall (fun e => is_generate e = false) (summary_events items).
Proof.
  apply Forall_forall. intros e H. apply in_flat_map in H.
  destruct H as [it [_ H]]. unfold summary_call in H.
  destruct (nonempty (strip (snd it))); simpl in H.
  - destruct H as [<- | [<- | []]]; reflexivity.
  - destruct H as [<- | []]. reflexivity.
Qed.

Lemma summary_events_generation_calls (items : list (str * str)) :
  generation_calls (summary_events items) = 0.
Proof.
  unfold generation_calls.
  pose proof (summary_events_no_generate items) as HF.
  induction HF as [|e es E _ IH]; [reflexivity |].
  simpl. rewrite E. exact IH.
Qed.

Lemma planned_generate (inp : Inputs) (summary : str) :
  Forall (fun r => is_summarize (Chat r) = false)
         (planned_requests inp summary).
Proof. repeat constructor. Qed.

Lemma calls_no_summarize (reqs : list request) :
  Forall (fun r => is_summarize (Chat r) = false) reqs ->
  Forall (fun e => is_summarize e = false) (calls_then_sleep reqs).
Proof.
  induction 1 as [|r reqs Hr _ IH]; [constructor |].
  simpl. constructor; [exact Hr |]. constructor; [reflexivity | exact IH].
Qed.


Lemma contains_error_failure (name : str) :
  contains (lit "Error") (summary_entry name (summarization_error name))
  = true.
Proof.
  change (lit "Error") with Error. rewrite contains_error_entry. apply orb_true_iff. right.
  reflexivity.
Qed.

Lemma combine_nonempty (e : str) (es : list str) :
  e <> [] -> nonempty (combine_summaries (e :: es)) = true.
Proof.
  intros H. apply nonempty_true. unfold combine_summaries.
  destruct es; simpl; [exact H |]. destruct e; [congruence | discriminate].
Qed.

(** X15.  When no call of the chat API succeeds and every source has a
    text that is not blank, every entry is the error sentence of the
    summarizer, the test after the summaries stops the run, and no
    generation call is made: the events of the run are one failed
    call and one pause per source. *)
Theorem failed_summaries_stop_the_run (env : Env) (inp : Inputs)
    (items : list (str * str)) :
  (forall l r, chat_create env l r = None) ->
  validate inp [] = (Done tt, []) ->
  extract_context env inp [] = (Done items, []) ->
  items <> [] ->
  Forall (fun it => strip (snd it) <> []) items ->
  run env inp [] = (Stopped SummaryFailed, summary_events items)
  /\ generation_calls (summary_events items) = 0.
Proof.
  intros Hdown Hv He Hne Hnb. split.
  - unfold run. rewrite (bind_done _ _ _ _ _ _ _ Hv).
    rewrite (bind_done _ _ _ _ _ _ _ He).
    destruct items as [|it items]; [congruence |]. cbn [is_nil].
    destruct (summarize_all_events env (it :: items) [] [])
      as [entries [Hs [_ HD]]].
    cbn [app] in Hs. rewrite (bind_done _ _ _ _ _ _ _ Hs).
    specialize (HD Hdown).
    assert (Hall : forallb (contains (lit "Error")) entries = true).
    { clear Hs Hne He. revert Hnb. induction HD as [|it' e its es H _ IH];
        intros Hnb; [reflexivity |].
      inversion Hnb; subst. simpl. rewrite (H ltac:(assumption)).
      rewrite (contains_error_failure (fst it')). apply IH. assumption. }
    unfold summary_halts. rewrite Hall, orb_true_r. reflexivity.
  - apply summary_events_generation_calls.
Qed.

Lemma failed_summaries_stop_the_run_witness :
  run (Script.env (Some (lit "Acme sells widgets.")) (fun _ => None) [])
      (demo_inputs (lit "Demo Booking")) []
  = (Stopped SummaryFailed,
     summary_events [(lit "website", lit "Acme sells widgets.")]).
Proof.
  apply (failed_summaries_stop_the_run
           (Script.env (Some (lit "Acme sells widgets.")) (fun _ => None) [])
           (demo_inputs (lit "Demo Booking"))
           [(lit "website", lit "Acme sells widgets.")]).
  - intros l r. simpl. destruct (List.length (filter is_chat l)); reflexivity.
  - reflexivity.
  - reflexivity.
  - discriminate.
  - constructor; [discriminate | constructor].
Defined.

(** *** The name of the workbook file *)

Import Workbook.

Lemma has_forbidden_app (a b : str) :
  has_forbidden (a ++ b) = has_forbidden a || has_forbidden b.
Proof. apply existsb_app. Qed.

Lemma has_forbidden_safe (company_name : str) :
  has_forbidden (filename_safe_company_name company_name) = false.
Proof.
  unfold has_forbidden, filename_safe_company_name.
  induction company_name as [|c s IH]; [reflexivity |].
  cbn [filter]. destruct (has_char c forbidden) eqn:E; cbn [negb].
  - exact IH.
  - cbn [existsb]. rewrite E, IH. reflexivity.
Qed.

Lemma safe_company_name_clean (company_name : str) :
  has_forbidden company_name = false ->
  filename_safe_company_name company_name = company_name.
Proof.
  unfold has_forbidden, filename_safe_company_name.
  induction company_name as [|c s IH]; [reflexivity |].
  cbn [existsb]. intros H. apply orb_false_iff in H. destruct H as [E H].
  cbn [filter]. rewrite E. cbn [negb]. rewrite (IH H). reflexivity.
Qed.

Lemma has_forbidden_replace (s : str) :
  has_forbidden (replace_char 32%N 95%N s) = has_forbidden s.
Proof.
  unfold has_forbidden, replace_char.
  induction s as [|c s IH]; [reflexivity |].
  cbn [List.map existsb]. rewrite IH. f_equal.
  destruct (char_eqb c 32%N) eqn:E; [| reflexivity].
  apply char_eqb_eq in E. subst. reflexivity.
Qed.

Lemma no_space_after_replace (s : str) :
  has_char 32%N (replace_char 32%N 95%N s) = false.
Proof.
  unfold has_char, replace_char.
  induction s as [|c s IH]; [reflexivity |].
  cbn [List.map existsb]. rewrite IH, orb_false_r.
  destruct (char_eqb c 32%N) eqn:E; [reflexivity |].
  unfold char_eqb in *. rewrite N.eqb_sym. exact E.
Qed.

(** X16.  The file name of the workbook is the company name without
    the characters that a file name may not hold, an underscore, the
    lead objective with its spaces replaced by underscores, and the
    extension.  Only the company name is sanitized: a clean name is
    kept as it is, and the file name holds a forbidden character when
    the lead objective does, which none of the three options of the
    form does. *)
Theorem filename_is_safe (company_name lead_objective_str : str) :
  has_forbidden (filename_safe_company_name company_name) = false
  /\ (has_forbidden company_name = false ->
      filename_safe_company_name company_name = company_name)
  /\ has_forbidden (filename company_name lead_objective_str)
     = has_forbidden lead_objective_str
  /\ has_char 32%N (filename_safe_objective lead_objective_str) = false
  /\ (In lead_objective_str lead_objectives ->
      has_forbidden (filename company_name lead_objective_str) = false).
Proof.
  assert (H3 : has_forbidden (filename company_name lead_objective_str)
               = has_forbidden lead_objective_str).
  { unfold filename, filename_safe_objective.
    rewrite !has_forbidden_app, has_forbidden_safe, has_forbidden_replace.
    simpl. apply orb_false_r. }
  split; [apply has_forbidden_safe |].
  split; [apply safe_company_name_clean |].
  split; [exact H3 |]. split.
  - apply no_space_after_replace.
  - intros H. rewrite H3.
    destruct H as [<- | [<- | [<- | []]]]; reflexivity.
Qed.

(** *** The name of the company *)

Lemma host_range (c : char) :
  is_host_char c = true ->
  (97 <= c <= 122 \/ 48 <= c <= 57 \/ c = 46)%N.
Proof.
  unfold is_host_char, is_plain. intros H.
  apply orb_true_iff in H. destruct H as [H | H].
  - apply orb_true_iff in H. destruct H as [H | H];
      apply andb_true_iff in H; destruct H as [H1 H2];
      apply N.leb_le in H1; apply N.leb_le in H2; lia.
  - apply N.eqb_eq in H. lia.
Qed.

Lemma host_neq (c d : char) :
  is_host_char c = true -> is_host_char d = false -> char_eqb c d = false.
Proof.
  intros Hc Hd. unfold char_eqb. apply N.eqb_neq. intros ->. congruence.
Qed.

Lemma host_remove_char (d : char) (X : str) :
  is_host_char d = false -> forallb is_host_char X = true ->
  remove_char d X = X.
Proof.
  intros Hd. unfold remove_char.
  induction X as [|c X IH]; [reflexivity |]. simpl.
  intros H. apply andb_true_iff in H. destruct H as [Hc H].
  rewrite (host_neq c d Hc Hd). simpl. rewrite (IH H). reflexivity.
Qed.

Lemma host_partition (d : char) (X : str) :
  is_host_char d = false -> forallb is_host_char X = true ->
  UrlParse.partition d X = None.
Proof.
  intros Hd. induction X as [|c X IH]; [reflexivity |]. simpl.
  intros H. apply andb_true_iff in H. destruct H as [Hc H].
  rewrite (host_neq c d Hc Hd), (IH H). reflexivity.
Qed.

Lemma host_has_char (d : char) (X : str) :
  is_host_char d = false -> forallb is_host_char X = true ->
  has_char d X = false.
Proof.
  intros Hd. unfold has_char.
  induction X as [|c X IH]; [reflexivity |]. simpl.
  intros H. apply andb_true_iff in H. destruct H as [Hc H].
  rewrite (IH H), orb_false_r. unfold char_eqb. rewrite N.eqb_sym.
  apply (host_neq c d Hc Hd).
Qed.

Lemma host_splitnetloc (X : str) :
  forallb is_host_char X = true -> UrlParse.splitnetloc X = (X, []).
Proof.
  induction X as [|c X IH]; [reflexivity |]. simpl.
  intros H. apply andb_true_iff in H. destruct H as [Hc H].
  rewrite (IH H). apply host_range in Hc.
  assert (E : ((c =? 47) || (c =? 63) || (c =? 35))%N = false).
  { rewrite !orb_false_iff, !N.eqb_neq. lia. }
  rewrite E. reflexivity.
Qed.

Lemma host_is_ascii (X : str) :
  forallb is_host_char X = true -> UrlParse.is_ascii X = true.
Proof.
  unfold UrlParse.is_ascii. induction X as [|c X IH]; [reflexivity |]. simpl.
  intros H. apply andb_true_iff in H. destruct H as [Hc H].
  rewrite (IH H), andb_true_r. apply host_range in Hc.
  apply N.ltb_lt. lia.
Qed.

Lemma host_lstrip (X : str) :
  forallb is_host_char X = true ->
  lstrip_by (fun c => (c <=? 32)%N) X = X.
Proof.
  destruct X as [|c X]; [reflexivity |]. simpl.
  intros H. apply andb_true_iff in H. destruct H as [Hc _].
  apply host_range in Hc.
  assert (E : (c <=? 32)%N = false) by (apply N.leb_gt; lia).
  rewrite E. reflexivity.
Qed.

Lemma split_char_none (sep : char) (s : str) :
  has_char sep s = false -> split_char sep s = [s].
Proof.
  unfold has_char. induction s as [|c s IH]; [reflexivity |]. simpl.
  intros H. apply orb_false_iff in H. destruct H as [E H].
  unfold char_eqb in *. rewrite N.eqb_sym, E, (IH H). reflexivity.
Qed.

Lemma split_char_hd (sep : char) (label rest : str) :
  has_char sep label = false ->
  hd [] (split_char sep (label ++ sep :: rest)) = label.
Proof.
  unfold has_char. induction label as [|c label IH]; simpl.
  - intros _. unfold char_eqb. rewrite N.eqb_refl. reflexivity.
  - intros H. apply orb_false_iff in H. destruct H as [E H].
    unfold char_eqb in *. rewrite N.eqb_sym, E.
    specialize (IH H).
    destruct (split_char sep (label ++ sep :: rest)) as [|p ps];
      simpl in *; subst; reflexivity.
Qed.

Lemma not_two_slashes (X : str) :
  forallb is_host_char X = true ->
  match X with
  | 47%N :: 47%N :: rest => UrlParse.splitnetloc rest
  | _ => ([], X)
  end = ([], X).
Proof.
  destruct X as [|c X]; [reflexivity |]. simpl forallb.
  intros H. apply andb_true_iff in H. destruct H as [Hc _].
  destruct c as [|p]; [reflexivity |].
  repeat (destruct p as [p|p|]; try reflexivity).
  discriminate.
Qed.

Lemma urlsplit_host (nv : str -> bool) (X : str) :
  forallb is_host_char X = true ->
  UrlParse.urlsplit nv X = Some ([], [], X, [], []).
Proof.
  intros H. unfold UrlParse.urlsplit. cbv zeta.
  rewrite (host_lstrip X H).
  rewrite !(host_remove_char _ X) by (reflexivity || exact H).
  unfold UrlParse.split_scheme.
  rewrite (host_partition 58%N X) by (reflexivity || exact H).
  cbv iota beta. rewrite (not_two_slashes X H).
  simpl has_char. cbv iota beta. simpl xorb.
  rewrite (host_partition 35%N X) by (reflexivity || exact H).
  rewrite (host_partition 63%N X) by (reflexivity || exact H).
  reflexivity.
Qed.

Lemma urlparse_host (nv : str -> bool) (X : str) :
  forallb is_host_char X = true ->
  UrlParse.urlparse nv X
  = Some {| UrlParse.scheme := []; UrlParse.netloc := [];
            UrlParse.path := X; UrlParse.params := [];
            UrlParse.query := []; UrlParse.fragment := [] |}.
Proof.
  intros H. unfold UrlParse.urlparse. rewrite (urlsplit_host nv X H).
  rewrite (host_has_char 59%N X) by (reflexivity || exact H).
  rewrite andb_false_r. reflexivity.
Qed.

Lemma urlsplit_https_host (nv : str -> bool) (X : str) :
  X <> [] -> forallb is_host_char X = true ->
  UrlParse.urlsplit nv (lit "https://" ++ X)
  = Some (lit "https", X, [], [], []).
Proof.
  intros Hne H. unfold UrlParse.urlsplit. cbv zeta.
  change (lstrip_by (fun c => (c <=? 32)%N) (lit "https://" ++ X))
    with (lit "https://" ++ X).
  change (remove_char 9%N (lit "https://" ++ X))
    with (lit "https://" ++ remove_char 9%N X).
  rewrite (host_remove_char 9%N X) by (reflexivity || exact H).
  change (remove_char 13%N (lit "https://" ++ X))
    with (lit "https://" ++ remove_char 13%N X).
  rewrite (host_remove_char 13%N X) by (reflexivity || exact H).
  change (remove_char 10%N (lit "https://" ++ X))
    with (lit "https://" ++ remove_char 10%N X).
  rewrite (host_remove_char 10%N X) by (reflexivity || exact H).
  change (UrlParse.split_scheme (lit "https://" ++ X))
    with (lit "https", lit "//" ++ X).
  cbv iota beta.
  change (lit "//" ++ X) with (47%N :: 47%N :: X). cbv iota beta.
  rewrite (host_splitnetloc X H).
  rewrite (host_has_char 91%N X), (host_has_char 93%N X)
    by (reflexivity || exact H).
  simpl. rewrite (host_is_ascii X H). simpl. rewrite andb_false_r.
  reflexivity.
Qed.

Lemma urlparse_https_host (nv : str -> bool) (X : str) :
  X <> [] -> forallb is_host_char X = true ->
  UrlParse.urlparse nv (lit "https://" ++ X)
  = Some {| UrlParse.scheme := lit "https"; UrlParse.netloc := X;
            UrlParse.path := []; UrlParse.params := [];
            UrlParse.query := []; UrlParse.fragment := [] |}.
Proof.
  intros Hne H. unfold UrlParse.urlparse.
  rewrite (urlsplit_https_host nv X Hne H). reflexivity.
Qed.

Lemma plain_is_host (s : str) :
  forallb is_plain s = true -> forallb is_host_char s = true.
Proof.
  induction s as [|c s IH]; [reflexivity |]. cbn [forallb].
  intros H. apply andb_true_iff in H. destruct H as [Hc H].
  unfold is_host_char at 1. rewrite Hc, (IH H). reflexivity.
Qed.

Lemma plain_no_dot (s : str) :
  forallb is_plain s = true -> has_char 46%N s = false.
Proof.
  unfold has_char. induction s as [|c s IH]; [reflexivity |].
  cbn [forallb existsb].
  intros H. apply andb_true_iff in H. destruct H as [Hc H].
  rewrite (IH H), orb_false_r.
  unfold char_eqb. apply N.eqb_neq. intros <-. discriminate.
Qed.

Lemma plain_lower (s : str) :
  forallb is_plain s = true -> List.map UrlParse.ascii_lower s = s.
Proof.
  induction s as [|c s IH]; [reflexivity |]. cbn [forallb List.map].
  intros H. apply andb_true_iff in H. destruct H as [Hc H].
  rewrite (IH H). f_equal. unfold UrlParse.ascii_lower.
  assert (Hh : is_host_char c = true)
    by (unfold is_host_char; rewrite Hc; reflexivity).
  apply host_range in Hh.
  assert (E : ((65 <=? c) && (c <=? 90))%N = false).
  { apply andb_false_iff.
    destruct (N.leb_spec c 90); [left; apply N.leb_gt; lia | right; reflexivity]. }
  rewrite E. reflexivity.
Qed.

Lemma has_char_app (c : char) (a b : str) :
  has_char c (a ++ b) = has_char c a || has_char c b.
Proof. apply existsb_app. Qed.

Lemma host_app (a b : str) :
  forallb is_host_char a = true -> forallb is_host_char b = true ->
  forallb is_host_char (a ++ b) = true.
Proof. intros Ha Hb. rewrite forallb_app, Ha, Hb. reflexivity. Qed.

Lemma add_http_host (env : Env) (X : str) :
  X <> [] -> forallb is_host_char X = true ->
  add_http env (PStr X)
  = Returns (PStr (if has_char 46%N X then lit "https://" ++ X else X)).
Proof.
  intros Hne H. unfold add_http.
  assert (Ht : truthy (PStr X) = true)
    by (apply (proj2 (nonempty_true X)); exact Hne).
  rewrite Ht. cbn [negb]. rewrite (urlparse_host _ X H).
  cbn [UrlParse.scheme UrlParse.path].
  rewrite (split_char_none 47%N X)
    by (apply host_has_char; [reflexivity | exact H]).
  cbn [hd]. change (negb (nonempty [])) with true. cbv iota.
  destruct (has_char 46%N X); reflexivity.
Qed.

Lemma add_http_https_host (env : Env) (X : str) :
  X <> [] -> forallb is_host_char X = true ->
  add_http env (PStr (lit "https://" ++ X))
  = Returns (PStr (lit "https://" ++ X)).
Proof.
  intros Hne H. unfold add_http.
  change (negb (truthy (PStr (lit "https://" ++ X)))) with false. cbv iota.
  rewrite (urlparse_https_host _ X Hne H).
  cbn [UrlParse.scheme]. change (negb (nonempty (lit "https"))) with false.
  cbv iota. unfold UrlParse.urlunparse, UrlParse.urlunsplit.
  cbn [UrlParse.scheme UrlParse.netloc UrlParse.path UrlParse.params
       UrlParse.query UrlParse.fragment].
  change (UrlParse.nonempty []) with false. cbv iota.
  assert (E : UrlParse.nonempty X = true)
    by (apply (proj2 (nonempty_true X)); exact Hne).
  rewrite E. cbn [orb andb]. change (UrlParse.nonempty (lit "https")) with true.
  cbv iota. rewrite app_nil_r. reflexivity.
Qed.

Lemma www_prefix (s rest : str) :
  has_char 46%N s = false -> s <> lit "www" ->
  startswith (lit "www.") (s ++ 46%N :: rest) = false.
Proof.
  change (lit "www.") with [119; 119; 119; 46]%N.
  change (lit "www") with [119; 119; 119]%N.
  intros Hd Hne.
  destruct s as [|a [|b [|c [|d s]]]]; cbn [app startswith].
  - reflexivity.
  - destruct (char_eqb 119%N a); reflexivity.
  - destruct (char_eqb 119%N a); [| reflexivity].
    destruct (char_eqb 119%N b); reflexivity.
  - destruct (char_eqb 119%N a) eqn:Ea; [| reflexivity].
    destruct (char_eqb 119%N b) eqn:Eb; [| reflexivity].
    destruct (char_eqb 119%N c) eqn:Ec; [| reflexivity].
    apply char_eqb_eq in Ea, Eb, Ec. subst.
    exfalso. apply Hne. reflexivity.
  - unfold has_char in Hd. cbn [existsb] in Hd.
    apply orb_false_iff in Hd. destruct Hd as [_ Hd].
    apply orb_false_iff in Hd. destruct Hd as [_ Hd].
    apply orb_false_iff in Hd. destruct Hd as [_ Hd].
    apply orb_false_iff in Hd. destruct Hd as [Hd _].
    rewrite Hd. cbn [andb].
    destruct (char_eqb 119%N a); [| reflexivity].
    destruct (char_eqb 119%N b); [| reflexivity].
    destruct (char_eqb 119%N c); reflexivity.
Qed.

Section CompanyName.
Variable unicode_capitalize : str -> str.

Lemma capitalize_plain (c : char) (label : str) :
  forallb is_plain (c :: label) = true ->
  capitalize unicode_capitalize (c :: label) = ascii_upper c :: label.
Proof.
  intros H. unfold capitalize.
  rewrite (host_is_ascii _ (plain_is_host _ H)).
  simpl in H. apply andb_true_iff in H. destruct H as [_ H].
  rewrite (plain_lower label H). reflexivity.
Qed.

(** The name derived from a URL that the normalizer turns into
    [https://] followed by the host [X]. *)
Lemma company_name_of_netloc (env : Env) (inp : Inputs) (X : str) :
  company_url inp <> [] ->
  X <> [] -> forallb is_host_char X = true ->
  add_http env (PStr (company_url inp))
  = Returns (PStr (lit "https://" ++ X)) ->
  company_name unicode_capitalize env inp
  = capitalize unicode_capitalize
      (hd [] (split_char 46%N
                (if startswith (lit "www.") X then skipn 4 X else X))).
Proof.
  intros Hu Hne H Ha. unfold company_name.
  apply nonempty_true in Hu. rewrite Hu, Ha.
  rewrite (urlparse_https_host _ X Hne H). reflexivity.
Qed.

Lemma domain_is_host (c : char) (label rest : str) :
  forallb is_plain (c :: label) = true ->
  forallb is_host_char rest = true ->
  forallb is_host_char ((c :: label) ++ lit "." ++ rest) = true.
Proof.
  intros Hl Hr. apply host_app; [apply plain_is_host; exact Hl |].
  apply host_app; [reflexivity | exact Hr].
Qed.

Lemma domain_has_dot (c : char) (label rest : str) :
  has_char 46%N ((c :: label) ++ lit "." ++ rest) = true.
Proof.
  rewrite has_char_app. apply orb_true_iff. right. reflexivity.
Qed.

(** X17.  For a website typed as a host name in lower case letters and
    digits, the company name is the first label of the host with its
    first letter in upper case.  A leading [www.] is dropped,
    and the scheme [https://] makes no difference: the four spellings
    give the same name. *)
Theorem company_name_of_a_domain (env : Env) (inp : Inputs) (c : char)
    (label rest : str) :
  forallb is_plain (c :: label) = true ->
  forallb is_host_char rest = true ->
  company_url inp = lit "www." ++ (c :: label) ++ lit "." ++ rest
  \/ company_url inp = lit "https://www." ++ (c :: label) ++ lit "." ++ rest
  \/ (c :: label <> lit "www"
      /\ (company_url inp = (c :: label) ++ lit "." ++ rest
          \/ company_url inp
             = lit "https://" ++ (c :: label) ++ lit "." ++ rest)) ->
  company_name unicode_capitalize env inp = ascii_upper c :: label.
Proof.
  intros Hl Hr Hurl.
  pose proof (domain_is_host c label rest Hl Hr) as HD.
  pose proof (plain_no_dot _ Hl) as Hnd.
  set (D := (c :: label) ++ lit "." ++ rest) in *.
  assert (HW : forallb is_host_char (lit "www." ++ D) = true)
    by (apply host_app; [reflexivity | exact HD]).
  assert (Hhd : hd [] (split_char 46%N D) = c :: label)
    by (apply (split_char_hd 46%N (c :: label) rest); exact Hnd).
  assert (Hwww : company_url inp <> [] ->
                 add_http env (PStr (company_url inp))
                 = Returns (PStr (lit "https://" ++ (lit "www." ++ D))) ->
                 company_name unicode_capitalize env inp
                 = ascii_upper c :: label).
  { intros Hne Ha.
    rewrite (company_name_of_netloc env inp (lit "www." ++ D) Hne
               ltac:(discriminate) HW Ha).
    change (startswith (lit "www.") (lit "www." ++ D)) with true. cbv iota.
    change (skipn 4 (lit "www." ++ D)) with D.
    rewrite Hhd. apply capitalize_plain. exact Hl. }
  assert (Hbare : c :: label <> lit "www" ->
                  company_url inp <> [] ->
                  add_http env (PStr (company_url inp))
                  = Returns (PStr (lit "https://" ++ D)) ->
                  company_name unicode_capitalize env inp
                  = ascii_upper c :: label).
  { intros Hn Hne Ha.
    rewrite (company_name_of_netloc env inp D Hne ltac:(discriminate) HD Ha).
    unfold D at 1. change (lit "." ++ rest) with (46%N :: rest).
    rewrite (www_prefix (c :: label) rest Hnd Hn).
    rewrite Hhd. apply capitalize_plain. exact Hl. }
  destruct Hurl as [E | [E | [Hn [E | E]]]].
  - apply Hwww; rewrite E; [discriminate |].
    rewrite (add_http_host env (lit "www." ++ D) ltac:(discriminate) HW).
    reflexivity.
  - apply Hwww; rewrite E; [discriminate |].
    apply (add_http_https_host env (lit "www." ++ D) ltac:(discriminate) HW).
  - apply (Hbare Hn); rewrite E; [discriminate |].
    rewrite (add_http_host env D ltac:(discriminate) HD).
    unfold D. rewrite domain_has_dot. reflexivity.
  - apply (Hbare Hn); rewrite E; [discriminate |].
    apply (add_http_https_host env D ltac:(discriminate) HD).
Qed.

(** X18.  The fallback name "CompanyName" is used when no URL is given
    and when normalizing the URL raises.  A URL of letters and digits
    only, with no dot and no scheme, is parsed without a host: the
    company name is then the empty string, not the fallback, and the
    file name of the workbook starts with the underscore. *)
Theorem company_name_fallback (env : Env) (inp : Inputs) :
  (company_url inp = [] ->
   company_name unicode_capitalize env inp = lit "CompanyName")
  /\ (add_http env (PStr (company_url inp)) = Raises ->
      company_name unicode_capitalize env inp = lit "CompanyName")
  /\ (company_url inp <> [] ->
      forallb is_plain (company_url inp) = true ->
      company_name unicode_capitalize env inp = []
      /\ forall lead_objective_str,
           filename (company_name unicode_capitalize env inp)
                    lead_objective_str
           = lit "_" ++ filename_safe_objective lead_objective_str
             ++ lit ".xlsx").
Proof.
  split; [| split].
  - intros E. unfold company_name. rewrite E. reflexivity.
  - intros E. unfold company_name. rewrite E.
    destruct (nonempty (company_url inp)); reflexivity.
  - intros Hne Hp.
    assert (E : company_name unicode_capitalize env inp = []).
    { unfold company_name.
      rewrite (proj2 (nonempty_true _) Hne).
      rewrite (add_http_host env _ Hne (plain_is_host _ Hp)).
      rewrite (plain_no_dot _ Hp).
      rewrite (urlparse_host _ _ (plain_is_host _ Hp)). reflexivity. }
    split; [exact E |]. intros lead. rewrite E. reflexivity.
Qed.

End CompanyName.

Lemma company_name_of_a_domain_witness :
  company_name (fun s => s) Script.silent (demo_inputs (lit "Demo Booking"))
  = lit "Example".
Proof.
  apply (company_name_of_a_domain (fun s => s) Script.silent
           (demo_inputs (lit "Demo Booking")) 101%N (lit "xample")
           (lit "com")).
  - reflexivity.
  - reflexivity.
  - right. right. split; [discriminate |]. left. reflexivity.
Defined.

(** *** From the variants to the rows of a table *)

Lemma existsb_eqb_in (A : Type) (eqb : A -> A -> bool) :
  (forall a b, eqb a b = true <-> a = b) ->
  forall x l, existsb (eqb x) l = true <-> In x l.
Proof.
  intros Heq x l. rewrite existsb_exists. split.
  - intros [y [Hin E]]. apply Heq in E. subst. exact Hin.
  - intros H. exists x. split; [exact H | apply Heq; reflexivity].
Qed.

Lemma uniq_app (A : Type) (eqb : A -> A -> bool) (a b : list A) :
  forall seen, uniq eqb seen (a ++ b) = uniq eqb (uniq eqb seen a) b.
Proof.
  induction a as [|x a IH]; intros seen; cbn [uniq app]; [reflexivity |].
  destruct (existsb (eqb x) seen); apply IH.
Qed.

Lemma uniq_uniq (A : Type) (eqb : A -> A -> bool) :
  (forall a b, eqb a b = true <-> a = b) ->
  forall a s0 seen,
    uniq eqb seen (uniq eqb s0 a) = uniq eqb (uniq eqb seen s0) a.
Proof.
  intros Heq. induction a as [|x a IH]; intros s0 seen; cbn [uniq].
  - reflexivity.
  - destruct (existsb (eqb x) s0) eqn:E.
    + rewrite IH.
      assert (E' : existsb (eqb x) (uniq eqb seen s0) = true).
      { apply (existsb_eqb_in _ _ Heq). apply (uniq_in _ _ Heq). right.
        apply (existsb_eqb_in _ _ Heq). exact E. }
      rewrite E'. reflexivity.
    + rewrite IH, uniq_app. cbn [uniq].
      destruct (existsb (eqb x) (uniq eqb seen s0)); reflexivity.
Qed.

Lemma existsb_LStr (x : str) (seen : list str) :
  existsb (label_eqb (LStr x)) (List.map LStr seen)
  = existsb (str_eqb x) seen.
Proof.
  induction seen as [|y seen IH]; [reflexivity |].
  cbn [List.map existsb label_eqb]. rewrite IH. reflexivity.
Qed.

Lemma uniq_LStr (l : list str) :
  forall seen,
    uniq label_eqb (List.map LStr seen) (List.map LStr l)
    = List.map LStr (uniq str_eqb seen l).
Proof.
  induction l as [|x l IH]; intros seen; cbn [uniq List.map]; [reflexivity |].
  rewrite existsb_LStr. destruct (existsb (str_eqb x) seen); [apply IH |].
  rewrite <- IH, map_app. reflexivity.
Qed.

Lemma uniq_record_columns (rs : list (list dict)) :
  forall seen,
    uniq str_eqb seen (List.concat (List.map record_columns rs))
    = uniq str_eqb seen
        (List.concat (List.map (List.map fst) (List.concat rs))).
Proof.
  induction rs as [|r rs IH]; intros seen; [reflexivity |].
  cbn [List.map List.concat].
  rewrite map_app, concat_app, !uniq_app.
  unfold record_columns at 1.
  rewrite (uniq_uniq _ _ str_eqb_eq). cbn [uniq]. apply IH.
Qed.

Lemma column_of_map (k : str) (f : str -> list cell) (cols : list str) :
  In k cols ->
  column_of (LStr k) (List.map (fun k => (LStr k, f k)) cols) = Some (f k).
Proof.
  induction cols as [|k0 cols IH]; [contradiction |].
  intros H. cbn [List.map column_of label_eqb].
  destruct (str_eqb k k0) eqn:E.
  - apply str_eqb_eq in E. subst. reflexivity.
  - destruct H as [-> | H]; [rewrite str_eqb_refl in E; discriminate |].
    apply IH. exact H.
Qed.

Lemma column_of_map_none (k : str) (f : str -> list cell)
    (cols : list str) :
  ~ In k cols ->
  column_of (LStr k) (List.map (fun k => (LStr k, f k)) cols) = None.
Proof.
  induction cols as [|k0 cols IH]; [reflexivity |].
  intros H. cbn [List.map column_of label_eqb].
  destruct (str_eqb k k0) eqn:E.
  - apply str_eqb_eq in E. subst. exfalso. apply H. left. reflexivity.
  - apply IH. intros Hin. apply H. right. exact Hin.
Qed.

Lemma dict_get_none (k : str) (d : dict) :
  ~ In k (List.map fst d) -> dict_get k d = None.
Proof.
  induction d as [|[k0 v] d IH]; [reflexivity |].
  intros H. cbn [dict_get].
  destruct (str_eqb k k0) eqn:E.
  - apply str_eqb_eq in E. subst. exfalso. apply H. left. reflexivity.
  - apply IH. intros Hin. apply H. right. exact Hin.
Qed.

Lemma from_records_column (k : str) (r : list dict) :
  match column_of (LStr k) (data (from_records r)) with
  | Some cs => cs
  | None => repeat NaN (nrows (from_records r))
  end = List.map (record_cell k) r.
Proof.
  unfold from_records. cbn [data nrows].
  destruct (in_dec (list_eq_dec N.eq_dec) k (record_columns r)) as [Hin | Hn].
  - rewrite (column_of_map k (fun k => List.map (record_cell k) r) _ Hin).
    reflexivity.
  - rewrite (column_of_map_none k (fun k => List.map (record_cell k) r) _ Hn).
    assert (H : forall rec, In rec r -> record_cell k rec = NaN).
    { intros rec Hrec. unfold record_cell. rewrite dict_get_none; [reflexivity |].
      intros Hk. apply Hn. apply record_columns_in. exists rec.
      split; assumption. }
    clear Hn. induction r as [|rec r IH]; [reflexivity |].
    cbn [List.length repeat List.map].
    rewrite (H rec (or_introl eq_refl)), IH; [reflexivity |].
    intros rec' Hrec'. apply H. right. exact Hrec'.
Qed.

Lemma concat_from_records (rs : list (list dict)) :
  concat_frames (List.map from_records rs) = from_records (List.concat rs).
Proof.
  unfold concat_frames.
  assert (Hn : list_sum (List.map nrows (List.map from_records rs))
               = List.length (List.concat rs)).
  { induction rs as [|r rs IH]; [reflexivity |].
    cbn [List.map List.concat]. rewrite length_app, <- IH. reflexivity. }
  assert (Hc : uniq label_eqb []
                 (List.concat (List.map columns (List.map from_records rs)))
               = List.map LStr (record_columns (List.concat rs))).
  { rewrite map_map.
    rewrite (map_ext _ (fun r => List.map LStr (record_columns r)))
      by (intros r; apply columns_from_records).
    rewrite <- (map_map record_columns (List.map LStr)), <- concat_map.
    rewrite (uniq_LStr _ []). unfold record_columns at 2.
    rewrite uniq_record_columns. reflexivity. }
  rewrite Hn, Hc. unfold from_records at 2. f_equal.
  rewrite map_map. apply map_ext. intros k. f_equal.
  rewrite map_map.
  rewrite (map_ext _ (fun r => List.map (record_cell k) r))
    by (intros r; apply from_records_column).
  rewrite concat_map. reflexivity.
Qed.

(** X19.  The table of a channel is the table of all the variants:
    concatenating the frames of the objectives, in the order of the
    rounds, gives the same table as building one frame from the
    variants of the first objective followed by those of the second
    and of the third.  It has one row per variant, and it is the
    empty frame when there is no variant at all. *)
Theorem channel_table_lists_all_variants (rs : list (list dict)) :
  merge_frames (List.map from_records rs) = from_records (List.concat rs)
  /\ nrows (merge_frames (List.map from_records rs))
     = list_sum (List.map (@List.length dict) rs)
  /\ (Forall (fun r => r = []) rs ->
      merge_frames (List.map from_records rs) = empty_frame).
Proof.
  assert (H : merge_frames (List.map from_records rs)
              = from_records (List.concat rs)).
  { unfold merge_frames. destruct rs as [|r rs]; [reflexivity |].
    cbn [is_nil List.map]. apply (concat_from_records (r :: rs)). }
  split; [exact H |]. split.
  - rewrite H. cbn [nrows from_records]. apply length_concat.
  - intros HF. rewrite H. clear H.
    assert (E : List.concat rs = []).
    { induction HF as [|r rs' Hr _ IH]; [reflexivity |].
      subst. exact IH. }
    rewrite E. reflexivity.
Qed.

(** X20.  An answer that holds a list of objects under the key of its
    channel is accepted, and every object becomes one row, in order:
    the frame has a column for every key that occurs, and the cell of
    a variant is its value under the key, or NaN when the variant
    lacks the key.  The Email table is that frame; a LinkedIn or
    Facebook round appends it to the frames of the channel. *)
Theorem one_row_per_variant (env : Env) (key : str) (d : dict)
    (l : list pyval) (recs : list dict) :
  dict_get key d = Some (PList l) ->
  all_dicts l = Some recs ->
  frame_of_key env key (PDict d) = Some (from_records recs)
  /\ (forall dfs,
        collect_frame env key (PDict d) dfs
        = Returns (dfs ++ [from_records recs]))
  /\ (key = lit "emails" ->
      email_table env (PDict d) = Returns (from_records recs))
  /\ nrows (from_records recs) = List.length recs
  /\ (forall k,
        In k (record_columns recs) ->
        slots k (from_records recs)
        = List.map (fun r => match dict_get k r with
                             | Some v => Val v
                             | None => NaN
                             end) recs).
Proof.
  intros Hg Ha.
  assert (Hf : frame_of_key env key (PDict d) = Some (from_records recs)).
  { unfold frame_of_key, subscript. rewrite Hg. cbn [DataFrame_of].
    destruct l as [|x l].
    - cbn [all_dicts] in Ha. inversion Ha. reflexivity.
    - rewrite Ha. reflexivity. }
  split; [exact Hf |]. split; [| split; [| split]].
  - intros dfs. unfold collect_frame.
    rewrite (accepted_dict _ _ _ Hg), Hf. reflexivity.
  - intros ->. unfold email_table.
    rewrite (accepted_dict _ _ _ Hg), Hf. reflexivity.
  - reflexivity.
  - intros k Hk. unfold slots, from_records. cbn [data].
    rewrite (column_of_map k (fun k => List.map (record_cell k) recs) _ Hk).
    reflexivity.
Qed.

Lemma one_row_per_variant_witness :
  email_table Script.silent
    (PDict [(lit "emails",
             PList [PDict [(lit "Headline", PStr (lit "Hi"))];
                    PDict [(lit "CTA", PStr (lit "Go"))]])])
  = Returns (from_records [[(lit "Headline", PStr (lit "Hi"))];
                           [(lit "CTA", PStr (lit "Go"))]]).
Proof.
  apply (one_row_per_variant Script.silent (lit "emails")
           [(lit "emails",
             PList [PDict [(lit "Headline", PStr (lit "Hi"))];
                    PDict [(lit "CTA", PStr (lit "Go"))]])]
           [PDict [(lit "Headline", PStr (lit "Hi"))];
            PDict [(lit "CTA", PStr (lit "Go"))]]
           [[(lit "Headline", PStr (lit "Hi"))];
            [(lit "CTA", PStr (lit "Go"))]]
           eq_refl eq_refl).
  reflexivity.
Defined.

(** *** The test after the summaries *)

(** X21.  Whenever there is a source, the combined summary is not
    empty, because every entry starts with the label of its source;
    so the test that stops the run after the summaries is decided by
    the word "Error" alone: it stops the run exactly when every entry,
    label included, holds that word. *)
Theorem summary_test_reads_error (env : Env) (items : list (str * str))
    (l : list event) :
  items <> [] ->
  exists entries,
    fst (summarize_all env items [] l) = Done entries
    /\ nonempty (combine_summaries entries) = true
    /\ summary_halts entries = forallb (contains (lit "Error")) entries.
Proof.
  intros Hne.
  destruct (summarize_all_events env items [] l) as [entries [He [HF _]]].
  exists entries. rewrite He. split; [reflexivity |].
  assert (Hc : nonempty (combine_summaries entries) = true).
  { destruct HF as [|it e its es [summary [-> _]] _]; [congruence |].
    apply combine_nonempty.
    destruct (summary_entry_cons (fst it) summary) as [t ->]. discriminate. }
  split; [exact Hc |]. unfold summary_halts. rewrite Hc. reflexivity.
Qed.

Lemma summary_test_reads_error_witness :
  exists entries,
    fst (summarize_all Script.silent
           [(lit "website", lit "Acme sells widgets.")] [] [])
    = Done entries
    /\ nonempty (combine_summaries entries) = true
    /\ summary_halts entries = forallb (contains (lit "Error")) entries.
Proof.
  apply (summary_test_reads_error Script.silent
           [(lit "website", lit "Acme sells widgets.")] []).
  discriminate.
Defined.

(** *** A deck of blank text boxes *)

Lemma summary_halts_single (name summary : str) :
  contains (lit "Error") name = false ->
  contains (lit "Error") summary = false ->
  summary_halts [summary_entry name summary] = false.
Proof.
  intros Hn Hs. apply summary_halts_head.
  - destruct (summary_entry_cons name summary) as [t ->]. discriminate.
  - rewrite contains_error_entry. unfold Error. rewrite Hn, Hs. reflexivity.
Qed.

(** X22.  A run whose only source is a slide deck with at least one
    text box, all of them blank, passes the test on the extracted
    texts, makes no summarization call, and goes on to the generation
    step with a summary that only says that no content was extracted,
    as long as the name of the deck does not hold the word "Error". *)
Theorem blank_deck_reaches_generation (env : Env) (rd : Sources.Readers)
    (inp : Inputs) (file : UploadedFile)
    (slides : list (list (option str))) :
  validate inp [] = (Done tt, []) ->
  company_url inp = [] ->
  uploaded_context_files inp = [file] ->
  type file = ppt_type ->
  Sources.Presentation rd file
  = Returns (List.map (List.map (@Returns (option str))) slides) ->
  shape_texts slides <> [] ->
  Forall (fun t => strip t = []) (shape_texts slides) ->
  contains (lit "Error") (name file) = false ->
  run (Sources.with_readers rd env) inp []
  = generate_tables (Sources.with_readers rd env) inp
      (summary_entry (name file) (no_content (name file))) [Sleep].
Proof.
  intros Hv Hurl Hfiles Htype Hprs Hshape Hblank Hname.
  set (text := lines_of (shape_texts slides)).
  assert (Hne : nonempty text = true).
  { apply nonempty_true. intros E. apply Hshape.
    apply lines_of_nil. exact E. }
  assert (Hstrip : strip text = []).
  { apply strip_blank. apply blank_lines_of. exact Hblank. }
  assert (He : extract_context (Sources.with_readers rd env) inp []
               = (Done [(name file, text)], [])).
  { unfold extract_context, bind. rewrite Hurl, Hfiles.
    cbn [nonempty str_eqb negb ret extract_files].
    unfold file_content. rewrite Htype.
    change (str_eqb ppt_type pdf_type) with false. cbv iota.
    rewrite str_eqb_refl.
    unfold Sources.with_readers. cbn [World.extract_text_from_ppt].
    rewrite Hprs. unfold Sources.extract_text_from_ppt.
    rewrite ppt_slides_texts. cbn [app]. fold text. rewrite Hne.
    reflexivity. }
  unfold run. rewrite (bind_done _ _ _ _ _ _ _ Hv).
  rewrite (bind_done _ _ _ _ _ _ _ He). cbn [is_nil].
  assert (Hs : summarize_all (Sources.with_readers rd env)
                 [(name file, text)] [] []
               = (Done [summary_entry (name file) (no_content (name file))],
                  [Sleep])).
  { cbn [summarize_all]. unfold bind.
    rewrite (summarize_text_blank _ text _ (name file) [] Hstrip).
    reflexivity. }
  rewrite (bind_done _ _ _ _ _ _ _ Hs).
  rewrite (summary_halts_single (name file) (no_content (name file)) Hname).
  - reflexivity.
  - change (lit "Error") with Error. rewrite contains_error_no_content.
    exact Hname.
Qed.

Lemma blank_deck_reaches_generation_witness :
  run (Sources.with_readers Cases.deck_readers Script.silent)
      Cases.deck_inputs []
  = generate_tables (Sources.with_readers Cases.deck_readers Script.silent)
      Cases.deck_inputs
      (summary_entry (lit "deck.pptx") (no_content (lit "deck.pptx")))
      [Sleep].
Proof.
  apply (blank_deck_reaches_generation Script.silent Cases.deck_readers
           Cases.deck_inputs Cases.deck [[Some []]]).
  - reflexivity.
  - reflexivity.
  - reflexivity.
  - reflexivity.
  - reflexivity.
  - discriminate.
  - constructor; [reflexivity | constructor].
  - reflexivity.
Defined.

(** *** The budget of the summaries *)

Lemma nonempty_strip_blank (text : str) :
  nonempty (strip text) = negb (blank text).
Proof.
  destruct (blank text) eqn:E.
  - apply strip_blank in E. rewrite E. reflexivity.
  - apply nonempty_true. intros H. apply strip_blank in H. congruence.
Qed.

Lemma summary_events_budgeted (items : list (str * str)) :
  summary_events items = budgeted_events items.
Proof.
  unfold summary_events, budgeted_events. apply flat_map_ext. intros it.
  unfold summary_call, budgeted_call, max_chars_for.
  rewrite nonempty_strip_blank. destruct (blank (snd it)); reflexivity.
Qed.

Lemma filter_none (A : Type) (f : A -> bool) (l : list A) :
  Forall (fun x => f x = false) l -> filter f l = [].
Proof.
  induction 1 as [|x l Hx _ IH]; [reflexivity |].
  simpl. rewrite Hx. exact IH.
Qed.

(** C8.  The summaries step makes, for every extracted source whose
    text is not blank, exactly one call, in the order of the sources
    and with a pause after every source: the call carries the budget
    3000 when the text is longer than 5000 characters and 1800
    otherwise, and the first 40000 characters of the text.  It makes no
    other call, and the summarization calls of a run are those of its
    extracted sources.  Every round of the loop, also one on a blank
    text, hands the summarizer this budget. *)
Theorem summarization_budget (env : Env) (items : list (str * str))
    (summaries : list str) (l : list event) :
  snd (summarize_all env items summaries l) = l ++ budgeted_events items
  /\ (forall name text rest,
        summarize_all env ((name, text) :: rest) summaries
        = bind (summarize_text env text
                  (if (5000 <? len_str text)%Z then 3000%Z else 1800%Z) name)
            (fun summary =>
               bind sleep
                 (fun _ =>
                    summarize_all env rest
                      (summaries ++ [summary_entry name summary]))))
  /\ (forall name text,
        In (name, text) items -> blank text = false ->
        In (budgeted_call (name, text)) (budgeted_events items))
  /\ (forall name max_chars t,
        In (Chat (Summarize name max_chars t)) (budgeted_events items) ->
        exists text,
          In (name, text) items
          /\ blank text = false
          /\ Chat (Summarize name max_chars t) = budgeted_call (name, text))
  /\ (forall name text,
        exists max_chars t,
          budgeted_call (name, text) = Chat (Summarize name max_chars t)
          /\ (max_chars = 3000%Z <-> (5000 < len_str text)%Z)
          /\ (max_chars = 1800%Z <-> (len_str text <= 5000)%Z)
          /\ len_str t = Z.min 40000 (len_str text)
          /\ exists rest, text = t ++ rest)
  /\ (forall inp,
        exists extracted,
          (extracted = []
           \/ extract_context env inp [] = (Done extracted, []))
          /\ filter is_summarize (snd (run env inp []))
             = filter is_summarize (budgeted_events extracted)).
Proof.
  split; [| split; [| split; [| split; [| split]]]].
  - destruct (summarize_all_events env items summaries l)
      as [entries [He _]].
    rewrite He, summary_events_budgeted. reflexivity.
  - intros name text rest. reflexivity.
  - intros name text Hin Hb. unfold budgeted_events.
    apply in_flat_map. exists (name, text). split; [exact Hin |].
    cbn [snd]. rewrite Hb. left. reflexivity.
  - intros name max_chars t Hin. unfold budgeted_events in Hin.
    apply in_flat_map in Hin. destruct Hin as [[name' text] [Hit Hin]].
    cbn [snd] in Hin. destruct (blank text) eqn:Hb.
    + destruct Hin as [Hin | []]. discriminate.
    + destruct Hin as [Hin | [Hin | []]]; [| discriminate].
      exists text. unfold budgeted_call in Hin. cbn [fst snd] in Hin.
      inversion Hin; subst. split; [exact Hit |]. split; [exact Hb |].
      reflexivity.
  - intros name text. eexists _, _. split; [reflexivity |]. cbn [snd].
    split; [| split; [| split]].
    + destruct (Z.ltb_spec 5000 (len_str text)); split; intros;
        try lia; try discriminate; reflexivity.
    + destruct (Z.ltb_spec 5000 (len_str text)); split; intros;
        try lia; try discriminate; reflexivity.
    + apply len_slice_to. lia.
    + exists (skipn (Z.to_nat 40000) text). unfold slice_to.
      symmetry. apply firstn_skipn.
  - intros inp.
    destruct (run_log env inp) as (extracted & gen & Hl & Hi & Hg & _).
    exists extracted. split; [exact Hi |].
    rewrite Hl, filter_app, summary_events_budgeted.
    rewrite (filter_none _ is_summarize gen), app_nil_r; [reflexivity |].
    destruct Hg as [-> | (summary & pre & r & post & Hp & ->)];
      [constructor |].
    pose proof (planned_generate inp summary) as HF. rewrite Hp in HF.
    apply Forall_app in HF. destruct HF as [H1 H2].
    apply Forall_app. split; [apply calls_no_summarize; exact H1 |].
    inversion H2; subst. constructor; [assumption | constructor].
Qed.

Lemma summarization_budget_witness :
  snd (summarize_all Script.silent
         [(lit "website", lit "Acme builds widgets."); (lit "a.pdf", [10%N])]
         [] [])
  = [Chat (Summarize (lit "website") 1800 (lit "Acme builds widgets."));
     Sleep; Sleep].
Proof.
  exact (proj1 (summarization_budget Script.silent
                  [(lit "website", lit "Acme builds widgets.");
                   (lit "a.pdf", [10%N])] [] [])).
Defined.

(** *** The tables of the variants *)
















(** *** The scheme of a URL *)







Section CharClass.
Variable P : char -> bool.





End CharClass.








(** *** The first fenced block *)

Lemma lstrip_app (x y : str) :
  lstrip_by isspace (x ++ y)
  = if blank x then lstrip_by isspace y else lstrip_by isspace x ++ y.
Proof.
  unfold blank. induction x as [|c x IH]; [reflexivity |].
  cbn [app lstrip_by forallb]. destruct (isspace c); [exact IH | reflexivity].
Qed.

Lemma lstrip_before_fence (a post : str) :
  lstrip_by isspace (a ++ fence ++ post)
  = lstrip_by isspace a ++ fence ++ post.
Proof.
  rewrite lstrip_app. destruct (blank a) eqn:E; [| reflexivity].
  apply lstrip_nil_iff in E. rewrite E. reflexivity.
Qed.

Lemma rstrip_cons (c : char) (a : str) :
  rstrip_by isspace (c :: a)
  = if blank (c :: a) then [] else c :: rstrip_by isspace a.
Proof.
  unfold rstrip_by. cbn [rev]. rewrite lstrip_app, blank_rev.
  unfold blank at 2. cbn [forallb]. fold (blank a).
  destruct (blank a) eqn:E.
  - assert (E' : lstrip_by isspace (rev a) = []).
    { apply lstrip_nil_iff. rewrite blank_rev. exact E. }
    rewrite E', andb_true_r. cbn [lstrip_by].
    destruct (isspace c); reflexivity.
  - rewrite andb_false_r, rev_app_distr. reflexivity.
Qed.

Lemma next_fence_tail (c : char) (a post : str) :
  next_fence ((c :: a) ++ fence ++ post) (c :: a) post ->
  next_fence (a ++ fence ++ post) a post.
Proof.
  intros [_ Hmin]. split; [reflexivity |]. intros a1 a2 H.
  specialize (Hmin (c :: a1) a2). cbn [app List.length] in Hmin.
  rewrite H in Hmin. specialize (Hmin eq_refl). lia.
Qed.

Lemma next_fence_suffix (x a post : str) :
  next_fence ((x ++ a) ++ fence ++ post) (x ++ a) post ->
  next_fence (a ++ fence ++ post) a post.
Proof.
  induction x as [|c x IH]; [intros H; exact H |].
  intros H. apply IH. exact (next_fence_tail c (x ++ a) post H).
Qed.

Lemma closes_next_fence (a post : str) :
  next_fence (a ++ fence ++ post) a post ->
  closes (a ++ fence ++ post) = blank a.
Proof.
  intros [_ Hmin]. unfold closes. rewrite lstrip_before_fence.
  destruct (blank a) eqn:E.
  - apply lstrip_nil_iff in E. rewrite E. reflexivity.
  - destruct (startswith fence (lstrip_by isspace a ++ fence ++ post))
      eqn:Es; [| reflexivity].
    exfalso. destruct (startswith_split _ _ Es) as [rest Hr].
    destruct (lstrip_suffix a) as [sp [Ha _]].
    destruct (lstrip_by isspace a) as [|c u] eqn:El.
    + apply lstrip_nil_iff in El. congruence.
    + specialize (Hmin sp rest).
      assert (H : a ++ fence ++ post = sp ++ fence ++ rest).
      { rewrite Ha at 1. rewrite <- app_assoc. f_equal. exact Hr. }
      specialize (Hmin H). rewrite Ha, length_app in Hmin.
      cbn [List.length] in Hmin. lia.
Qed.

Lemma lazy_group_next_fence (a post : str) :
  next_fence (a ++ fence ++ post) a post ->
  forall acc,
    lazy_group (a ++ fence ++ post) acc
    = Some (rev acc ++ rstrip_by isspace a).
Proof.
  induction a as [|c a IH]; intros Hn acc; rewrite lazy_group_unfold.
  - change (closes ([] ++ fence ++ post)) with true.
    change (rstrip_by isspace []) with (@nil char).
    rewrite app_nil_r. reflexivity.
  - rewrite (closes_next_fence _ _ Hn), rstrip_cons.
    destruct (blank (c :: a)); [rewrite app_nil_r; reflexivity |].
    cbn [app]. rewrite (IH (next_fence_tail _ _ _ Hn)).
    cbn [rev]. rewrite <- app_assoc. reflexivity.
Qed.

Lemma match_here_next_fence (label a post : str) :
  Forall2 (fun p c => label_char p c = true) (lit "json") label ->
  next_fence (a ++ fence ++ post) a post ->
  match_here (fence ++ label ++ a ++ fence ++ post) = Some (strip a).
Proof.
  intros HF Hn. unfold match_here, after_open.
  change (startswith fence (fence ++ label ++ a ++ fence ++ post)) with true.
  change (skipn 3 (fence ++ label ++ a ++ fence ++ post))
    with (label ++ a ++ fence ++ post).
  cbv iota. rewrite (label_prefix_app _ _ _ HF).
  apply greedy_spaces_found.
  destruct (span_facts (a ++ fence ++ post)) as [_ [_ H3]].
  rewrite H3, lstrip_before_fence.
  destruct (lstrip_suffix a) as [sp [Ha _]].
  assert (Hn' : next_fence (lstrip_by isspace a ++ fence ++ post)
                  (lstrip_by isspace a) post).
  { apply (next_fence_suffix sp). rewrite <- Ha. exact Hn. }
  rewrite (lazy_group_next_fence _ _ Hn' []). reflexivity.
Qed.

Lemma after_open_opens (s r : str) :
  after_open s = Some r -> exists label, opens s label r.
Proof.
  unfold after_open.
  destruct (startswith fence s) eqn:Es; [| discriminate].
  destruct (startswith_split _ _ Es) as [s1 ->].
  change (skipn 3 (fence ++ s1)) with s1. intros H.
  destruct (label_prefix_inv _ _ _ H) as [label [-> HF]].
  exists label. split; [reflexivity | exact HF].
Qed.

Lemma opens_after_open (s label r : str) :
  opens s label r -> after_open s = Some r.
Proof.
  intros [-> HF]. unfold after_open.
  change (startswith fence (fence ++ label ++ r)) with true.
  change (skipn 3 (fence ++ label ++ r)) with (label ++ r).
  cbv iota. apply label_prefix_app. exact HF.
Qed.

Lemma not_opens_match (s : str) :
  (forall label r, ~ opens s label r) -> match_here s = None.
Proof.
  intros H. unfold match_here.
  destruct (after_open s) as [r|] eqn:E; [| reflexivity].
  destruct (after_open_opens _ _ E) as [label Ho].
  exfalso. exact (H label r Ho).
Qed.

Lemma match_here_complete (s label r : str) :
  opens s label r ->
  (exists x y, r = x ++ fence ++ y) ->
  exists g, match_here s = Some g.
Proof.
  intros Ho (x & y & ->). unfold match_here.
  rewrite (opens_after_open _ _ _ Ho).
  apply greedy_complete. apply lazy_group_complete.
Qed.

Lemma match_here_fence_after (s g : str) :
  match_here s = Some g ->
  exists label r x y, opens s label r /\ r = x ++ fence ++ y.
Proof.
  unfold match_here. destruct (after_open s) as [r|] eqn:E; [| discriminate].
  destruct (after_open_opens _ _ E) as [label Ho]. intros H.
  destruct (span_facts r) as [H1 [H2 _]].
  destruct (greedy_sound _ _ _ H1 H2 H) as [k' [_ [_ [Hl _]]]].
  destruct (lazy_group_sound _ _ Hl) as [ws2 [post [Hs _]]].
  exists label, r, (firstn k' r ++ g ++ ws2), post. split; [exact Ho |].
  rewrite <- (firstn_skipn k' r) at 1. rewrite Hs, <- !app_assoc.
  reflexivity.
Qed.

Lemma next_fence_exists (r : str) :
  (exists x y, r = x ++ fence ++ y) -> exists a post, next_fence r a post.
Proof.
  induction r as [|c r IH]; intros (x & y & H).
  - destruct x; discriminate.
  - destruct (startswith fence (c :: r)) eqn:E.
    + destruct (startswith_split _ _ E) as [post Hp].
      exists [], post. split; [exact Hp |]. intros a1 a2 _. cbn. lia.
    + destruct x as [|c' x].
      { exfalso. rewrite H in E. cbn [app] in E.
        change (startswith fence (fence ++ y)) with true in E.
        discriminate. }
      cbn [app] in H. injection H as Hc Hx. subst c'.
      destruct (IH (ex_intro _ x (ex_intro _ y Hx)))
        as [a [post [Hr Hmin]]].
      exists (c :: a), post. split; [cbn [app]; f_equal; exact Hr |].
      intros a1 a2 Ha. destruct a1 as [|c1 a1].
      * exfalso. rewrite Ha in E. cbn [app] in E.
        change (startswith fence (fence ++ a2)) with true in E.
        discriminate.
      * cbn [app] in Ha. injection Ha as _ Ha1.
        specialize (Hmin a1 a2 Ha1). cbn [List.length]. lia.
Qed.

Lemma no_overlap (s label r p s' : str) :
  opens s label r ->
  s = p ++ s' -> p <> [] -> startswith fence s' = true ->
  exists x y, r = x ++ fence ++ y.
Proof.
  intros [Hs HF] Hp Hne Hst.
  change (lit "json") with [106; 115; 111; 110]%N in HF.
  inversion HF as [|? l0 ? lb0 H0 HF0]; subst.
  inversion HF0 as [|? l1 ? lb1 H1 HF1]; subst.
  inversion HF1 as [|? l2 ? lb2 H2 HF2]; subst.
  inversion HF2 as [|? l3 ? lb3 H3 HF3]; subst.
  inversion HF3; subst.
  destruct (startswith_split _ _ Hst) as [y ->].
  change (fence ++ [l0; l1; l2; l3] ++ r)
    with (96 :: 96 :: 96 :: l0 :: l1 :: l2 :: l3 :: r)%N in Hp.
  change (fence ++ y) with (96 :: 96 :: 96 :: y)%N in Hp.
  destruct p as [|p0 [|p1 [|p2 [|p3 [|p4 [|p5 [|p6 p']]]]]]];
    [congruence | | | | | | |];
    cbn [app] in Hp; inversion Hp; subst;
    try (cbv in H0; discriminate);
    try (cbv in H1; discriminate);
    try (cbv in H2; discriminate);
    try (cbv in H3; discriminate).
  exists p', y. reflexivity.
Qed.

Lemma search_fence_not_before (pre rest : str) :
  (forall p1 p2 label' r',
      pre = p1 ++ p2 -> p2 <> [] -> ~ opens (p2 ++ rest) label' r') ->
  search_fence (pre ++ rest) = search_fence rest.
Proof.
  induction pre as [|c pre IH]; intros Hmin; [reflexivity |].
  rewrite search_fence_unfold.
  rewrite (not_opens_match ((c :: pre) ++ rest)).
  - cbn [app]. apply IH. intros p1 p2 label' r' Hp Hne.
    apply (Hmin (c :: p1) p2). rewrite Hp. reflexivity. exact Hne.
  - intros label' r'. apply (Hmin [] (c :: pre)); [reflexivity | discriminate].
Qed.

Lemma search_fence_of_first_block (content body : str) :
  first_block content body -> search_fence content = Some body.
Proof.
  intros (label & r & a & post & (pre & -> & HF & Hmin) & [-> Hn] & ->).
  rewrite (search_fence_not_before pre _ Hmin), search_fence_unfold.
  rewrite (match_here_next_fence label a post HF);
    [reflexivity | split; [reflexivity | exact Hn]].
Qed.

Lemma first_block_of_search_fence (content body : str) :
  search_fence content = Some body -> first_block content body.
Proof.
  revert body. induction content as [|c s IH]; intros body;
    rewrite search_fence_unfold.
  - destruct (match_here []) eqn:E; discriminate.
  - destruct (match_here (c :: s)) as [g|] eqn:E.
    + intros [= ->].
      destruct (match_here_fence_after _ _ E)
        as (label & r & x & y & [Hs HF] & Hr).
      destruct (next_fence_exists r (ex_intro _ x (ex_intro _ y Hr)))
        as [a [post [Ha Hn]]].
      assert (Hm : match_here (c :: s) = Some (strip a)).
      { rewrite Hs, Ha. apply match_here_next_fence; [exact HF |].
        split; [reflexivity |]. rewrite <- Ha. exact Hn. }
      rewrite E in Hm. inversion Hm; subst body.
      exists label, r, a, post. split; [| split; [| reflexivity]].
      * exists []. split; [exact Hs |]. split; [exact HF |].
        intros p1 p2 label' r' Hp Hne. destruct p1; destruct p2;
          try discriminate. congruence.
      * split; [exact Ha | exact Hn].
    + intros H.
      destruct (IH body H)
        as (label & r & a & post & (pre & Hs & HF & Hmin) & Hn & Hb).
      exists label, r, a, post. split; [| split; assumption].
      exists (c :: pre). split; [cbn [app]; f_equal; exact Hs |].
      split; [exact HF |].
      intros p1 p2 label' r' Hp Hne Ho. destruct p1 as [|c1 p1].
      * cbn [app] in Hp. subst p2.
        destruct (no_overlap _ _ _ (c :: pre) (fence ++ label ++ r) Ho
                    eq_refl ltac:(discriminate) eq_refl) as (x & y & Hr).
        destruct (match_here_complete _ _ _ Ho
                    (ex_intro _ x (ex_intro _ y Hr))) as [g Hg].
        cbn [app] in Hg. rewrite <- Hs in Hg. congruence.
      * cbn [app] in Hp. inversion Hp; subst.
        exact (Hmin p1 p2 label' r' eq_refl Hne Ho).
Qed.

(** C3, as the code has it.  A content that decodes as JSON gives the
    decoded value, and a decoder that fails otherwise gives [None].
    When the content fails to decode, only its first fenced block
    counts: the text from the first opening fence with the label json,
    in any case, to the next fence, with the white space around it
    removed.  When that block decodes, its value is the result; when
    it does not, or when the content has no such block, the result is
    [None], whatever stands in a later block.  The first block of a
    content is unique.  A call of [generate_ad_content] issues one
    request and ends with a value: it does not retry and no exception
    leaves it. *)
Theorem decode_content_cases (env : Env) (raw : str) :
  (forall v,
      json_loads env (strip raw) = Json.Parsed v ->
      decode_content env raw = v)
  /\ (json_loads env (strip raw) = Json.OtherError ->
      decode_content env raw = PNone)
  /\ (json_loads env (strip raw) = Json.DecodeError ->
      (forall body,
          first_block (strip raw) body ->
          decode_content env raw
          = match json_loads env body with
            | Json.Parsed v => v
            | _ => PNone
            end)
      /\ ((forall body, ~ first_block (strip raw) body) ->
          decode_content env raw = PNone))
  /\ (forall content body body',
        first_block content body -> first_block content body' ->
        body = body')
  /\ (forall p l,
        exists v,
          generate_ad_content env p l = (Done v, l ++ [Chat (Generate p)])
          /\ (chat_create env l (Generate p) = None -> v = PNone)
          /\ (forall answer,
                 chat_create env l (Generate p) = Some answer ->
                 v = decode_content env answer)).
Proof.
  split; [| split; [| split; [| split]]].
  - intros v H. unfold decode_content. rewrite H. reflexivity.
  - intros H. unfold decode_content. rewrite H. reflexivity.
  - intros Hd. split.
    + intros body Hb. unfold decode_content.
      rewrite Hd, (search_fence_of_first_block _ _ Hb).
      destruct (json_loads env body); reflexivity.
    + intros Hn. unfold decode_content. rewrite Hd.
      destruct (search_fence (strip raw)) as [body|] eqn:E; [| reflexivity].
      exfalso. exact (Hn body (first_block_of_search_fence _ _ E)).
  - intros content body body' H H'.
    apply search_fence_of_first_block in H, H'. congruence.
  - intros p l. unfold generate_ad_content, bind, chat.
    destruct (chat_create env l (Generate p)) as [answer|];
      eexists; (split; [reflexivity |]); split; intros; congruence.
Qed.

Lemma decode_content_cases_witness :
  first_block (strip fenced_response) (lit "{}")
  /\ decode_content Script.silent fenced_response = PDict [].
Proof.
  assert (Hb : first_block (strip fenced_response) (lit "{}"))
    by (apply first_block_of_search_fence; reflexivity).
  split; [exact Hb |].
  exact (proj1 (proj1 (proj2 (proj2
           (decode_content_cases Script.silent fenced_response))) eq_refl)
           (lit "{}") Hb).
Defined.


End Further.
